(** * free-reader: article acquisition, arbitration, caching and URL normalisation

    A shallow embedding of [src/app/api/article/route.ts],
    [src/lib/validation/url.ts] and [src/lib/sanitize-ads.ts].

    Conventions.
    - JS strings are [String.string] holding UTF-8 bytes; JS [.length]
      (UTF-16 code units) is [js_length].
    - A field typed [string | null | undefined] is [option string]; JS
      truthiness of such a field is [truthy].
    - A function that may throw returns [Outcome A]: [Ok] or [Throw msg].
    - Asynchronous network and store effects are explicit inputs and
      explicit state. *)

From Stdlib Require Import ZArith String Ascii List Bool Lia.
Import ListNotations.

Open Scope string_scope.
Open Scope Z_scope.

(* ------------------------------------------------------------------ *)
(** ** JS values *)

Inductive Outcome (A : Type) : Type :=
| Ok : A -> Outcome A
| Throw : string -> Outcome A.
Arguments Ok {A} _.
Arguments Throw {A} _.

Definition bind_out {A B} (m : Outcome A) (k : A -> Outcome B) : Outcome B :=
  match m with Ok a => k a | Throw e => Throw e end.

Notation "x <- m ;; k" := (bind_out m (fun x => k))
  (at level 61, m at next level, right associativity).

(** JS truthiness of an optional string: [undefined], [null] and [""] are
    falsy. *)
Definition truthy (o : option string) : bool :=
  match o with
  | Some s => negb (String.eqb s "")
  | None => false
  end.

Definition byte (c : ascii) : Z := Z.of_nat (nat_of_ascii c).

(** UTF-16 length of a UTF-8 encoded string: one unit per lead byte, two
    for the lead byte of a four-byte sequence, none for continuation bytes. *)
Definition unit_weight (c : ascii) : Z :=
  let b := byte c in
  if (128 <=? b) && (b <? 192) then 0
  else if 240 <=? b then 2
  else 1.

Fixpoint js_length (s : string) : Z :=
  match s with
  | EmptyString => 0
  | String c r => unit_weight c + js_length r
  end.

(* ------------------------------------------------------------------ *)
(** ** String primitives of the JS runtime *)

Module JsStr.

Definition chr (n : Z) : ascii := ascii_of_nat (Z.to_nat n).

Fixpoint bytes (s : string) : list Z :=
  match s with EmptyString => [] | String c r => byte c :: bytes r end.

Fixpoint of_bytes (l : list Z) : string :=
  match l with [] => EmptyString | b :: r => String (chr b) (of_bytes r) end.

Fixpoint rev_str (s : string) : string :=
  match s with EmptyString => EmptyString | String c r => rev_str r ++ String c "" end.

Definition starts_with (s pre : string) : bool := String.prefix pre s.
Definition ends_with (s suf : string) : bool := String.prefix (rev_str suf) (rev_str s).

Definition in_range (lo hi b : Z) : bool := (lo <=? b) && (b <=? hi).
Definition is_digit (c : ascii) : bool := in_range 48 57 (byte c).
Definition is_alpha (c : ascii) : bool :=
  in_range 65 90 (byte c) || in_range 97 122 (byte c).
Definition is_alnum (c : ascii) : bool := is_alpha c || is_digit c.
Definition is_hex (c : ascii) : bool :=
  is_digit c || in_range 65 70 (byte c) || in_range 97 102 (byte c).
Definition hex_val (c : ascii) : Z :=
  let b := byte c in
  if in_range 48 57 b then b - 48
  else if in_range 65 70 b then b - 55
  else b - 87.

Definition lower_char (c : ascii) : ascii :=
  if in_range 65 90 (byte c) then chr (byte c + 32) else c.
Fixpoint lower (s : string) : string :=
  match s with EmptyString => EmptyString | String c r => String (lower_char c) (lower r) end.

Fixpoint all_chars (p : ascii -> bool) (s : string) : bool :=
  match s with EmptyString => true | String c r => p c && all_chars p r end.
Fixpoint any_char (p : ascii -> bool) (s : string) : bool :=
  match s with EmptyString => false | String c r => p c || any_char p r end.

(** The code points matched by the regex class [\s], which are also the
    ones [String.prototype.trim] removes, as UTF-8 byte sequences. *)
Definition ws_seqs : list string :=
  map of_bytes
    ([[9]; [10]; [11]; [12]; [13]; [32]; [194; 160]; [225; 154; 128]]
     ++ map (fun k => [226; 128; 128 + k]) [0; 1; 2; 3; 4; 5; 6; 7; 8; 9; 10]
     ++ [[226; 128; 168]; [226; 128; 169]; [226; 128; 175]; [226; 129; 159];
         [227; 128; 128]; [239; 187; 191]]).

(** Byte length of the whitespace character at the head of [s] (0: none). *)
Definition ws_at (s : string) : nat :=
  match find (fun w => starts_with s w) ws_seqs with
  | Some w => String.length w
  | None => 0
  end.

(** Byte length of the whitespace character at the end of [s] (0: none). *)
Definition ws_at_end (s : string) : nat :=
  match find (fun w => ends_with s w) ws_seqs with
  | Some w => String.length w
  | None => 0
  end.

Definition has_ws (s : string) : bool :=
  existsb (fun w => match String.index 0 w s with Some _ => true | None => false end) ws_seqs.

Definition drop (n : nat) (s : string) : string := substring n (String.length s - n) s.
Definition take (n : nat) (s : string) : string := substring 0 n s.

Fixpoint trim_start_fuel (fuel : nat) (s : string) : string :=
  match fuel with
  | O => s
  | S f => match ws_at s with O => s | k => trim_start_fuel f (drop k s) end
  end.
Fixpoint trim_end_fuel (fuel : nat) (s : string) : string :=
  match fuel with
  | O => s
  | S f => match ws_at_end s with
           | O => s
           | k => trim_end_fuel f (take (String.length s - k) s)
           end
  end.

(** [String.prototype.trim]. *)
Definition trim (s : string) : string :=
  trim_end_fuel (String.length s) (trim_start_fuel (String.length s) s).

(** [decodeURIComponent] (ECMA-262 Decode with an empty reserved set): a
    "%XX" sequence is decoded; the octets of a non-ASCII character must form
    one valid UTF-8 encoding, otherwise a URIError is thrown. *)
Definition utf8_len (b : Z) : nat :=
  if b <? 128 then 1
  else if Z.land b 224 =? 192 then 2
  else if Z.land b 240 =? 224 then 3
  else if Z.land b 248 =? 240 then 4
  else 0.

(** The code point encoded by a lead byte and its continuation bytes. *)
Definition utf8_cp (b : Z) (cont : list Z) : Z :=
  let lead := match List.length cont with
              | 1%nat => Z.land b 31 | 2%nat => Z.land b 15 | _ => Z.land b 7 end in
  fold_left (fun acc x => acc * 64 + Z.land x 63) cont lead.

Definition utf8_valid (b : Z) (cont : list Z) : bool :=
  let cp := utf8_cp b cont in
  forallb (fun x => Z.land x 192 =? 128) cont &&
  match List.length cont with
  | 1%nat => 128 <=? cp
  | 2%nat => (2048 <=? cp) && negb (in_range 55296 57343 cp)
  | 3%nat => (65536 <=? cp) && (cp <=? 1114111)
  | _ => false
  end.

Definition URIError := "URIError: URI malformed".

(** Reads [n] escapes "%XX" from the head of [s]. *)
Fixpoint read_escapes (n : nat) (s : string) : option (list Z * string) :=
  match n with
  | O => Some ([], s)
  | S m =>
      match s with
      | String "%" (String h1 (String h2 r)) =>
          if is_hex h1 && is_hex h2 then
            match read_escapes m r with
            | Some (l, r') => Some ((hex_val h1 * 16 + hex_val h2) :: l, r')
            | None => None
            end
          else None
      | _ => None
      end
  end.

Fixpoint decode_fuel (fuel : nat) (s : string) : Outcome string :=
  match fuel with
  | O => Ok s
  | S f =>
      match s with
      | EmptyString => Ok EmptyString
      | String "%" _ =>
          match read_escapes 1 s with
          | Some ([b], r) =>
              if b <? 128 then
                rest <- decode_fuel f r ;; Ok (String (chr b) rest)
              else
                match utf8_len b with
                | O | 1%nat => Throw URIError
                | S k =>
                    match read_escapes k r with
                    | Some (cont, r') =>
                        if utf8_valid b cont then
                          rest <- decode_fuel f r' ;; Ok (of_bytes (b :: cont) ++ rest)
                        else Throw URIError
                    | None => Throw URIError
                    end
                end
          | _ => Throw URIError
          end
      | String c r => rest <- decode_fuel f r ;; Ok (String c rest)
      end
  end.

Definition decodeURIComponent (s : string) : Outcome string :=
  decode_fuel (String.length s) s.

(** [s.split(d)] for a one-character separator. *)
Fixpoint split_char (d : ascii) (s : string) : list string :=
  match s with
  | EmptyString => [""]
  | String c r =>
      let l := split_char d r in
      if Ascii.eqb c d then "" :: l
      else match l with x :: t => String c x :: t | [] => [String c ""] end
  end.

Fixpoint join (sep : string) (l : list string) : string :=
  match l with [] => "" | [x] => x | x :: r => x ++ sep ++ join sep r end.

(** Splits [s] before the first character satisfying [p]. *)
Fixpoint break (p : ascii -> bool) (s : string) : string * string :=
  match s with
  | EmptyString => ("", "")
  | String c r => if p c then ("", s) else let (a, b) := break p r in (String c a, b)
  end.

(** [s] up to the first [c], and what follows that [c] if there is one. *)
Definition cut (c : ascii) (s : string) : string * option string :=
  match break (Ascii.eqb c) s with
  | (a, String _ b) => (a, Some b)
  | (a, EmptyString) => (a, None)
  end.

(** [s] up to the last [c], and what follows it, if [c] occurs. *)
Definition cut_last (c : ascii) (s : string) : option (string * string) :=
  match cut c (rev_str s) with
  | (a, Some b) => Some (rev_str b, rev_str a)
  | (_, None) => None
  end.

Fixpoint dec_fuel (fuel : nat) (n : Z) (acc : string) : string :=
  match fuel with
  | O => acc
  | S f => let acc' := String (chr (48 + n mod 10)) acc in
           if n <? 10 then acc' else dec_fuel f (n / 10) acc'
  end.
(** [String(n)] for a non-negative integer. *)
Definition dec (n : Z) : string := dec_fuel 64 n "".

Definition hexdig_upper (n : Z) : ascii := if n <? 10 then chr (48 + n) else chr (55 + n).
Definition hexdig_lower (n : Z) : ascii := if n <? 10 then chr (48 + n) else chr (87 + n).
Fixpoint hex_fuel (fuel : nat) (n : Z) (acc : string) : string :=
  match fuel with
  | O => acc
  | S f => let acc' := String (hexdig_lower (n mod 16)) acc in
           if n <? 16 then acc' else hex_fuel f (n / 16) acc'
  end.
(** [n.toString(16)]. *)
Definition hex (n : Z) : string := hex_fuel 16 n "".

End JsStr.

(* ------------------------------------------------------------------ *)
(** ** WHATWG URL ([new URL], [.hostname], [.pathname], [.searchParams],
    [.toString]) as the runtime provides it to [url.ts].

    Modelled for absolute URLs. Not modelled: the [file:] scheme's own
    states, and the IDNA (UTS 46) mapping of non-ASCII domain labels, which
    are left as they are after ASCII lower-casing. *)

Module WUrl.
Import JsStr.

Record URL := mkURL {
  scheme : string;
  username : string;
  password : string;
  host : option string;      (** serialized host; [None] for no host *)
  port : option Z;
  opaque : bool;             (** opaque path *)
  path : string;             (** serialized path *)
  query : option string;
  fragment : option string
}.

Definition invalid {A} : Outcome A := Throw "TypeError: Invalid URL".

Definition special (sch : string) : bool :=
  existsb (String.eqb sch) ["http"; "https"; "ws"; "wss"; "ftp"; "file"].

Definition default_port (sch : string) : option Z :=
  if String.eqb sch "http" || String.eqb sch "ws" then Some 80
  else if String.eqb sch "https" || String.eqb sch "wss" then Some 443
  else if String.eqb sch "ftp" then Some 21
  else None.

(** Percent-encode sets. *)
Definition c0_set (b : Z) : bool := (b <? 32) || (126 <? b).
Definition fragment_set (b : Z) : bool := c0_set b || existsb (Z.eqb b) [32; 34; 60; 62; 96].
Definition query_set (b : Z) : bool := c0_set b || existsb (Z.eqb b) [32; 34; 35; 60; 62].
Definition special_query_set (b : Z) : bool := query_set b || (b =? 39).
Definition path_set (b : Z) : bool := query_set b || existsb (Z.eqb b) [63; 94; 96; 123; 125].
Definition userinfo_set (b : Z) : bool :=
  path_set b || existsb (Z.eqb b) [47; 58; 59; 61; 64; 91; 92; 93; 94; 124].

Definition pct (b : Z) : string :=
  String "%" (String (hexdig_upper (b / 16)) (String (hexdig_upper (b mod 16)) "")).

Fixpoint encode (set : Z -> bool) (s : string) : string :=
  match s with
  | EmptyString => EmptyString
  | String c r => (if set (byte c) then pct (byte c) else String c "") ++ encode set r
  end.

(** Percent-decoding of bytes: a "%" not followed by two hex digits stays. *)
Fixpoint pct_decode (s : string) : string :=
  match s with
  | EmptyString => EmptyString
  | String c r =>
      if Ascii.eqb c "%" then
        match r with
        | String h1 (String h2 r') =>
            if is_hex h1 && is_hex h2
            then String (chr (hex_val h1 * 16 + hex_val h2)) (pct_decode r')
            else String c (pct_decode r)
        | _ => String c (pct_decode r)
        end
      else String c (pct_decode r)
  end.

(** Leading and trailing C0 controls and spaces are stripped; tabs and
    newlines are removed everywhere. *)
Fixpoint strip_lead (s : string) : string :=
  match s with String c r => if byte c <=? 32 then strip_lead r else s | _ => s end.
Definition strip_c0 (s : string) : string := rev_str (strip_lead (rev_str (strip_lead s))).
Fixpoint remove_tabnl (s : string) : string :=
  match s with
  | EmptyString => EmptyString
  | String c r => if existsb (Z.eqb (byte c)) [9; 10; 13] then remove_tabnl r
                  else String c (remove_tabnl r)
  end.

Definition is_scheme_char (c : ascii) : bool :=
  is_alnum c || existsb (Ascii.eqb c) ["+"; "-"; "."]%char.

Definition parse_scheme (s : string) : option (string * string) :=
  match s with
  | String c r =>
      if is_alpha c then
        match break (fun x => negb (is_scheme_char x)) r with
        | (sch, String ":" rest) => Some (lower (String c sch), rest)
        | _ => None
        end
      else None
  | EmptyString => None
  end.

(** IPv4 number parser: decimal, "0x" hexadecimal or "0" octal. *)
Definition digits_val (radix : Z) (s : string) : option Z :=
  let ok c := if radix =? 16 then is_hex c
              else if radix =? 8 then in_range 48 55 (byte c) else is_digit c in
  if all_chars ok s
  then Some (fold_left (fun acc c => acc * radix + hex_val c) (list_ascii_of_string s) 0)
  else None.

Definition ipv4_number (s : string) : option Z :=
  if String.eqb s "" then None
  else
    let '(radix, body) :=
      if starts_with s "0x" || starts_with s "0X" then (16, drop 2 s)
      else if (2 <=? Z.of_nat (String.length s)) && starts_with s "0" then (8, drop 1 s)
      else (10, s) in
    if String.eqb body "" then Some 0 else digits_val radix body.

(** Drops a trailing empty label, as both "ends in a number" and the IPv4
    parser do. *)
Definition ipv4_parts (h : string) : list string :=
  let parts := split_char "." h in
  match rev parts with
  | "" :: (_ :: _) as r => rev r
  | _ => parts
  end.

Definition ends_in_a_number (h : string) : bool :=
  let parts := split_char "." h in
  match rev parts with
  | [""] => false
  | _ =>
      match rev (ipv4_parts h) with
      | last :: _ =>
          (negb (String.eqb last "") && all_chars is_digit last)
          || match ipv4_number last with Some _ => true | None => false end
      | [] => false
      end
  end.

Definition ipv4_serialize (n : Z) : string :=
  join "." (map (fun k => dec ((n / 2 ^ (8 * k)) mod 256)) [3; 2; 1; 0]).

Fixpoint all_some {A} (l : list (option A)) : option (list A) :=
  match l with
  | [] => Some []
  | Some x :: r => match all_some r with Some t => Some (x :: t) | None => None end
  | None :: _ => None
  end.

Definition ipv4_parser (h : string) : Outcome string :=
  let parts := ipv4_parts h in
  let n := Z.of_nat (List.length parts) in
  if 4 <? n then invalid else
  match all_some (map ipv4_number parts) with
  | None => invalid
  | Some nums =>
      let init := removelast nums in
      let last := List.last nums 0 in
      if existsb (fun x => 255 <? x) init then invalid
      else if 256 ^ (5 - n) <=? last then invalid
      else
        let v := fold_left (fun acc '(i, x) => acc + x * 256 ^ (3 - i))
                   (combine (map Z.of_nat (seq 0 (List.length init))) init) last in
        Ok (ipv4_serialize v)
  end.

(** IPv6 pieces; the dotted IPv4 tail counts for two pieces and its
    numbers have no leading zero. *)
Definition hex_piece (s : string) : option Z :=
  let l := String.length s in
  if (1 <=? Z.of_nat l) && (Z.of_nat l <=? 4) && all_chars is_hex s
  then digits_val 16 s else None.

Definition dec_octet (s : string) : option Z :=
  if String.eqb s "" || negb (all_chars is_digit s) then None
  else if (1 <? Z.of_nat (String.length s)) && starts_with s "0" then None
  else match digits_val 10 s with
       | Some v => if v <=? 255 then Some v else None
       | None => None
       end.

Definition v4_tail (s : string) : option (list Z) :=
  match all_some (map dec_octet (split_char "." s)) with
  | Some [a; b; c; d] => Some [a * 256 + b; c * 256 + d]
  | _ => None
  end.

Definition v6_groups (allow_v4 : bool) (s : string) : option (list Z) :=
  if String.eqb s "" then Some [] else
  let ps := split_char ":" s in
  let init := removelast ps in
  let last := List.last ps "" in
  match all_some (map hex_piece init) with
  | None => None
  | Some a =>
      if allow_v4 && any_char (Ascii.eqb ".") last
      then option_map (fun t => (a ++ t)%list) (v4_tail last)
      else option_map (fun x => (a ++ [x])%list) (hex_piece last)
  end.

Definition ipv6_pieces (s : string) : option (list Z) :=
  match String.index 0 "::" s with
  | Some i =>
      let l := substring 0 i s in
      let r := drop (i + 2) s in
      match String.index 0 "::" r with
      | Some _ => None
      | None =>
          match v6_groups false l, v6_groups true r with
          | Some a, Some b =>
              let k := (List.length a + List.length b)%nat in
              if (k <=? 7)%nat then Some (a ++ repeat 0 (8 - k) ++ b)%list else None
          | _, _ => None
          end
      end
  | None =>
      match v6_groups true s with
      | Some a => if (List.length a =? 8)%nat then Some a else None
      | None => None
      end
  end.

(** IPv6 serializer: the first longest run of two or more zero pieces is
    compressed to "::". *)
Fixpoint zero_runs (i : nat) (l : list Z) (cur : nat * nat) (best : nat * nat)
    : nat * nat :=
  match l with
  | [] => let '(cs, cl) := cur in let '(bs, bl) := best in
          if (bl <? cl)%nat then (cs, cl) else (bs, bl)
  | x :: r =>
      let '(cs, cl) := cur in
      if x =? 0 then zero_runs (S i) r (if (cl =? 0)%nat then (i, 1%nat) else (cs, S cl)) best
      else
        let '(bs, bl) := best in
        zero_runs (S i) r (0%nat, 0%nat) (if (bl <? cl)%nat then (cs, cl) else (bs, bl))
  end.

Definition ipv6_serialize (pieces : list Z) : string :=
  let '(cs, cl) := zero_runs 0 pieces (0%nat, 0%nat) (0%nat, 0%nat) in
  let compress := if (2 <=? cl)%nat then Some cs else None in
  let fix go (i : nat) (l : list Z) (ignore0 : bool) : string :=
    match l with
    | [] => ""
    | x :: r =>
        if ignore0 && (x =? 0) then go (S i) r true
        else if match compress with Some c => (c =? i)%nat | None => false end
        then (if (i =? 0)%nat then "::" else ":") ++ go (S i) r true
        else hex x ++ (if (i =? 7)%nat then "" else ":") ++ go (S i) r false
    end in
  go 0%nat pieces false.

Definition forbidden_host_cp (b : Z) : bool :=
  existsb (Z.eqb b) [0; 9; 10; 13; 32; 35; 47; 58; 60; 62; 63; 64; 91; 92; 93; 94; 124].
Definition forbidden_domain_cp (b : Z) : bool :=
  forbidden_host_cp b || (b <=? 31) || (b =? 37) || (b =? 127).

(** The host parser. *)
Definition parse_host (is_special : bool) (input : string) : Outcome string :=
  if starts_with input "[" then
    if ends_with input "]" then
      match ipv6_pieces (substring 1 (String.length input - 2) input) with
      | Some p => Ok ("[" ++ ipv6_serialize p ++ "]")
      | None => invalid
      end
    else invalid
  else if negb is_special then
    if any_char (fun c => forbidden_host_cp (byte c)) input then invalid
    else Ok (encode c0_set input)
  else
    let domain := lower (pct_decode input) in
    if String.eqb domain "" then invalid
    else if any_char (fun c => forbidden_domain_cp (byte c)) domain then invalid
    else if ends_in_a_number domain then ipv4_parser domain
    else Ok domain.

(** Path segments: ".", "%2e" and ".." forms are resolved. *)
Definition single_dot (s : string) : bool := String.eqb s "." || String.eqb (lower s) "%2e".
Definition double_dot (s : string) : bool :=
  existsb (String.eqb (lower s)) [".."; ".%2e"; "%2e."; "%2e%2e"].

Fixpoint resolve (segs : list string) (acc : list string) : list string :=
  match segs with
  | [] => rev acc
  | seg :: rest =>
      let is_last := match rest with [] => true | _ => false end in
      if double_dot seg then
        let acc' := match acc with [] => [] | _ :: t => t end in
        resolve rest (if is_last then "" :: acc' else acc')
      else if single_dot seg then resolve rest (if is_last then "" :: acc else acc)
      else resolve rest (seg :: acc)
  end.

Fixpoint backslash_to_slash (s : string) : string :=
  match s with
  | EmptyString => EmptyString
  | String c r => String (if Ascii.eqb c "\" then "/"%char else c) (backslash_to_slash r)
  end.

(** The path start state followed by the path state, serialized. *)
Definition parse_path (is_special : bool) (p : string) : string :=
  let p := if is_special then backslash_to_slash p else p in
  let body := if starts_with p "/" then drop 1 p else p in
  if negb is_special && String.eqb p "" then ""
  else "/" ++ join "/" (resolve (map (encode path_set) (split_char "/" body)) []).

Definition is_authority_end (sp : bool) (c : ascii) : bool :=
  Ascii.eqb c "/" || (sp && Ascii.eqb c "\").

Fixpoint skip_slashes (s : string) : string :=
  match s with
  | String c r => if Ascii.eqb c "/" || Ascii.eqb c "\" then skip_slashes r else s
  | EmptyString => EmptyString
  end.

(** Host and port: the first ":" outside brackets starts the port. *)
Fixpoint split_port (inb : bool) (s : string) : string * option string :=
  match s with
  | EmptyString => ("", None)
  | String c r =>
      if Ascii.eqb c ":" && negb inb then ("", Some r)
      else
        let inb' := if Ascii.eqb c "[" then true else if Ascii.eqb c "]" then false else inb in
        let (h, p) := split_port inb' r in (String c h, p)
  end.

(** [new URL(input)] without a base. *)
Definition parse_url (input : string) : Outcome URL :=
  let s := remove_tabnl (strip_c0 input) in
  match parse_scheme s with
  | None => invalid
  | Some (sch, rest) =>
      let sp := special sch in
      let '(before_frag, frag) := cut "#" rest in
      let '(before_q, q) := cut "?" before_frag in
      let qry := option_map (encode (if sp then special_query_set else query_set)) q in
      let frg := option_map (encode fragment_set) frag in
      if sp || starts_with before_q "//" then
        let after := if sp then skip_slashes before_q else drop 2 before_q in
        let '(authority, path_str) := break (is_authority_end sp) after in
        let '(userinfo, hostport) :=
          match cut_last "@" authority with
          | Some (ui, hp) => (Some ui, hp)
          | None => (None, authority)
          end in
        let '(user, pass) :=
          match userinfo with
          | Some ui => let '(u, p) := cut ":" ui in
                       (encode userinfo_set u, match p with Some p => encode userinfo_set p | None => "" end)
          | None => ("", "")
          end in
        let '(h, port_str) := split_port false hostport in
        if (match userinfo with Some _ => true | None => false end) && String.eqb hostport ""
        then invalid
        else if sp && String.eqb h "" then invalid
        else
          match parse_host sp h with
          | Throw e => Throw e
          | Ok host =>
              let port_r : Outcome (option Z) :=
                match port_str with
                | None => Ok None
                | Some ps =>
                    if String.eqb ps "" then Ok None
                    else if negb (all_chars is_digit ps) then invalid
                    else match digits_val 10 ps with
                         | Some v =>
                             if 65535 <? v then invalid
                             else if match default_port sch with Some d => d =? v | None => false end
                             then Ok None else Ok (Some v)
                         | None => invalid
                         end
                end in
              match port_r with
              | Throw e => Throw e
              | Ok port =>
                  Ok (mkURL sch user pass (Some host) port false (parse_path sp path_str) qry frg)
              end
          end
      else if starts_with before_q "/" then
        Ok (mkURL sch "" "" None None false (parse_path sp before_q) qry frg)
      else
        Ok (mkURL sch "" "" None None true (encode c0_set before_q) qry frg)
  end.

(** [url.hostname]. *)
Definition hostname (u : URL) : string :=
  match host u with Some h => h | None => "" end.

(** [url.href] / [url.toString()]. *)
Definition href (u : URL) : string :=
  scheme u ++ ":" ++
  match host u with
  | Some h =>
      "//" ++
      (if negb (String.eqb (username u) "") || negb (String.eqb (password u) "")
       then username u ++
            (if String.eqb (password u) "" then "" else ":" ++ password u) ++ "@"
       else "") ++
      h ++ (match port u with Some p => ":" ++ dec p | None => "" end)
  | None => ""
  end ++
  path u ++
  (match query u with Some q => "?" ++ q | None => "" end) ++
  (match fragment u with Some f => "#" ++ f | None => "" end).

(** application/x-www-form-urlencoded parser and serializer
    ([URLSearchParams]). *)
Fixpoint plus_to_space (s : string) : string :=
  match s with
  | EmptyString => EmptyString
  | String c r => String (if Ascii.eqb c "+" then " "%char else c) (plus_to_space r)
  end.

Definition urlencoded_parse (q : string) : list (string * string) :=
  map (fun seq =>
         let '(n, v) := cut "=" seq in
         (pct_decode (plus_to_space n),
          match v with Some v => pct_decode (plus_to_space v) | None => "" end))
      (filter (fun seq => negb (String.eqb seq "")) (split_char "&" q)).

Definition form_keep (b : Z) : bool :=
  existsb (Z.eqb b) [42; 45; 46; 95] || in_range 48 57 b || in_range 65 90 b || in_range 97 122 b.

Fixpoint form_encode (s : string) : string :=
  match s with
  | EmptyString => EmptyString
  | String c r =>
      (if form_keep (byte c) then String c ""
       else if byte c =? 32 then "+" else pct (byte c)) ++ form_encode r
  end.

Definition urlencoded_serialize (l : list (string * string)) : string :=
  join "&" (map (fun '(n, v) => form_encode n ++ "=" ++ form_encode v) l).

(** [url.searchParams.delete(name)] for each name in turn: the list is
    filtered and the URL's query is set to its serialization ([null] when
    empty). *)
Definition delete_params (names : list string) (u : URL) : URL :=
  let l := urlencoded_parse (match query u with Some q => q | None => "" end) in
  let l' := filter (fun '(n, _) => negb (existsb (String.eqb n) names)) l in
  let q := urlencoded_serialize l' in
  mkURL (scheme u) (username u) (password u) (host u) (port u) (opaque u) (path u)
        (if String.eqb q "" then None else Some q) (fragment u).

(** [url.pathname = v]. *)
Definition set_pathname (u : URL) (v : string) : URL :=
  if opaque u then u
  else mkURL (scheme u) (username u) (password u) (host u) (port u) false
             (parse_path (special (scheme u)) v) (query u) (fragment u).

End WUrl.

(* ------------------------------------------------------------------ *)
(** ** validator.js ([isIP], [isFQDN], [isURL] with the options of
    [URL_VALIDATION_OPTIONS]), as [url.ts] imports them *)

Module Validator.
Import JsStr.

(** Code points of a UTF-8 string (continuation bytes of a malformed
    sequence count as themselves). *)
Fixpoint code_points_fuel (fuel : nat) (l : list Z) : list Z :=
  match fuel with
  | O => []
  | S f =>
      match l with
      | [] => []
      | b :: r =>
          match utf8_len b with
          | O | 1%nat => b :: code_points_fuel f r
          | S k => utf8_cp b (firstn k r) :: code_points_fuel f (skipn k r)
          end
      end
  end.
Definition code_points (s : string) : list Z :=
  code_points_fuel (String.length s) (bytes s).

Definition ascii_letter (cp : Z) : bool := in_range 65 90 cp || in_range 97 122 cp.
Definition ascii_digit (cp : Z) : bool := in_range 48 57 cp.

(** [isIP(str, 4)]: four decimal octets without leading zeros. *)
Definition isIPv4 (s : string) : bool :=
  match WUrl.all_some (map WUrl.dec_octet (split_char "." s)) with
  | Some [_; _; _; _] => true
  | _ => false
  end.

(** [isIP(str, 6)]: an IPv6 address, optionally followed by a zone
    "%[0-9a-zA-Z-.:]+". *)
Definition isIPv6 (s : string) : bool :=
  let '(addr, zone) := cut "%" s in
  let zone_ok := match zone with
                 | None => true
                 | Some z => negb (String.eqb z "") &&
                             all_chars (fun c => is_alnum c || existsb (Ascii.eqb c) ["-"; "."; ":"]%char) z
                 end in
  zone_ok && match WUrl.ipv6_pieces addr with Some _ => true | None => false end.

(** [isIP(str)]. *)
Definition isIP (s : string) : bool := isIPv4 s || isIPv6 s.

Definition tld_cp (cp : Z) : bool :=
  ascii_letter cp || in_range 161 168 cp || in_range 170 55295 cp
  || in_range 63744 64975 cp || in_range 65008 65519 cp.

(** [isFQDN(str, {require_tld: true, allow_underscores: true,
    allow_trailing_dot: false, allow_numeric_tld: false})]. *)
Definition isFQDN (s : string) : bool :=
  let parts := split_char "." s in
  let tld := List.last parts "" in
  let tcp := code_points tld in
  let tld_ok :=
    ((2 <=? js_length tld) && forallb tld_cp tcp)
    || (match tcp with
        | x :: y :: r => existsb (Z.eqb x) [120; 88] && existsb (Z.eqb y) [110; 78]
                         && (2 <=? Z.of_nat (List.length r))
                         && forallb (fun c => ascii_letter c || ascii_digit c || (c =? 45)) r
        | _ => false
        end) in
  (2 <=? Z.of_nat (List.length parts)) && tld_ok && negb (has_ws tld)
  && negb (negb (String.eqb tld "") && all_chars is_digit tld)
  && forallb (fun part =>
       (js_length part <=? 63)
       && negb (String.eqb part "")
       && forallb (fun c => ascii_letter c || ascii_digit c || (c =? 95) || (c =? 45)
                            || (161 <=? c)) (code_points part)
       && negb (existsb (in_range 65281 65374) (code_points part))
       && negb (starts_with part "-") && negb (ends_with part "-")) parts.

(** [/^\[([^\]]+)\](?::([0-9]+))?$/]: the address and the port string. *)
Definition wrapped_ipv6 (h : string) : option (string * option string) :=
  match h with
  | String "[" r =>
      match cut "]" r with
      | (a, Some rest) =>
          if String.eqb a "" then None
          else if String.eqb rest "" then Some (a, None)
          else match rest with
               | String ":" p =>
                   if negb (String.eqb p "") && all_chars is_digit p then Some (a, Some p) else None
               | _ => None
               end
      | (_, None) => None
      end
  | _ => None
  end.

Definition has_char (c : ascii) (s : string) : bool := any_char (Ascii.eqb c) s.

(** Everything after the first occurrence of [sep] in [s]. *)
Definition after_sub (sep s : string) : option (string * string) :=
  match String.index 0 sep s with
  | Some i => Some (substring 0 i s, drop (i + String.length sep) s)
  | None => None
  end.

Definition isURL (url : string) : bool :=
  if String.eqb url "" || has_ws url || has_char "<" url || has_char ">" url then false
  else if starts_with url "mailto:" then false
  else if 2084 <? js_length url then false
  else
    let url := fst (cut "#" url) in
    let url := fst (cut "?" url) in
    match after_sub "://" url with
    | None => false
    | Some (protocol, url) =>
        if negb (existsb (String.eqb (lower protocol)) ["http"; "https"]) then false
        else if String.eqb url "" then false
        else
          let url := fst (cut "/" url) in
          let auth_ok :=
            match cut "@" url with
            | (auth, Some _) =>
                negb (String.eqb auth "")
                && negb (has_char ":" auth && (2 <? Z.of_nat (List.length (split_char ":" auth))))
                && negb (match cut ":" auth with
                         | ("", Some "") => true
                         | _ => false
                         end)
            | (_, None) => true
            end in
          let hostname := match cut "@" url with (_, Some h) => h | (h, None) => h end in
          let '(host, ipv6, port_str) :=
            match wrapped_ipv6 hostname with
            | Some (a, p) => ("", Some a, p)
            | None => let '(h, p) := cut ":" hostname in (h, None, p)
            end in
          let port_ok :=
            match port_str with
            | Some p =>
                String.eqb p ""
                || (all_chars is_digit p
                    && match WUrl.digits_val 10 p with
                       | Some v => (0 <? v) && (v <=? 65535)
                       | None => false
                       end)
            | None => true
            end in
          auth_ok && port_ok
          && (isIP host || isFQDN host
              || match ipv6 with Some a => isIPv6 a | None => false end)
    end.

End Validator.

(* ------------------------------------------------------------------ *)
(** ** [src/lib/validation/url.ts] *)

Module UrlTs.
Import JsStr.

(** [PRIVATE_IP_RANGES], each regex as a predicate. *)
Definition digits13 (s : string) : bool :=
  all_chars is_digit s && (1 <=? Z.of_nat (String.length s)) && (Z.of_nat (String.length s) <=? 3).

Definition dotted (pre : list string -> bool) (s : string) : bool :=
  let ps := split_char "." s in
  (Nat.eqb (List.length ps) 4) && pre ps.

Definition range_127 := dotted (fun ps => match ps with
  | [a; b; c; d] => String.eqb a "127" && digits13 b && digits13 c && digits13 d | _ => false end).
Definition range_10 := dotted (fun ps => match ps with
  | [a; b; c; d] => String.eqb a "10" && digits13 b && digits13 c && digits13 d | _ => false end).
Definition range_192_168 := dotted (fun ps => match ps with
  | [a; b; c; d] => String.eqb a "192" && String.eqb b "168" && digits13 c && digits13 d | _ => false end).
(** [^172\.(1[6-9]|2\d|3[0-1])\.\d{1,3}\.\d{1,3}$] *)
Definition range_172 := dotted (fun ps => match ps with
  | [a; b; c; d] =>
      String.eqb a "172"
      && (existsb (String.eqb b) ["16"; "17"; "18"; "19"; "30"; "31"]
          || (Nat.eqb (String.length b) 2 && starts_with b "2" && all_chars is_digit b))
      && digits13 c && digits13 d
  | _ => false end).
Definition range_any (s : string) : bool := String.eqb s "0.0.0.0".
Definition range_v6_loopback (s : string) : bool := String.eqb s "::1".
(** [^[fF][cCdD][0-9a-fA-F]{2}:.*] *)
Definition range_v6_ula (s : string) : bool :=
  match s with
  | String f (String c (String h1 (String h2 (String ":" _)))) =>
      Ascii.eqb (lower_char f) "f" && existsb (Ascii.eqb (lower_char c)) ["c"; "d"]%char
      && is_hex h1 && is_hex h2
  | _ => false
  end.
(** [^[fF][eE][89aAbB][0-9a-fA-F]:.*] *)
Definition range_v6_link_local (s : string) : bool :=
  match s with
  | String f (String e (String x (String h (String ":" _)))) =>
      Ascii.eqb (lower_char f) "f" && Ascii.eqb (lower_char e) "e"
      && existsb (Ascii.eqb (lower_char x)) ["8"; "9"; "a"; "b"]%char && is_hex h
  | _ => false
  end.

Definition PRIVATE_IP_RANGES : list (string -> bool) :=
  [range_127; range_10; range_192_168; range_172; range_any;
   range_v6_loopback; range_v6_ula; range_v6_link_local].

Definition isPrivateIP (hostname : string) : bool :=
  if String.eqb hostname "localhost" || ends_with hostname ".local" then true
  else if Validator.isIP hostname then existsb (fun regex => regex hostname) PRIVATE_IP_RANGES
  else false.

Definition safeDecodeUrl (value : string) : string :=
  match decodeURIComponent value with Ok d => d | Throw _ => value end.

(** The group [([a-zA-Z][a-zA-Z\d+\-.]* )] anchored at the start and
    followed by ":": the scheme and what follows its ":". The scheme class
    excludes ":", so the regexes below have one way to match. *)
Definition scheme_colon (s : string) : option (string * string) :=
  match s with
  | String c r =>
      if is_alpha c then
        match break (fun x => negb (WUrl.is_scheme_char x)) r with
        | (sch, String ":" rest) => Some (String c sch, rest)
        | _ => None
        end
      else None
  | EmptyString => None
  end.

(** [url.replace(REPAIR, "$1://")] where REPAIR is the scheme group above
    followed by [:\/(?!\/)]: a lone slash after the colon is doubled. *)
Definition repairProtocol (url : string) : string :=
  match scheme_colon url with
  | Some (sch, String "/" rest) =>
      if starts_with rest "/" then url else sch ++ "://" ++ rest
  | _ => url
  end.

(** [PROTOCOL_REGEX.test]: [/^[a-zA-Z][a-zA-Z\d+\-.]*:\/\//]. *)
Definition PROTOCOL_REGEX_test (s : string) : bool :=
  match scheme_colon s with
  | Some (_, rest) => starts_with rest "//"
  | None => false
  end.

Definition PRIVATE_ERR := "Access to private or local networks is restricted.".
Definition EMPTY_ERR := "Please enter a URL.".
Definition INVALID_ERR := "Please enter a valid URL (e.g. example.com or https://example.com).".

Definition normalizeUrl (input : string) : Outcome string :=
  let trimmed := trim input in
  if String.eqb trimmed "" then Throw EMPTY_ERR
  else
    let decoded := safeDecodeUrl trimmed in
    let repaired := repairProtocol decoded in
    let candidate := if PROTOCOL_REGEX_test repaired then repaired else "https://" ++ repaired in
    (* the try block: only the private-network error escapes it *)
    let is_private := match WUrl.parse_url candidate with
                   | Ok urlObj => isPrivateIP (WUrl.hostname urlObj)
                   | Throw _ => false
                   end in
    if is_private then Throw PRIVATE_ERR
    else if negb (Validator.isURL candidate) then Throw INVALID_ERR
    else Ok candidate.

Definition isValidUrl (input : string) : bool :=
  match normalizeUrl input with Ok _ => true | Throw _ => false end.

Definition APP_QUERY_PARAMS := ["source"; "view"; "sidebar"].

(** [extractArticleUrl]; its catch block calls [normalizeUrl(inputUrl)]
    again. *)
Definition extractArticleUrl (inputUrl : string) : Outcome string :=
  match normalizeUrl inputUrl with
  | Throw _ => normalizeUrl inputUrl
  | Ok normalized =>
      match WUrl.parse_url normalized with
      | Throw _ => normalizeUrl inputUrl
      | Ok url0 =>
          let url1 := WUrl.delete_params APP_QUERY_PARAMS url0 in
          let p := WUrl.path url1 in
          let url2 := if (1 <? js_length p) && ends_with p "/"
                      then WUrl.set_pathname url1 (take (String.length p - 1) p)
                      else url1 in
          Ok (WUrl.href url2)
      end
  end.

(** The pairs of a query that [extractArticleUrl] keeps, in order. *)
Definition kept_params (q : string) : list (string * string) :=
  filter (fun '(n, _) => negb (existsb (String.eqb n) APP_QUERY_PARAMS)) (WUrl.urlencoded_parse q).

(** [u] with the query [q]. *)
Definition with_query (u : WUrl.URL) (q : string) : WUrl.URL :=
  WUrl.mkURL (WUrl.scheme u) (WUrl.username u) (WUrl.password u) (WUrl.host u) (WUrl.port u)
             (WUrl.opaque u) (WUrl.path u) (Some q) (WUrl.fragment u).

(** [u] with the path [p] and the query [q]. *)
Definition with_path_query (u : WUrl.URL) (p q : string) : WUrl.URL :=
  WUrl.mkURL (WUrl.scheme u) (WUrl.username u) (WUrl.password u) (WUrl.host u) (WUrl.port u)
             (WUrl.opaque u) p (Some q) (WUrl.fragment u).

End UrlTs.

(* ------------------------------------------------------------------ *)
(** ** The cached article record ([CachedArticleSchema], route.ts) *)

Inductive Dir := Rtl | Ltr.

Record CachedArticle := mkArticle {
  title : string;
  content : string;
  textContent : string;
  length : Z;
  siteName : string;
  byline : option string;
  publishedTime : option string;
  image : option string;
  htmlContent : option string;
  lang : option string;
  dir : option Dir
}.

(** [CachedArticleSchema.safeParse] on a value that already has the
    record's shape: the only refinement left is [length: int().positive()]. *)
Definition schema_ok (a : CachedArticle) : bool := 0 <? length a.

Record ArticleMetadata := mkMeta {
  m_title : string;
  m_siteName : string;
  m_length : Z;
  m_byline : option string;
  m_publishedTime : option string;
  m_image : option string
}.

Definition metadata_of (a : CachedArticle) : ArticleMetadata :=
  mkMeta (title a) (siteName a) (length a) (byline a) (publishedTime a) (image a).

(* ------------------------------------------------------------------ *)
(** ** Cache Merge Resolver ([saveOrReturnLongerArticle], route.ts 84-175) *)

Module Cache.

(** What [decompress(await redis.get(key))] yields for a stored value: an
    object of the article's shape, or some other value that fails the
    schema. *)
Inductive Cached :=
| CArticle (a : CachedArticle)
| CJunk.

(** The Redis store: compressed articles and their metadata records. *)
Record Store := mkStore {
  articles : string -> option Cached;
  metas : string -> option ArticleMetadata
}.

Definition upd {V} (f : string -> option V) (k : string) (v : V) :=
  fun k' => if String.eqb k' k then Some v else f k'.

(** [saveToCache]: [redis.set(key, compress(article))] and
    [redis.set("meta:" + key, metadata)]. *)
Definition saveToCache (key : string) (a : CachedArticle) (st : Store) : Store :=
  mkStore (upd (articles st) key (CArticle a))
          (upd (metas st) ("meta:" ++ key) (metadata_of a)).

Definition saveOrReturnLongerArticle (key : string) (newArticle : CachedArticle)
    (st : Store) : CachedArticle * Store :=
  if negb (schema_ok newArticle) then
    (* throw inside the try; the catch returns [newArticle] *)
    (newArticle, st)
  else
    match articles st key with
    | Some (CArticle existing) =>
        if negb (schema_ok existing) then (newArticle, saveToCache key newArticle st)
        else if negb (truthy (htmlContent existing)) && truthy (htmlContent newArticle)
        then (newArticle, saveToCache key newArticle st)
        else if length existing <? length newArticle
        then (newArticle, saveToCache key newArticle st)
        else (existing, st)
    | Some CJunk => (newArticle, saveToCache key newArticle st)
    | None => (newArticle, saveToCache key newArticle st)
    end.

(** The merge precedence as the specification words it: (1) the incoming
    record wins when the existing one lacks [htmlContent] and the incoming
    one has it; (2) else it wins when it is longer; (3) else the existing
    record wins. *)
Definition spec_incoming_wins (existing incoming : CachedArticle) : bool :=
  (negb (truthy (htmlContent existing)) && truthy (htmlContent incoming))
  || (length existing <? length incoming).

End Cache.


(* ------------------------------------------------------------------ *)
(** ** [sanitizeText] ([src/lib/sanitize-ads.ts]) *)

Module Sanitize.
Import JsStr.

(** Two-byte UTF-8 letters of the keywords: u-acute, e-acute, a-grave. *)
Definition u_acute := of_bytes [195; 186].
Definition e_acute := of_bytes [195; 169].
Definition a_grave := of_bytes [195; 160].

Definition AD_KEYWORDS : list string :=
  [ "publicidade"; "patrocinado"; "an" ++ u_acute ++ "ncio"; "propaganda";
    "advertisement"; "sponsored"; "sponsored content"; "ads"; "ad"; "advertising";
    "publicidad"; "patrocinado"; "anuncio";
    "werbung"; "anzeige"; "gesponsert";
    "publicit" ++ e_acute; "sponsoris" ++ e_acute; "annonce";
    "pubblicit" ++ a_grave; "sponsorizzato";
    "advertentie"; "gesponsord";
    "skip advertisement"; "skip ad" ].

(** Case-insensitive comparison of the non-unicode [i] flag, on the
    characters the keywords use: an ASCII lower-case letter also matches its
    upper-case form, and so does a Latin-1 lower-case letter (bytes C3 A0 to
    C3 BE, U+00F7 apart), whose upper-case form is C3 80 to C3 9E.
    [kw_prefix after_c3 kw s]: [s] starts with [kw] up to case. *)
Fixpoint kw_prefix (after_c3 : bool) (kw s : string) : bool :=
  match kw, s with
  | EmptyString, _ => true
  | String k kr, String c sr =>
      let bk := byte k in
      let bc := byte c in
      let folds := if after_c3 then in_range 160 190 bk && negb (bk =? 183)
                   else in_range 97 122 bk in
      ((bc =? bk) || (folds && (bc =? bk - 32))) && kw_prefix (bk =? 195) kr sr
  | String _ _, EmptyString => false
  end.

(** Byte offsets reached by [\s*] at the head of [s], shortest first. *)
Fixpoint ws_offsets (fuel : nat) (s : string) : list nat :=
  match fuel with
  | O => [O]
  | S f => match ws_at s with
           | O => [O]
           | k => O :: map (Nat.add k) (ws_offsets f (drop k s))
           end
  end.

(** Line terminators: LF, CR, U+2028, U+2029. *)
Definition line_terminators : list string :=
  [of_bytes [10]; of_bytes [13]; of_bytes [226; 128; 168]; of_bytes [226; 128; 169]].

(** [^] of a multiline regex, given the text before the position reversed. *)
Definition at_line_start (rprev : string) : bool :=
  String.eqb rprev "" || existsb (fun t => starts_with rprev (rev_str t)) line_terminators.

(** [$] of a multiline regex, given the text after the position. *)
Definition at_line_end (s : string) : bool :=
  String.eqb s "" || existsb (fun t => starts_with s t) line_terminators.

Fixpoint first {A B} (f : A -> option B) (l : list A) : option B :=
  match l with [] => None | x :: r => match f x with Some b => Some b | None => first f r end end.

(** The byte length of the match of [buildTextLinePattern()], i.e.
    [^\s*(KW1|KW2|...)\s*$] with flags [gim], at a position: [rprev] is the
    text before it (reversed) and [s] the text from it. Backtracking order:
    the greedy [\s*] longest first, then the keywords in list order, then the
    trailing [\s*] longest first. *)
Definition line_match (rprev s : string) : option nat :=
  if negb (at_line_start rprev) then None
  else
    first (fun i =>
      let s1 := drop i s in
      first (fun kw =>
        if kw_prefix false kw s1 then
          let s2 := drop (String.length kw) s1 in
          first (fun j => if at_line_end (drop j s2)
                          then Some (i + String.length kw + j)%nat else None)
                (rev (ws_offsets (String.length s2) s2))
        else None) AD_KEYWORDS)
    (rev (ws_offsets (String.length s) s)).

(** [s.replace(re, '')] for a global regex whose match at a position is
    given by [m]: matches are searched left to right in the original text
    and removed. *)
Fixpoint replace_fuel (fuel : nat) (m : string -> string -> option nat)
    (rprev s : string) : string :=
  match fuel with
  | O => s
  | S f =>
      match s with
      | EmptyString => EmptyString
      | String c r =>
          match m rprev s with
          | Some (S _ as k) => replace_fuel f m (rev_str (take k s) ++ rprev) (drop k s)
          | _ => String c (replace_fuel f m (String c rprev) r)
          end
      end
  end.

(** Length of the run of LF at the head of [s]. *)
Fixpoint nl_run (s : string) : nat :=
  match s with String "010" r => S (nl_run r) | _ => O end.

(** [s.replace(/\n{3,}/g, '\n\n')]. *)
Fixpoint collapse_fuel (fuel : nat) (s : string) : string :=
  match fuel with
  | O => s
  | S f =>
      match s with
      | EmptyString => EmptyString
      | String c r =>
          let n := nl_run s in
          if (3 <=? n)%nat then of_bytes [10; 10] ++ collapse_fuel f (drop n s)
          else String c (collapse_fuel f r)
      end
  end.

Definition sanitizeText (text : string) : string :=
  if String.eqb text "" then text
  else
    let result := replace_fuel (String.length text) line_match "" text in
    let result := collapse_fuel (String.length result) result in
    trim result.

End Sanitize.

(* ------------------------------------------------------------------ *)
(** ** [sanitizeHtml] ([src/lib/sanitize-ads.ts]) *)

Module Html.
Import JsStr Sanitize.

(** Case folding of the non-unicode [i] flag (Canonicalize: upper-casing),
    on the characters the patterns use: an ASCII letter and a Latin-1 letter
    (C3 A0 to C3 BE, U+00F7 apart, against C3 80 to C3 9E) match their other
    case. Both sides are folded, as a backreference compares subject text
    with subject text. [after_c3]: the previous byte was C3. *)
Definition canon (after_c3 : bool) (b : Z) : Z :=
  if after_c3 then (if in_range 160 190 b && negb (b =? 183) then b - 32 else b)
  else if in_range 97 122 b then b - 32 else b.

(** [s] starts with [w] up to case. *)
Fixpoint ci_prefix (after_c3 : bool) (w s : string) : bool :=
  match w, s with
  | EmptyString, _ => true
  | String k kr, String c sr =>
      (canon after_c3 (byte k) =? canon after_c3 (byte c)) && ci_prefix (byte k =? 195) kr sr
  | String _ _, EmptyString => false
  end.

(** The regular expressions of [sanitizeHtml]. *)
Inductive rx : Type :=
| RLit (w : string)          (** a literal, matched up to case *)
| RAlt (a b : rx)            (** [a|b] *)
| RSeq (a b : rx)            (** [ab] *)
| RGroup (n : nat) (a : rx)  (** capturing group number [n] *)
| RNotGtStar                 (** [[^>]*] *)
| RWsStar                    (** [\s*] *)
| RBackref (n : nat).        (** [\n] *)

Fixpoint assoc (n : nat) (caps : list (nat * string)) : option string :=
  match caps with
  | [] => None
  | (m, w) :: r => if Nat.eqb n m then Some w else assoc n r
  end.

(** Bytes before the first ">" of [s]. *)
Definition gt_free_len (s : string) : nat :=
  String.length (fst (break (fun c => Ascii.eqb c ">") s)).

(** Backtracking matcher in continuation-passing style: [rmatch r caps s k]
    matches [r] at the head of [s] with the captures [caps] and passes the
    captures and the rest of the subject to [k], trying the alternatives in
    the order of the regex: the left branch of [|] first, the longest run of
    a greedy star first. [[^>]*] is tried at every byte offset up to the
    first ">": in the patterns below it is always followed by ">", so an
    offset inside a multi-byte character never leads to a match and the
    first match is the one over UTF-16 code units. A backreference to a
    group that has not matched matches the empty string. *)
Fixpoint rmatch (r : rx) (caps : list (nat * string)) (s : string)
    (k : list (nat * string) -> string -> option nat) {struct r} : option nat :=
  match r with
  | RLit w => if ci_prefix false w s then k caps (drop (String.length w) s) else None
  | RAlt a b =>
      match rmatch a caps s k with
      | Some n => Some n
      | None => rmatch b caps s k
      end
  | RSeq a b => rmatch a caps s (fun caps' s' => rmatch b caps' s' k)
  | RGroup n a =>
      rmatch a caps s (fun caps' s' =>
        k ((n, take (String.length s - String.length s') s) :: caps') s')
  | RNotGtStar => first (fun i => k caps (drop i s)) (rev (seq 0 (S (gt_free_len s))))
  | RWsStar => first (fun i => k caps (drop i s)) (rev (ws_offsets (String.length s) s))
  | RBackref n =>
      match assoc n caps with
      | Some w => if ci_prefix false w s then k caps (drop (String.length w) s) else None
      | None => k caps s
      end
  end.

(** Byte length of the match of [r] at the head of [s]. *)
Definition match_at (r : rx) (s : string) : option nat :=
  rmatch r [] s (fun _ s' => Some (String.length s - String.length s')%nat).

(** [s.replace(r, '')] for a regex with the [g] flag. *)
Definition replace_all (r : rx) (s : string) : string :=
  replace_fuel (String.length s) (fun _ t => match_at r t) "" s.

(** [a|b|...]: the source text [xs.join('|')] of a list of literals; the
    empty list gives the empty regex. *)
Fixpoint alt_list (l : list string) : rx :=
  match l with
  | [] => RLit ""
  | [w] => RLit w
  | w :: r => RAlt (RLit w) (alt_list r)
  end.

Fixpoint seq_of (l : list rx) : rx :=
  match l with
  | [] => RLit ""
  | [x] => x
  | x :: r => RSeq x (seq_of r)
  end.

Definition dq := of_bytes [34].
Definition o_acute := of_bytes [195; 179].

Definition AD_HTML_PATTERNS : list string :=
  [ "<p><a href=" ++ dq ++ "#after-top" ++ dq ++ ">SKIP ADVERTISEMENT</a></p>";
    "<p><span>Continua ap" ++ o_acute ++ "s publicidade</span></p>" ].

(** [escapeRegex]: [str.replace(/[.*+?^${}()|[\]\\]/g, '\\$&')]. *)
Definition regex_special (c : ascii) : bool :=
  existsb (Ascii.eqb c) [".";"*";"+";"?";"^";"$";"{";"}";"(";")";"|";"[";"]";"\"]%char.
Fixpoint escapeRegex (s : string) : string :=
  match s with
  | EmptyString => EmptyString
  | String c r => if regex_special c then String "\" (String c (escapeRegex r))
                  else String c (escapeRegex r)
  end.

(** The keywords and the literal patterns contain no special character, so
    [escapeRegex] leaves them as they are (lemma [escapeRegex_sources] below)
    and each one, as a regex, is the literal [RLit w]. *)
Definition keywords : rx := alt_list AD_KEYWORDS.

(** [buildHtmlPattern()]:
    [<(p|div|span|aside|section|figure|figcaption|li|small|strong|em|b|i)[^>]*>\s*(KW)\s*<\/\1>] *)
Definition buildHtmlPattern : rx :=
  seq_of [RLit "<";
          RGroup 1 (alt_list ["p"; "div"; "span"; "aside"; "section"; "figure"; "figcaption";
                              "li"; "small"; "strong"; "em"; "b"; "i"]);
          RNotGtStar; RLit ">"; RWsStar; RGroup 2 keywords; RWsStar;
          RLit "</"; RBackref 1; RLit ">"].

(** [buildNestedHtmlPattern()]:
    [<(div|aside|section|figure)[^>]*>\s*<(p|span|small|strong|em|b|i)[^>]*>\s*(KW)\s*<\/\2>\s*<\/\1>] *)
Definition buildNestedHtmlPattern : rx :=
  seq_of [RLit "<"; RGroup 1 (alt_list ["div"; "aside"; "section"; "figure"]);
          RNotGtStar; RLit ">"; RWsStar;
          RLit "<"; RGroup 2 (alt_list ["p"; "span"; "small"; "strong"; "em"; "b"; "i"]);
          RNotGtStar; RLit ">"; RWsStar; RGroup 3 keywords; RWsStar;
          RLit "</"; RBackref 2; RLit ">"; RWsStar; RLit "</"; RBackref 1; RLit ">"].

(** [/<(div|aside|section|figure)[^>]*>\s*<\/\1>/gi] *)
Definition emptyWrapperPattern : rx :=
  seq_of [RLit "<"; RGroup 1 (alt_list ["div"; "aside"; "section"; "figure"]);
          RNotGtStar; RLit ">"; RWsStar; RLit "</"; RBackref 1; RLit ">"].

Definition sanitizeHtml (html : string) : string :=
  if String.eqb html "" then html
  else
    let result := fold_left (fun acc p => replace_all (RLit p) acc) AD_HTML_PATTERNS html in
    let result := replace_all buildNestedHtmlPattern result in
    let result := replace_all buildHtmlPattern result in
    replace_all emptyWrapperPattern result.

End Html.

(* ------------------------------------------------------------------ *)
(** ** [extractFirstUrl] and [NormalizedUrlSchema] ([src/lib/validation/url.ts]) *)

Module UrlText.
Import JsStr UrlTs Html.

Definition dq_char : ascii := chr 34.

(** [(?:https?:\/\/|www\.)] with the [i] flag at the head of [s]: the
    length of its match. The three alternatives exclude one another. *)
Definition url_head (s : string) : option nat :=
  if ci_prefix false "https://" s then Some 8%nat
  else if ci_prefix false "http://" s then Some 7%nat
  else if ci_prefix false "www." s then Some 4%nat
  else None.

(** [[^\s\x22<>]] at the head [String c _] of [s]. *)
Definition url_class (c : ascii) (s : string) : bool :=
  Nat.eqb (ws_at s) 0 && negb (existsb (Ascii.eqb c) [dq_char; "<"; ">"]%char).

(** The lookahead [(?=(?:https?:\/\/|www\.)|[\s\x22<>)]|$)]. *)
Definition lookahead_ok (s : string) : bool :=
  match url_head s with
  | Some _ => true
  | None =>
      (0 <? ws_at s)%nat
      || match s with
         | EmptyString => true
         | String c _ => existsb (Ascii.eqb c) [dq_char; "<"; ">"; ")"]%char
         end
  end.

(** The lazy [[^\s\x22<>]+?] followed by the lookahead: the shortest
    non-empty run of class characters after which the lookahead holds. It
    steps byte by byte: a continuation byte is in the class and neither
    starts a whitespace character, a protocol nor a delimiter, so the
    lookahead fails inside a multi-byte character and the match is the one
    over UTF-16 code units. *)
Fixpoint body_lazy (fuel : nat) (s : string) : option nat :=
  match fuel, s with
  | S f, String c r =>
      if url_class c s then
        if lookahead_ok r then Some 1%nat else option_map S (body_lazy f r)
      else None
  | _, _ => None
  end.

(** Length of the match of [urlRegex] at the head of [s]. *)
Definition match_url (s : string) : option nat :=
  match url_head s with
  | Some h => option_map (Nat.add h) (body_lazy (String.length s) (drop h s))
  | None => None
  end.

(** [text.match(urlRegex)] (no [g] flag): [match[0]] of the leftmost match.
    A match starts with an ASCII letter, so only character boundaries are
    candidate positions. *)
Fixpoint find_url (s : string) : option string :=
  match s with
  | EmptyString => None
  | String _ r =>
      match match_url s with
      | Some n => Some (take n s)
      | None => find_url r
      end
  end.

Definition is_trailing_punct (c : ascii) : bool :=
  existsb (Ascii.eqb c) ["."; ","; ";"; "!"; "?"; ")"]%char.

Fixpoint drop_while (p : ascii -> bool) (s : string) : string :=
  match s with
  | EmptyString => EmptyString
  | String c r => if p c then drop_while p r else s
  end.

(** [candidate.replace(/[.,;!?)]+$/, '')]: the leftmost match is the
    longest run of those characters that ends the string. *)
Definition strip_trailing_punct (s : string) : string :=
  rev_str (drop_while is_trailing_punct (rev_str s)).

Definition extractFirstUrl (text : string) : option string :=
  if String.eqb text "" then None
  else
    match find_url text with
    | None => None
    | Some candidate => Some (strip_trailing_punct candidate)
    end.

Definition MAX_URL_LENGTH : Z := 1000.
Definition MAX_ERR := "URL must be 1000 characters or less".

(** [/(?:https?:\/\/|www\.)/.test(s)] (no [i] flag). *)
Fixpoint protocol_test (s : string) : bool :=
  match s with
  | EmptyString => false
  | String _ r =>
      starts_with s "https://" || starts_with s "http://" || starts_with s "www."
      || protocol_test r
  end.

(** [NormalizedUrlSchema.safeParse(input)]: [Ok] with the transformed
    value, or [Throw] with the message of its issue. A value over the
    [.max] bound fails with that issue and the transform does not run.
    [value.slice(1)] drops the first UTF-16 code unit; dropping one byte
    instead leaves the same protocol matches, since a protocol starts with
    an ASCII letter. *)
Definition NormalizedUrlSchema (input : string) : Outcome string :=
  let value := trim input in
  if MAX_URL_LENGTH <? js_length value then Throw MAX_ERR
  else
    let fallback := normalizeUrl value in
    let from_text :=
      match extractFirstUrl value with
      | Some extracted =>
          if truthy (Some extracted) then
            match normalizeUrl extracted with Ok c => Ok c | Throw _ => fallback end
          else fallback
      | None => fallback
      end in
    let hasGluedProtocol := protocol_test (drop 1 value) in
    if negb hasGluedProtocol then
      if isValidUrl value then
        match normalizeUrl value with Ok c => Ok c | Throw _ => from_text end
      else from_text
    else from_text.

End UrlText.

(* ------------------------------------------------------------------ *)
(** ** Article construction (route.ts: [parseHtmlToArticle],
    [fetchArticleWithWayback], [fetchArticleWithDiffbotWrapper]) *)

Module Articles.
Import JsStr.

(** What [new Readability(document).parse()] returns when it returns an
    object; every field may be missing. *)
Record Parsed := mkParsed {
  p_title : option string;
  p_content : option string;
  p_textContent : option string;
  p_byline : option string;
  p_siteName : option string;
  p_lang : option string
}.

(** The raw Diffbot result handed to [DiffbotArticleSchema.safeParse]. *)
Record DiffbotRaw := mkDiffbot {
  d_title : option string;
  d_html : option string;
  d_text : option string;
  d_siteName : option string;
  d_byline : option string;
  d_publishedTime : option string;
  d_image : option string;
  d_htmlContent : option string;
  d_lang : option string
}.

(** The outcome of a source: [{ article, cacheURL }] or [{ error }]. *)
Inductive SourceResult :=
| SArticle (a : CachedArticle) (cacheURL : string)
| SError (message : string).

(** [a || b] on optional strings. *)
Definition or_else (a b : option string) : option string :=
  if truthy a then a else b.

(** [z.string().min(1)] on an optional field. *)
Definition nonempty (o : option string) : option string :=
  match o with Some s => if String.eqb s "" then None else Some s | None => None end.

Section Construct.

(** Libraries the embedded files import but [src/] does not contain: the
    DOM of [new JSDOM(html, { url })] with [Readability]'s result (either may
    throw), [extractDateFromDom], [extractImageFromDom], [getTextDirection]
    and [sanitizeHtml]'s HTML rewriting, which no property here inspects. *)
Variable Document : Type.
Variable readability : string -> string -> Outcome (Document * option Parsed).
Variable getAttribute : Document -> string -> option string.
Variable document_title : Document -> option string.
Variable extractDateFromDom : Document -> option string.
Variable extractImageFromDom : Document -> option string.
Variable getTextDirection : option string -> string -> Dir.
Variable sanitizeHtml : string -> string.

(** The object literal [articleCandidate] built from a Readability parse
    whose [content] and [textContent] are truthy. *)
Definition candidate_of (html url_for_site fallback_site : string) (dom : Document)
    (parsed : Parsed) (content text : string) : CachedArticle :=
  let htmlLang := or_else (getAttribute dom "lang")
                    (or_else (getAttribute dom "xml:lang")
                       (or_else (p_lang parsed) None)) in
  let textDir := getTextDirection htmlLang text in
  mkArticle
    (match or_else (p_title parsed) (or_else (document_title dom) (Some "Untitled")) with
     | Some t => t | None => "Untitled" end)
    (sanitizeHtml content)
    (Sanitize.sanitizeText text)
    (js_length text)
    (match WUrl.parse_url url_for_site with
     | Ok u => WUrl.hostname u
     | Throw _ => match or_else (p_siteName parsed) (Some fallback_site) with
                  | Some s => s | None => fallback_site end
     end)
    (p_byline parsed)
    (or_else (extractDateFromDom dom) None)
    (or_else (extractImageFromDom dom) None)
    (Some html)
    htmlLang
    (Some textDir).

Definition parseHtmlToArticle (html url : string) : option CachedArticle :=
  if String.eqb html "" || (js_length html <? 100) then None
  else
    match readability html url with
    | Throw _ => None
    | Ok (dom, parsed) =>
        match parsed with
        | None => None
        | Some p =>
            match nonempty (p_content p), nonempty (p_textContent p) with
            | Some content, Some text =>
                let a := candidate_of html url "unknown" dom p content text in
                if schema_ok a then Some a else None
            | _, _ => None
            end
        end
    end.

(** The archive.org response: a status and a body, a timeout abort, or
    another rejection of [fetch]/[response.text()]. *)
Inductive WaybackResponse :=
| WResponse (status : Z) (body : string)
| WAbort
| WFail.

Definition fetchArticleWithWayback (waybackUrl originalUrl : string)
    (resp : WaybackResponse) : SourceResult :=
  match WUrl.parse_url originalUrl with
  | Throw _ => SError "Failed to fetch article from archive.org"
  | Ok _ =>
  match resp with
  | WAbort => SError "Connection timed out when fetching from archive.org"
  | WFail => SError "Failed to fetch article from archive.org"
  | WResponse status html =>
      if status =? 429 then SError "Archive.org rate limit exceeded."
      else if negb ((200 <=? status) && (status <=? 299)) then
        SError ("HTTP " ++ dec status ++ " error when fetching from archive.org")
      else if String.eqb html "" then
        SError "Received empty HTML content from archive.org"
      else
        match readability html originalUrl with
        | Throw _ => SError "Failed to fetch article from archive.org"
        | Ok (dom, parsed) =>
            match parsed with
            | Some p =>
                match nonempty (p_content p), nonempty (p_textContent p) with
                | Some content, Some text =>
                    let a := candidate_of html originalUrl "archive.org" dom p content text in
                    if schema_ok a then SArticle a waybackUrl
                    else SError "Invalid Wayback article"
                | _, _ => SError "Failed to extract article content from archived page with Readability"
                end
            | None => SError "Failed to extract article content from archived page with Readability"
            end
        end
  end
  end.

(** [fetchArticleWithDiffbot] is given as its [Result]: [inl] the article
    object, [inr] the error's message. *)
Definition fetchArticleWithDiffbotWrapper (urlWithSource : string)
    (diffbotResult : DiffbotRaw + string) : SourceResult :=
  match WUrl.parse_url urlWithSource with
  | Throw _ => SError "Failed to parse article"
  | Ok _ =>
  match diffbotResult with
  | inr e => SError e
  | inl d =>
      match nonempty (d_title d), nonempty (d_html d), nonempty (d_text d),
            nonempty (d_siteName d) with
      | Some title, Some html, Some text, Some siteName =>
          let textDir := getTextDirection (d_lang d) text in
          SArticle
            (mkArticle title (sanitizeHtml html) (Sanitize.sanitizeText text)
               (js_length text) siteName (d_byline d) (d_publishedTime d)
               (d_image d) (d_htmlContent d) (d_lang d) (Some textDir))
            urlWithSource
      | _, _, _, _ => SError "Invalid Diffbot response"
      end
  end
  end.

End Construct.

End Articles.

(* ------------------------------------------------------------------ *)
(** ** Direct fetch (route.ts: [calculateQuality], [extractSetCookies],
    [tryFetchWithStrategy], [tryFetchAndParse], [fetchArticleWithFast]) *)

Module Fetch.
Import JsStr Articles.

Inductive FetchStrategy := Browser | Googlebot.

Record FetchResult := mkResult {
  success : bool;
  strategy : FetchStrategy;
  html : option string;
  article : option CachedArticle;
  quality : Z;
  error : option string
}.

Definition calculateQuality (a : CachedArticle) : Z :=
  let score := js_length (textContent a) in
  let score := if truthy (byline a) then score + 100 else score in
  let score := if truthy (publishedTime a) then score + 100 else score in
  if truthy (image a) then score + 50 else score.

(** A JS object or [Map] with string keys: entries in insertion order;
    setting a present key replaces its value in place. *)
Definition Obj := list (string * string).

Fixpoint obj_set (o : Obj) (k v : string) : Obj :=
  match o with
  | [] => [(k, v)]
  | (k', v') :: r => if String.eqb k k' then (k, v) :: r else (k', v') :: obj_set r k v
  end.

Fixpoint obj_get (o : Obj) (k : string) : option string :=
  match o with
  | [] => None
  | (k', v) :: r => if String.eqb k k' then Some v else obj_get r k
  end.

(** The lookahead [(?=\s*[a-zA-Z_][a-zA-Z0-9_-]*=)] on the text after a
    comma. *)
Definition cookie_lookahead (r : string) : bool :=
  match trim_start_fuel (String.length r) r with
  | String c rest =>
      (is_alpha c || Ascii.eqb c "_")
      && match break (fun x => negb (is_alnum x || Ascii.eqb x "_" || Ascii.eqb x "-")) rest with
         | (_, String "=" _) => true
         | _ => false
         end
  | EmptyString => false
  end.

(** [setCookie.split(/,(?=\s*[a-zA-Z_][a-zA-Z0-9_-]*=)/)]. *)
Fixpoint split_cookies (s : string) : list string :=
  match s with
  | EmptyString => [""]
  | String c r =>
      let l := split_cookies r in
      if Ascii.eqb c "," && cookie_lookahead r then "" :: l
      else match l with x :: t => String c x :: t | [] => [String c ""] end
  end.

(** [cookie.match(/^\s*([^=]+)=([^;]* )/)] (without the space): the groups
    up to the leading white space, which the caller's [trim] removes anyway.
    It matches when some "=" follows a non-empty prefix. *)
Definition match_cookie (cookie : string) : option (string * string) :=
  match cut "=" cookie with
  | (pre, Some post) => if String.eqb pre "" then None else Some (pre, fst (cut ";" post))
  | (_, None) => None
  end.

Definition allowed_cookie (name : string) : bool :=
  String.eqb name "datadome" || String.eqb name "cf_clearance" || String.eqb name "__cf_bm".

Definition extractSetCookies (headers : Obj) : Obj :=
  match obj_get headers "set-cookie" with
  | Some setCookie =>
      if String.eqb setCookie "" then []
      else
        fold_left (fun cookies cookie =>
            match match_cookie cookie with
            | Some (n, v) =>
                let name := trim n in
                let value := trim v in
                if allowed_cookie name then obj_set cookies name value else cookies
            | None => cookies
            end)
          (split_cookies setCookie) []
  | None => []
  end.

(** Every name in the jar is one of the allow-listed cookie names. *)
Definition jar_allowed (jar : Obj) : bool :=
  forallb (fun '(n, _) => allowed_cookie n) jar.

Definition buildCookieHeader (jar : Obj) : option string :=
  match jar with
  | [] => None
  | _ => Some (join "; " (map (fun '(n, v) => n ++ "=" ++ v) jar))
  end.

(** How a request goes, timed from the call to [fetch]: the response head
    arrives after [ms] with a status and the pairs
    [response.headers.forEach] visits; or no head ever arrives; or [fetch]
    rejects with an error of the given name. The body: [response.text()]
    resolves [ms] after the head, never settles, or rejects. *)
Inductive Body :=
| BodyDone (text : string) (ms : Z)
| BodyStall
| BodyFail (name : string).

Inductive NetEvent :=
| Respond (ms : Z) (status : Z) (headers : list (string * string)) (body : Body)
| NoResponse
| Reject (name : string).

(** [{ html, strategy }] or [{ status, blocked, headers? }]. *)
Inductive AttemptResult :=
| AHtml (html : string) (strategy : FetchStrategy)
| AStatus (status : Z) (blocked : bool) (headers : option Obj).

Definition timeoutMs : Z := 15000.
Definition bodyTimeoutMs : Z := 10000.

(** [response.headers.forEach((val, key) => { responseHeaders[key] = val; })]. *)
Definition collect_headers (hs : list (string * string)) : Obj :=
  fold_left (fun o '(k, v) => obj_set o k v) hs [].

Definition response_ok (status : Z) : bool := (200 <=? status) && (status <=? 299).

(** The outer [catch]: an abort of the 15 s controller is a timeout; any
    other error is rethrown. *)
Definition on_fetch_error (name : string) : Outcome AttemptResult :=
  if String.eqb name "AbortError" then Ok (AStatus 408 false None) else Throw name.

Definition tryFetchWithStrategy (strategy : FetchStrategy) (ev : NetEvent)
    : Outcome AttemptResult :=
  match ev with
  | NoResponse => on_fetch_error "AbortError"
  | Reject name => on_fetch_error name
  | Respond ms status hs body =>
      if timeoutMs <=? ms then on_fetch_error "AbortError"
      else
        let responseHeaders := collect_headers hs in
        if (status =? 401) || (status =? 403) || (status =? 429) then
          Ok (AStatus status true (Some responseHeaders))
        else if negb (response_ok status) then
          Ok (AStatus status false (Some responseHeaders))
        else
          (* the race between [response.text()] and the 10 s body timer *)
          match body with
          | BodyDone text t =>
              if t <? bodyTimeoutMs then Ok (AHtml text strategy)
              else Ok (AStatus 408 true (Some responseHeaders))
          | BodyStall => Ok (AStatus 408 true (Some responseHeaders))
          | BodyFail name => on_fetch_error name
          end
  end.

(** [successfulResults.sort((a, b) => b.quality - a.quality)]:
    [Array.prototype.sort] is stable, so its result is the stable
    descending order, computed here by insertion. *)
Fixpoint insert_desc (x : FetchResult) (l : list FetchResult) : list FetchResult :=
  match l with
  | [] => [x]
  | y :: r => if quality y <? quality x then x :: l else y :: insert_desc x r
  end.

Definition sort_desc (l : list FetchResult) : list FetchResult :=
  fold_left (fun acc x => insert_desc x acc) l [].

(** [results.filter(r => r.success && r.article)]. *)
Definition successful (r : FetchResult) : bool :=
  success r && match article r with Some _ => true | None => false end.

(** The Result Arbitrator: the head of the sorted successful results. *)
Definition pick_best (results : list FetchResult) : option FetchResult :=
  hd_error (sort_desc (filter successful results)).

(** One step of the arbitration: the best so far against the next
    candidate, the earlier one kept on a tie. *)
Definition best_step (b : option FetchResult) (x : FetchResult) : option FetchResult :=
  match b with
  | None => Some x
  | Some y => if quality y <? quality x then Some x else Some y
  end.

(** [results[results.length - 1]?.error || 'Unknown error']. *)
Definition last_error (results : list FetchResult) : string :=
  match last (map (fun r => or_else (error r) None) results) None with
  | Some e => if String.eqb e "" then "Unknown error" else e
  | None => "Unknown error"
  end.

(** [{ article: r.article!, cacheURL: url }]; [tryFetchAndParse] sets
    [article] whenever it sets [success]. *)
Definition with_article (a : option CachedArticle) (url : string) : SourceResult :=
  match a with
  | Some a => SArticle a url
  | None => SError "undefined article"
  end.

(** The end of the [try] block: the best successful result, or the error
    naming the last result's error. *)
Definition arbitrate (url : string) (results : list FetchResult) : SourceResult :=
  match pick_best results with
  | None => SError ("All fetch strategies failed: " ++ last_error results)
  | Some bestResult => with_article (article bestResult) url
  end.

Section Sequence.

Variable Document : Type.
Variable readability : string -> string -> Outcome (Document * option Parsed).
Variable getAttribute : Document -> string -> option string.
Variable document_title : Document -> option string.
Variable extractDateFromDom : Document -> option string.
Variable extractImageFromDom : Document -> option string.
Variable getTextDirection : option string -> string -> Dir.
Variable sanitizeHtml : string -> string.

(** The network: how the [n]-th request of the sequence, sent with a
    strategy and a [Cookie] header, goes. *)
Variable net : nat -> FetchStrategy -> option string -> NetEvent.

Definition parseHtml (html url : string) : option CachedArticle :=
  parseHtmlToArticle Document readability getAttribute document_title
    extractDateFromDom extractImageFromDom getTextDirection sanitizeHtml html url.

(** [tryFetchAndParse]: the cookie jar it mutates is threaded explicitly. *)
Definition tryFetchAndParse (url : string) (strategy : FetchStrategy) (cookieJar : Obj)
    (ev : NetEvent) : Outcome (FetchResult * Obj) :=
  result <- tryFetchWithStrategy strategy ev ;;
  let cookieJar :=
    match result with
    | AStatus _ _ (Some headers) =>
        let newCookies := extractSetCookies headers in
        if (0 <? List.length newCookies)%nat
        then fold_left (fun j '(k, v) => obj_set j k v) newCookies cookieJar
        else cookieJar
    | _ => cookieJar
    end in
  match result with
  | AStatus status _ _ =>
      Ok (mkResult false strategy None None 0 (Some ("HTTP " ++ dec status)), cookieJar)
  | AHtml html _ =>
      match parseHtml html url with
      | None => Ok (mkResult false strategy (Some html) None 0
                      (Some "Readability extraction failed"), cookieJar)
      | Some a => Ok (mkResult true strategy (Some html) (Some a) (calculateQuality a) None,
                      cookieJar)
      end
  end.

(** The state of one [fetchArticleWithFast] call: the cookie jar, the
    [results] array and the requests sent (strategy and [Cookie] header). *)
Record Seq := mkSeq {
  cookieJar : Obj;
  results : list FetchResult;
  requests : list (FetchStrategy * option string)
}.

(** Its statements as a state monad with exceptions; an exception keeps the
    effects done before it. *)
Definition M (A : Type) := Seq -> Seq * Outcome A.
Definition ret {A} (a : A) : M A := fun s => (s, Ok a).
Definition bindM {A B} (m : M A) (k : A -> M B) : M B :=
  fun s => let '(s', o) := m s in
           match o with Ok a => k a s' | Throw e => (s', Throw e) end.
Definition catchM {A} (m : M A) (h : string -> M A) : M A :=
  fun s => let '(s', o) := m s in
           match o with Ok a => (s', Ok a) | Throw e => h e s' end.
Definition gets {A} (f : Seq -> A) : M A := fun s => (s, Ok (f s)).

Local Notation "x <-- m ;; k" := (bindM m (fun x => k))
  (at level 61, m at next level, right associativity).

(** Attempt [n]: [tryFetchAndParse] then [results.push]. The randomized
    delays before attempts 2 and 3 do not change the order of events. *)
Definition attempt (n : nat) (url : string) (strategy : FetchStrategy) : M FetchResult :=
  fun s =>
    let cookie := buildCookieHeader (cookieJar s) in
    let sent := (requests s ++ [(strategy, cookie)])%list in
    match tryFetchAndParse url strategy (cookieJar s) (net n strategy cookie) with
    | Ok (r, jar) => (mkSeq jar (results s ++ [r])%list sent, Ok r)
    | Throw e => (mkSeq (cookieJar s) (results s) sent, Throw e)
    end.

Definition fast_body (url : string) : M SourceResult :=
  browserResult <-- attempt 1 url Browser ;;
  if success browserResult && (3000 <? quality browserResult) then
    ret (with_article (article browserResult) url)
  else
  _ <-- (if negb (success browserResult) || (quality browserResult <? 3000)
         then _ <-- attempt 2 url Googlebot ;; ret tt
         else ret tt) ;;
  jar <-- gets cookieJar ;;
  _ <-- (if (0 <? List.length jar)%nat
         then _ <-- attempt 3 url Browser ;; ret tt
         else ret tt) ;;
  results <-- gets results ;;
  ret (arbitrate url results).

(** [new URL(url).hostname] runs before the [try]; everything else is
    inside it, and its [catch] turns an exception into an error result. *)
Definition fetchArticleWithFast (url : string) : Outcome (SourceResult * Seq) :=
  _ <- WUrl.parse_url url ;;
  let '(s, o) := catchM (fast_body url)
                   (fun _ => ret (SError "Failed to fetch article directly"))
                   (mkSeq [] [] []) in
  match o with Ok r => Ok (r, s) | Throw e => Throw e end.

End Sequence.
End Fetch.

(* ------------------------------------------------------------------ *)
(** ** Request headers, source routing and the route handler (route.ts:
    [buildFetchHeaders], [getUrlWithSource], [fetchArticle], [GET]) *)

Module Route.
Import JsStr UrlTs Cache Articles Fetch.

Definition BROWSER_USER_AGENTS : list string :=
  [ "Mozilla/5.0 (Windows NT 10.0; Win64; x64) AppleWebKit/537.36 (KHTML, like Gecko) Chrome/131.0.0.0 Safari/537.36";
    "Mozilla/5.0 (Macintosh; Intel Mac OS X 10_15_7) AppleWebKit/537.36 (KHTML, like Gecko) Chrome/131.0.0.0 Safari/537.36";
    "Mozilla/5.0 (X11; Linux x86_64) AppleWebKit/537.36 (KHTML, like Gecko) Chrome/131.0.0.0 Safari/537.36" ].

Definition GOOGLEBOT_USER_AGENTS : list string :=
  [ "Mozilla/5.0 (compatible; Googlebot/2.1; +http://www.google.com/bot.html)";
    "Mozilla/5.0 (Linux; Android 6.0.1; Nexus 5X Build/MMB29P) AppleWebKit/537.36 (KHTML, like Gecko) Chrome/131.0.0.0 Mobile Safari/537.36 (compatible; Googlebot/2.1; +http://www.google.com/bot.html)" ].

(** [buildFetchHeaders(url, strategy, cookieJar)]. [pick] is the index
    [Math.floor(Math.random() * AGENTS.length)], below the list's length. *)
Definition buildFetchHeaders (url : string) (strategy : FetchStrategy)
    (cookieJar : option Obj) (pick : nat) : Obj :=
  let cookieHeader := match cookieJar with Some jar => buildCookieHeader jar | None => None end in
  let with_cookie (headers : Obj) : Obj :=
    match cookieHeader with
    | Some c => if truthy cookieHeader then obj_set headers "Cookie" c else headers
    | None => headers
    end in
  match strategy with
  | Googlebot =>
      with_cookie
        [ ("User-Agent", nth pick GOOGLEBOT_USER_AGENTS "");
          ("Accept", "text/html,application/xhtml+xml,application/xml;q=0.9,*/*;q=0.8");
          ("Accept-Language", "en-US,en;q=0.5");
          ("Accept-Encoding", "gzip, deflate");
          ("Connection", "keep-alive") ]
  | Browser =>
      with_cookie
        [ ("User-Agent", nth pick BROWSER_USER_AGENTS "");
          ("Accept", "text/html,application/xhtml+xml,application/xml;q=0.9,image/avif,image/webp,image/apng,*/*;q=0.8,application/signed-exchange;v=b3;q=0.7");
          ("Accept-Language", "en-US,en;q=0.9");
          ("Accept-Encoding", "gzip, deflate");
          ("Connection", "keep-alive");
          ("DNT", "1");
          ("Sec-Fetch-Dest", "document");
          ("Sec-Fetch-Mode", "navigate");
          ("Sec-Fetch-Site", "none");
          ("Sec-Fetch-User", "?1");
          ("Upgrade-Insecure-Requests", "1");
          ("Cache-Control", "max-age=0") ]
  end.

Definition getUrlWithSource (source url : string) : string :=
  if String.eqb source "wayback" then "https://web.archive.org/web/2/" ++ url else url.

(** The response of [GET]: the JSON body given to [NextResponse.json],
    whose article object lists the fields the code writes ([ra_image]:
    [None] when the key is absent), and whose error object keeps [error]
    and [type] (the [details] and [debugContext] objects are not modelled). *)
Record ResponseArticle := mkResponseArticle {
  ra_title : string;
  ra_byline : option string;
  ra_dir : Dir;
  ra_lang : string;
  ra_content : string;
  ra_textContent : string;
  ra_length : Z;
  ra_siteName : string;
  ra_publishedTime : option string;
  ra_image : option (option string);
  ra_htmlContent : option string
}.

(** [{ source, cacheURL, article, status: "success" }] *)
Record ArticleResponse := mkArticleResponse {
  ar_source : string;
  ar_cacheURL : string;
  ar_article : ResponseArticle
}.

(** [type] of an error body; [AppErrorType] is the [type] of the source's
    [AppError], which [SourceResult] does not record. *)
Inductive ErrorType := VALIDATION_ERROR | UNKNOWN_ERROR | AppErrorType.

Record ErrorResponse := mkErrorResponse {
  er_error : string;
  er_type : ErrorType
}.

Inductive ResponseBody :=
| BArticle (r : ArticleResponse)
| BError (e : ErrorResponse).

(** [NextResponse.json(body, { status })], or an exception escaping [GET]. *)
Inductive Response :=
| Json (status : Z) (body : ResponseBody)
| Unhandled.

Section Handler.

Variable Document : Type.
Variable readability : string -> string -> Outcome (Document * option Parsed).
Variable getAttribute : Document -> string -> option string.
Variable document_title : Document -> option string.
Variable extractDateFromDom : Document -> option string.
Variable extractImageFromDom : Document -> option string.
Variable getTextDirection : option string -> string -> Dir.
Variable sanitizeHtml : string -> string.
Variable net : nat -> FetchStrategy -> option string -> NetEvent.

(** [fetchArticleWithDiffbot(url, source)] and the archive.org response to
    a request for a URL. *)
Variable diffbot : string -> string -> DiffbotRaw + string.
Variable wayback : string -> WaybackResponse.

(** The schemas of [src/types/api], which [src/] does not contain:
    [ArticleRequestSchema.safeParse({ url, source })] ([inl]: the text of
    [fromError(...)]; [inr]: the validated url and source), and the [parse]
    of the response schemas, which return the parsed object or throw. The
    text of [fromError] for an article that fails [CachedArticleSchema]. *)
Variable ArticleRequestSchema_safeParse : option string -> option string -> string + (string * string).
Variable ArticleResponseSchema_parse : ArticleResponse -> Outcome ArticleResponse.
Variable ErrorResponseSchema_parse : ErrorResponse -> Outcome ErrorResponse.
Variable fromError_text : CachedArticle -> string.

Definition fetchArticle (urlWithSource source : string) (originalUrl : option string)
    : Outcome SourceResult :=
  if String.eqb source "fetch-fast" then
    match fetchArticleWithFast Document readability getAttribute document_title
            extractDateFromDom extractImageFromDom getTextDirection sanitizeHtml net
            urlWithSource with
    | Ok (r, _) => Ok r
    | Throw e => Throw e
    end
  else if String.eqb source "fetch-slow" then
    Ok (fetchArticleWithDiffbotWrapper getTextDirection sanitizeHtml urlWithSource
          (diffbot urlWithSource source))
  else if String.eqb source "wayback" then
    let original := match originalUrl with
                    | Some o => if truthy originalUrl then o else urlWithSource
                    | None => urlWithSource
                    end in
    Ok (fetchArticleWithWayback Document readability getAttribute document_title
          extractDateFromDom extractImageFromDom getTextDirection sanitizeHtml
          urlWithSource original (wayback urlWithSource))
  else Ok (SError ("Unsupported source: " ++ source)).

(** The [article] object of a success response; the fresh-fetch responses
    leave out [image]. *)
Definition response_article (with_image : bool) (a : CachedArticle) : ResponseArticle :=
  mkResponseArticle (title a) (Articles.or_else (byline a) None)
    (match dir a with Some d => d | None => getTextDirection (lang a) (textContent a) end)
    (match Articles.or_else (lang a) None with Some l => l | None => "" end)
    (content a) (textContent a) (length a) (siteName a)
    (Articles.or_else (publishedTime a) None)
    (if with_image then Some (Articles.or_else (image a) None) else None)
    (htmlContent a).

(** The outer [catch] of [GET]. *)
Definition unexpected (st : Store) : Response * Store :=
  match ErrorResponseSchema_parse (mkErrorResponse "An unexpected error occurred" UNKNOWN_ERROR) with
  | Ok e => (Json 500 (BError e), st)
  | Throw _ => (Unhandled, st)
  end.

(** An error response built inside the outer [try]. *)
Definition error_json (status : Z) (e : ErrorResponse) (st : Store) : Response * Store :=
  match ErrorResponseSchema_parse e with
  | Ok e' => (Json status (BError e'), st)
  | Throw _ => unexpected st
  end.

(** The cached record a request may be served from: it passes
    [CachedArticleSchema], is longer than 900 and has [htmlContent]. *)
Definition servable (a : CachedArticle) : bool :=
  schema_ok a && (900 <? length a) && truthy (htmlContent a).

Definition GET (url source : option string) (st : Store) : Response * Store :=
  match ArticleRequestSchema_safeParse url source with
  | inl msg => error_json 400 (mkErrorResponse msg VALIDATION_ERROR) st
  | inr (validatedUrl, validatedSource) =>
  if String.eqb validatedSource "jina.ai" then
    error_json 400 (mkErrorResponse
      "Jina.ai source is handled client-side. Use /api/jina endpoint instead." VALIDATION_ERROR) st
  else
  (* [new URL(validatedUrl).hostname] in the log call *)
  match WUrl.parse_url validatedUrl with
  | Throw _ => unexpected st
  | Ok _ =>
  let urlWithSource := getUrlWithSource validatedSource validatedUrl in
  match extractArticleUrl validatedUrl with
  | Throw _ => unexpected st
  | Ok normalizedUrlForCache =>
  let cacheKey := validatedSource ++ ":" ++ normalizedUrlForCache in
  (* the cache read; an exception in it is caught and the fetch goes on *)
  let hit := match articles st cacheKey with
             | Some (CArticle article) =>
                 if servable article then
                   match ArticleResponseSchema_parse
                           (mkArticleResponse validatedSource urlWithSource
                              (response_article true article)) with
                   | Ok response => Some response
                   | Throw _ => None
                   end
                 else None
             | _ => None
             end in
  match hit with
  | Some response => (Json 200 (BArticle response), st)
  | None =>
  match fetchArticle urlWithSource validatedSource (Some validatedUrl) with
  | Throw _ => unexpected st
  | Ok (SError message) => error_json 500 (mkErrorResponse message AppErrorType) st
  | Ok (SArticle article cacheURL) =>
      let '(savedArticle, st') := saveOrReturnLongerArticle cacheKey article st in
      let saved := if schema_ok savedArticle
                   then ArticleResponseSchema_parse
                          (mkArticleResponse validatedSource cacheURL
                             (response_article false savedArticle))
                   else ArticleResponseSchema_parse
                          (mkArticleResponse validatedSource cacheURL
                             (response_article false article)) in
      match saved with
      | Ok response => (Json 200 (BArticle response), st')
      | Throw _ =>
          (* the cache-save [catch] *)
          if negb (schema_ok article) then
            error_json 500 (mkErrorResponse
              ("Article validation failed: " ++ fromError_text article) VALIDATION_ERROR) st'
          else
            match ArticleResponseSchema_parse
                    (mkArticleResponse validatedSource cacheURL (response_article true article)) with
            | Ok response => (Json 200 (BArticle response), st')
            | Throw _ => unexpected st'
            end
      end
  end
  end
  end
  end
  end.

End Handler.
End Route.

(* ------------------------------------------------------------------ *)
(** ** Character classes used by the proofs below *)

Module CharClasses.
Import JsStr.

(** The line feed that [sanitizeText] collapses. *)
Definition LF := "010"%char.

(** Bytes that [[^\s\x22<>]] excludes among the ASCII ones. *)
Definition url_ok (c : ascii) : bool :=
  negb (existsb (Z.eqb (byte c)) [9; 10; 11; 12; 13; 32; 34; 60; 62]).

(** Printable ASCII: no white space character starts with such a byte. *)
Definition graph_char (c : ascii) : bool := in_range 33 126 (byte c).

(** Path segments that the path parser resolves away. *)
Definition dot_seg (s : string) : bool := WUrl.single_dot s || WUrl.double_dot s.

(** Characters a segment of a parsed path can hold. *)
Definition seg_char (sp : bool) (c : ascii) : bool :=
  negb (WUrl.path_set (byte c)) && negb (sp && Ascii.eqb c "\") && negb (Ascii.eqb c "/").

End CharClasses.

(* ------------------------------------------------------------------ *)
(** ** Concrete inputs: a DOM library, pages, records and networks *)

Module Examples.
Import JsStr Articles Fetch.

Fixpoint repeat_str (n : nat) (s : string) : string :=
  match n with O => "" | S k => s ++ repeat_str k s end.

(** A 160-byte page. *)
Definition page : string := repeat_str 10 "<p>article.</p>".

(** A DOM library whose Readability parse yields the text [text]. *)
Definition reader (text : string) (html url : string) : Outcome (unit * option Parsed) :=
  Ok (tt, Some (mkParsed (Some "Title") (Some "<p>article</p>") (Some text) None None None)).
Definition no_attr (_ : unit) (_ : string) : option string := None.
Definition no_fact (_ : unit) : option string := None.
Definition ltr (_ : option string) (_ : string) : Dir := Ltr.
Definition keep_html (h : string) : string := h.

Definition parse_with (text : string) : string -> string -> option CachedArticle :=
  parseHtmlToArticle unit (reader text) no_attr no_fact no_fact no_fact ltr keep_html.

Definition try_with (text : string) :
    string -> FetchStrategy -> Obj -> NetEvent -> Outcome (FetchResult * Obj) :=
  tryFetchAndParse unit (reader text) no_attr no_fact no_fact no_fact ltr keep_html.

Definition fast_with (text : string) (net : nat -> FetchStrategy -> option string -> NetEvent)
    : string -> Outcome (SourceResult * Seq) :=
  fetchArticleWithFast unit (reader text) no_attr no_fact no_fact no_fact ltr keep_html net.

(** An article record with the given text, length, byline and HTML. *)
Definition art (text : string) (len : Z) (byl html : option string) : CachedArticle :=
  mkArticle "Title" "<p>article</p>" text len "ex.com" byl None None html None None.

(** The store holding [a] under "k". *)
Definition store_with (a : CachedArticle) : Cache.Store :=
  Cache.mkStore (fun k => if String.eqb k "k" then Some (Cache.CArticle a) else None)
                (fun _ => None).

(** A successful fetch result carrying [a]. *)
Definition ok_result (a : CachedArticle) : FetchResult :=
  mkResult true Browser (Some page) (Some a) (calculateQuality a) None.

Definition text500 : string := repeat_str 50 "0123456789".
Definition text800 : string := repeat_str 80 "0123456789".

(** Responses carrying [Set-Cookie: datadome=abc; Path=/]. *)
Definition cookie_headers : list (string * string) := [("set-cookie", "datadome=abc; Path=/")].
Definition ok_with_cookie : NetEvent := Respond 50 200 cookie_headers (BodyDone page 100).
Definition forbidden_with_cookie : NetEvent := Respond 50 403 cookie_headers (BodyDone page 100).

End Examples.

(* ------------------------------------------------------------------ *)
(** ** Concrete instances of the route handler's libraries *)

Module RouteExamples.
Import JsStr UrlTs Cache Articles Fetch Route Examples.

(** 1000 characters of text. *)
Definition long_text : string := repeat_str 100 "0123456789".

(** A schema-valid cached article of length 1000 with HTML. *)
Definition cached : CachedArticle := art long_text 1000 None (Some page).

(** The store holding [cached] under "fetch-fast:https://ex.com/a". *)
Definition hit_store : Store :=
  mkStore (fun k => if String.eqb k "fetch-fast:https://ex.com/a" then Some (CArticle cached) else None)
          (fun _ => None).

Definition empty_store : Store := mkStore (fun _ => None) (fun _ => None).

(** A request schema that accepts any present [url] and [source]. *)
Definition request_ok (url source : option string) : string + (string * string) :=
  match url, source with
  | Some u, Some s => inr (u, s)
  | _, _ => inl "Validation error: Required"
  end.

Definition accept_response (r : ArticleResponse) : Outcome ArticleResponse := Ok r.
Definition accept_error (e : ErrorResponse) : Outcome ErrorResponse := Ok e.
Definition no_error_text (_ : CachedArticle) : string := "".
Definition no_net (_ : nat) (_ : FetchStrategy) (_ : option string) : NetEvent := NoResponse.
Definition no_diffbot (_ _ : string) : DiffbotRaw + string := inr "Diffbot unavailable".
Definition wayback_page (_ : string) : WaybackResponse := WResponse 200 page.

Definition fetch_with : string -> string -> option string -> Outcome SourceResult :=
  fetchArticle unit (reader long_text) no_attr no_fact no_fact no_fact ltr keep_html
    no_net no_diffbot wayback_page.

Definition get_with : option string -> option string -> Store -> Response * Store :=
  GET unit (reader long_text) no_attr no_fact no_fact no_fact ltr keep_html
    no_net no_diffbot wayback_page request_ok accept_response accept_error no_error_text.

(** The response served from [hit_store]. *)
Definition hit_response : ArticleResponse :=
  mkArticleResponse "fetch-fast" "https://ex.com/a" (response_article ltr true cached).

End RouteExamples.

(* ------------------------------------------------------------------ *)
(** ** Facts about the string primitives and [sanitizeText] *)

Module Facts.
Import JsStr Sanitize.
Lemma prefix_app_inv (p s : string) : String.prefix p s = true -> exists b, s = p ++ b.
Proof.
  revert s; induction p as [|a p IH]; intros s H.
  - exists s; reflexivity.
  - destruct s as [|c s]; simpl in H; [discriminate|].
    destruct (ascii_dec a c) as [->|]; [|discriminate].
    destruct (IH s H) as [b ->]. exists b; reflexivity.
Qed.

Lemma append_nil_r (s : string) : s ++ "" = s.
Proof. induction s; simpl; congruence. Qed.

Lemma append_assoc' (x y z : string) : (x ++ y) ++ z = x ++ (y ++ z).
Proof. induction x; simpl; congruence. Qed.

Lemma rev_str_app (x y : string) : rev_str (x ++ y) = rev_str y ++ rev_str x.
Proof.
  induction x as [|c x IH]; simpl.
  - now rewrite append_nil_r.
  - rewrite IH, append_assoc'. reflexivity.
Qed.

Lemma rev_str_involutive (s : string) : rev_str (rev_str s) = s.
Proof.
  induction s as [|c s IH]; simpl; [reflexivity|].
  rewrite rev_str_app, IH. reflexivity.
Qed.

Lemma prefix_self (s : string) : String.prefix s s = true.
Proof.
  induction s as [|c s IH]; [reflexivity|].
  simpl. destruct (ascii_dec c c); [exact IH|congruence].
Qed.

Lemma index_app_some (a w : string) : w <> "" -> String.index 0 w (a ++ w) <> None.
Proof.
  intros Hw. induction a as [|c a IH].
  - destruct w as [|c w]; [congruence|]. cbn [String.index String.append].
    rewrite prefix_self. discriminate.
  - cbn [String.index String.append].
    destruct (String.prefix w (String c (a ++ w))); [discriminate|].
    destruct (String.index 0 w (a ++ w)); [discriminate|congruence].
Qed.

Lemma starts_with_index (s w : string) : w <> "" -> starts_with s w = true ->
  String.index 0 w s <> None.
Proof.
  intros Hw H. unfold starts_with in H. destruct s as [|c s].
  - destruct w as [|c w]; [congruence|]. unfold String.prefix in H. discriminate H.
  - cbn [String.index]. rewrite H. discriminate.
Qed.

Lemma ends_with_index (s w : string) : w <> "" -> ends_with s w = true ->
  String.index 0 w s <> None.
Proof.
  intros Hw H. unfold ends_with in H.
  destruct (prefix_app_inv _ _ H) as [b Hb].
  assert (s = rev_str b ++ w) as ->.
  { rewrite <- (rev_str_involutive s), Hb, rev_str_app, rev_str_involutive. reflexivity. }
  apply index_app_some; exact Hw.
Qed.

Lemma ws_seqs_nonempty : forall w, In w ws_seqs -> w <> "".
Proof.
  intros w Hin. vm_compute in Hin.
  repeat (destruct Hin as [<-|Hin]; [discriminate|]). destruct Hin.
Qed.

Lemma find_none_of {A} (f : A -> bool) (l : list A) :
  (forall x, In x l -> f x = false) -> find f l = None.
Proof.
  induction l as [|x l IH]; intros H; [reflexivity|].
  simpl. rewrite (H x (or_introl eq_refl)). apply IH. intros y Hy. apply H. right; exact Hy.
Qed.

Lemma no_ws_index (s : string) : has_ws s = false ->
  forall w, In w ws_seqs -> String.index 0 w s = None.
Proof.
  intros H w Hin. unfold has_ws in H.
  destruct (String.index 0 w s) eqn:E; [|reflexivity].
  assert (existsb (fun w => match String.index 0 w s with Some _ => true | None => false end) ws_seqs = true) as Hc.
  { apply existsb_exists. exists w. rewrite E. auto. }
  congruence.
Qed.

Lemma trim_no_ws (s : string) : has_ws s = false -> trim s = s.
Proof.
  intros H.
  assert (ws_at s = 0%nat) as H1.
  { unfold ws_at. rewrite find_none_of; [reflexivity|].
    intros w Hin. destruct (starts_with s w) eqn:E; [|reflexivity].
    exfalso. apply (starts_with_index s w (ws_seqs_nonempty w Hin) E). apply no_ws_index; assumption. }
  assert (ws_at_end s = 0%nat) as H2.
  { unfold ws_at_end. rewrite find_none_of; [reflexivity|].
    intros w Hin. destruct (ends_with s w) eqn:E; [|reflexivity].
    exfalso. apply (ends_with_index s w (ws_seqs_nonempty w Hin) E). apply no_ws_index; assumption. }
  unfold trim. destruct (String.length s) as [|n]; [reflexivity|].
  simpl. rewrite H1. simpl. rewrite H2. reflexivity.
Qed.
Inductive subseq : string -> string -> Prop :=
| sub_nil : subseq "" ""
| sub_keep c a b : subseq a b -> subseq (String c a) (String c b)
| sub_skip c a b : subseq a b -> subseq a (String c b).

Lemma subseq_refl (s : string) : subseq s s.
Proof. induction s; constructor; assumption. Qed.

Lemma subseq_nil_l (s : string) : subseq "" s.
Proof. induction s; constructor; assumption. Qed.

Lemma subseq_trans (a b c : string) : subseq a b -> subseq b c -> subseq a c.
Proof.
  intros H1 H2. revert a H1. induction H2 as [|x b c H IH|x b c H IH]; intros a H1.
  - exact H1.
  - inversion H1; subst.
    + constructor. apply IH. assumption.
    + constructor. apply IH. assumption.
  - constructor. apply IH. exact H1.
Qed.

Lemma unit_weight_nonneg (c : ascii) : (0 <= unit_weight c)%Z.
Proof. unfold unit_weight. destruct (_ && _); [lia|]. destruct (_ <=? _)%Z; lia. Qed.

Lemma subseq_js_length (a b : string) : subseq a b -> (js_length a <= js_length b)%Z.
Proof.
  induction 1; simpl; [lia | lia |].
  pose proof (unit_weight_nonneg c). lia.
Qed.

Lemma substring_subseq (n m : nat) (s : string) : subseq (substring n m s) s.
Proof.
  revert n m. induction s as [|c s IH]; intros n m.
  - destruct n, m; constructor.
  - destruct n as [|n]; destruct m as [|m]; simpl.
    + apply subseq_nil_l.
    + constructor. apply IH.
    + constructor. apply IH.
    + constructor. apply IH.
Qed.

Lemma drop_subseq (n : nat) (s : string) : subseq (drop n s) s.
Proof. apply substring_subseq. Qed.

Lemma take_subseq (n : nat) (s : string) : subseq (take n s) s.
Proof. apply substring_subseq. Qed.

Lemma trim_subseq (s : string) : subseq (trim s) s.
Proof.
  unfold trim.
  assert (Hs : forall f t, subseq (trim_start_fuel f t) t).
  { induction f as [|f IH]; intros t; simpl; [apply subseq_refl|].
    destruct (ws_at t) as [|k]; [apply subseq_refl|].
    eapply subseq_trans; [apply IH|apply drop_subseq]. }
  assert (He : forall f t, subseq (trim_end_fuel f t) t).
  { induction f as [|f IH]; intros t; simpl; [apply subseq_refl|].
    destruct (ws_at_end t) as [|k]; [apply subseq_refl|].
    eapply subseq_trans; [apply IH|apply take_subseq]. }
  eapply subseq_trans; [apply He|apply Hs].
Qed.



Lemma replace_subseq (m : string -> string -> option nat) (fuel : nat) (rprev s : string) :
  subseq (replace_fuel fuel m rprev s) s.
Proof.
  revert rprev s. induction fuel as [|f IH]; intros rprev s; simpl; [apply subseq_refl|].
  destruct s as [|c r]; [constructor|].
  destruct (m rprev (String c r)) as [[|k]|].
  - constructor. apply IH.
  - eapply subseq_trans; [apply IH|apply drop_subseq].
  - constructor. apply IH.
Qed.

Lemma nl_run_shape (s : string) : (3 <= nl_run s)%nat ->
  exists s2, s = String "010" (String "010" s2) /\ nl_run s = S (S (nl_run s2)).
Proof.
  destruct s as [|c1 [|c2 s2]]; simpl; try lia.
  - destruct c1 as [[] [] [] [] [] [] [] []]; simpl; lia.
  - destruct c1 as [[] [] [] [] [] [] [] []]; simpl; try lia.
    destruct c2 as [[] [] [] [] [] [] [] []]; simpl; try lia.
    intros _. exists s2. split; reflexivity.
Qed.

Lemma collapse_subseq (fuel : nat) (s : string) : subseq (collapse_fuel fuel s) s.
Proof.
  revert s. induction fuel as [|f IH]; intros s; [apply subseq_refl|].
  destruct s as [|c r]; [constructor|].
  cbn [collapse_fuel].
  destruct (3 <=? nl_run (String c r))%nat eqn:E.
  - apply Nat.leb_le in E. destruct (nl_run_shape _ E) as (s2 & Hs & Hn).
    rewrite Hn, Hs.
    change (of_bytes [10; 10]%Z) with (String "010" (String "010" "")). simpl.
    constructor. constructor.
    eapply subseq_trans; [apply IH|].
    unfold drop. simpl. apply substring_subseq.
  - constructor. apply IH.
Qed.

Lemma sanitizeText_subseq (t : string) : subseq (sanitizeText t) t.
Proof.
  unfold sanitizeText. destruct (String.eqb t ""); [apply subseq_refl|].
  eapply subseq_trans; [apply trim_subseq|].
  eapply subseq_trans; [apply collapse_subseq|].
  apply replace_subseq.
Qed.

Lemma sanitizeText_js_length (t : string) : (js_length (sanitizeText t) <= js_length t)%Z.
Proof. apply subseq_js_length, sanitizeText_subseq. Qed.

End Facts.

(* ------------------------------------------------------------------ *)
(** ** Facts about [normalizeUrl] *)

Module UrlFacts.
Import JsStr Facts UrlTs.

Lemma isURL_no_ws (c : string) : Validator.isURL c = true -> has_ws c = false /\ c <> "".
Proof.
  unfold Validator.isURL. intros H.
  destruct (String.eqb c "") eqn:E; [discriminate|].
  destruct (has_ws c); [discriminate|].
  split; [reflexivity|]. apply String.eqb_neq; exact E.
Qed.

Lemma protocol_https (r : string) : PROTOCOL_REGEX_test ("https://" ++ r) = true.
Proof. destruct r; vm_compute; reflexivity. Qed.

Lemma protocol_repair (c : string) : PROTOCOL_REGEX_test c = true -> repairProtocol c = c.
Proof.
  unfold PROTOCOL_REGEX_test, repairProtocol.
  destruct (scheme_colon c) as [[sch rest]|]; [|discriminate].
  intros H. destruct (prefix_app_inv _ _ H) as [b ->]. destruct b; reflexivity.
Qed.

(** What a successful [normalizeUrl] establishes of its result. *)
Lemma normalizeUrl_ok_inv (u c : string) : normalizeUrl u = Ok c ->
  PROTOCOL_REGEX_test c = true /\ Validator.isURL c = true /\
  match WUrl.parse_url c with Ok o => isPrivateIP (WUrl.hostname o) | Throw _ => false end = false.
Proof.
  unfold normalizeUrl. intros H.
  destruct (String.eqb (trim u) ""); [discriminate|].
  cbv zeta in H.
  destruct (PROTOCOL_REGEX_test (repairProtocol (safeDecodeUrl (trim u)))) eqn:Ep;
  match type of H with
  | (if ?p then _ else if negb ?v then _ else Ok ?cand) = Ok c =>
      destruct p eqn:Epriv; [discriminate|];
      destruct v eqn:Ev; [|discriminate];
      injection H as <-; repeat split; try assumption
  end.
  apply protocol_https.
Qed.

(** On a string that is its own candidate, [normalizeUrl] only runs the
    private-host check and [isURL]. *)
Lemma normalizeUrl_candidate (c : string) :
  Validator.isURL c = true -> safeDecodeUrl c = c -> PROTOCOL_REGEX_test c = true ->
  normalizeUrl c =
  if match WUrl.parse_url c with Ok o => isPrivateIP (WUrl.hostname o) | Throw _ => false end
  then Throw PRIVATE_ERR else Ok c.
Proof.
  intros Hv Hdec Hp.
  destruct (isURL_no_ws c Hv) as [Hws Hne].
  unfold normalizeUrl. rewrite (trim_no_ws c Hws).
  apply String.eqb_neq in Hne. rewrite Hne. cbv zeta.
  rewrite Hdec, (protocol_repair c Hp), Hp, Hv.
  destruct (match WUrl.parse_url c with Ok o => isPrivateIP (WUrl.hostname o) | Throw _ => false end);
    reflexivity.
Qed.

End UrlFacts.

(* ------------------------------------------------------------------ *)
(** ** The specification's claims *)

Module Claims.
Import JsStr Facts UrlTs UrlFacts Cache Articles Fetch Examples.

(** C1: on a cache hit whose stored record passes the schema, and for an
    incoming record that passes it, the merge returns and stores the
    incoming record exactly when the specification's precedence says it
    wins ((1) the existing record lacks [htmlContent] and the incoming
    one has it, (2) else the incoming one is longer), and otherwise
    returns the existing record and leaves the store unchanged. *)
Theorem saveOrReturnLongerArticle_precedence (key : string) (incoming existing : CachedArticle)
    (st : Store) :
  schema_ok incoming = true ->
  articles st key = Some (CArticle existing) ->
  schema_ok existing = true ->
  saveOrReturnLongerArticle key incoming st =
  if spec_incoming_wins existing incoming
  then (incoming, saveToCache key incoming st) else (existing, st).
Proof.
  intros Hi Hst He. unfold saveOrReturnLongerArticle, spec_incoming_wins.
  rewrite Hi, Hst, He. cbn [negb].
  destruct (negb (truthy (htmlContent existing)) && truthy (htmlContent incoming)); [reflexivity|].
  cbn [orb]. destruct (length existing <? length incoming); reflexivity.
Qed.

(** The specification's second example: an existing record of length 300
    without HTML against an incoming one of length 100 with HTML. *)
Lemma saveOrReturnLongerArticle_precedence_witness :
  let existing := art "" 300 None None in
  let incoming := art "" 100 None (Some "<html></html>") in
  schema_ok incoming = true /\ articles (store_with existing) "k" = Some (CArticle existing) /\
  schema_ok existing = true /\
  saveOrReturnLongerArticle "k" incoming (store_with existing) =
  (incoming, saveToCache "k" incoming (store_with existing)).
Proof.
  cbv zeta. split; [reflexivity|]. split; [reflexivity|]. split; [reflexivity|].
  rewrite (saveOrReturnLongerArticle_precedence "k" _ (art "" 300 None None)); reflexivity.
Defined.

(** The specification's first example: an existing record of length 300
    with HTML against an incoming one of length 900 without it. Rule (1)
    does not apply (the existing record has HTML), rule (2) does: the
    incoming record wins and replaces the stored one. *)
Lemma saveOrReturnLongerArticle_example1_counterexample :
  let existing := art "" 300 None (Some "<html></html>") in
  let incoming := art "" 900 None None in
  saveOrReturnLongerArticle "k" incoming (store_with existing) =
  (incoming, saveToCache "k" incoming (store_with existing)) /\ incoming <> existing.
Proof.
  cbv zeta. split; [reflexivity|]. intros H. injection H. discriminate.
Qed.

(** C2: [normalizeUrl] is idempotent on its outputs that percent-decoding
    leaves unchanged. *)
Theorem normalizeUrl_idempotent_on_decoded (u c : string) :
  normalizeUrl u = Ok c -> safeDecodeUrl c = c -> normalizeUrl c = Ok c.
Proof.
  intros H Hdec. destruct (normalizeUrl_ok_inv u c H) as (Hp & Hv & Hpriv).
  rewrite (normalizeUrl_candidate c Hv Hdec Hp), Hpriv. reflexivity.
Qed.

Lemma normalizeUrl_idempotent_on_decoded_witness :
  normalizeUrl "example.com" = Ok "https://example.com" /\
  safeDecodeUrl "https://example.com" = "https://example.com" /\
  normalizeUrl "https://example.com" = Ok "https://example.com".
Proof.
  split; [vm_compute; reflexivity|]. split; [vm_compute; reflexivity|].
  apply (normalizeUrl_idempotent_on_decoded "example.com"); vm_compute; reflexivity.
Defined.

(** [normalizeUrl] decodes once per call: a doubly encoded "%2541" becomes
    "%41" on the first call and "A" on the second. *)
Lemma normalizeUrl_not_idempotent_counterexample :
  normalizeUrl "https://ex.com/a%2541" = Ok "https://ex.com/a%41" /\
  normalizeUrl "https://ex.com/a%41" = Ok "https://ex.com/aA".
Proof. split; vm_compute; reflexivity. Qed.

(** C3: the private-network check on the examples of the specification:
    the IPv4 loopback, [localhost] and 192.168/16 hosts are refused with
    the private-network error and 8.8.8.8 is accepted unchanged; an IPv6
    loopback literal, whose [URL.hostname] keeps its brackets, is accepted. *)
Theorem normalizeUrl_private_examples :
  normalizeUrl "http://127.0.0.1/x" = Throw PRIVATE_ERR /\
  normalizeUrl "http://localhost" = Throw PRIVATE_ERR /\
  normalizeUrl "http://192.168.1.1" = Throw PRIVATE_ERR /\
  normalizeUrl "http://8.8.8.8" = Ok "http://8.8.8.8" /\
  WUrl.hostname (match WUrl.parse_url "http://[::1]" with Ok o => o | Throw _ => WUrl.mkURL "" "" "" None None false "" None None end) = "[::1]" /\
  isPrivateIP "::1" = true /\ isPrivateIP "[::1]" = false /\
  normalizeUrl "http://[::1]" = Ok "http://[::1]" /\
  normalizeUrl "http://[fe80::1]/" = Ok "http://[fe80::1]/" /\
  normalizeUrl "http://[fc00::1]/" = Ok "http://[fc00::1]/".
Proof. repeat split; vm_compute; reflexivity. Qed.

(** C10: a hostname that is not "localhost", does not end in ".local" and
    is not an IP literal is never private; so a URL with such a host that
    [normalizeUrl] would otherwise accept unchanged is accepted, whatever
    address the name resolves to. *)
Theorem isPrivateIP_domain_names :
  (forall h : string, h <> "localhost" -> ends_with h ".local" = false ->
     Validator.isIP h = false -> isPrivateIP h = false) /\
  (forall (c : string) (o : WUrl.URL),
     safeDecodeUrl c = c -> PROTOCOL_REGEX_test c = true -> WUrl.parse_url c = Ok o ->
     WUrl.hostname o <> "localhost" -> ends_with (WUrl.hostname o) ".local" = false ->
     Validator.isIP (WUrl.hostname o) = false -> Validator.isURL c = true ->
     normalizeUrl c = Ok c).
Proof.
  assert (Hh : forall h : string, h <> "localhost" -> ends_with h ".local" = false ->
     Validator.isIP h = false -> isPrivateIP h = false).
  { intros h Hl He Hip. unfold isPrivateIP.
    apply String.eqb_neq in Hl. rewrite Hl, He, Hip. reflexivity. }
  split; [exact Hh|].
  intros c o Hdec Hp Po Hl He Hip Hv.
  rewrite (normalizeUrl_candidate c Hv Hdec Hp), Po, (Hh _ Hl He Hip). reflexivity.
Qed.

Lemma isPrivateIP_domain_names_witness :
  normalizeUrl "https://internal.corp.example/x" = Ok "https://internal.corp.example/x".
Proof.
  destruct (WUrl.parse_url "https://internal.corp.example/x") as [o|] eqn:P;
    [|vm_compute in P; discriminate P].
  apply (proj2 isPrivateIP_domain_names "https://internal.corp.example/x" o).
  - vm_compute; reflexivity.
  - vm_compute; reflexivity.
  - exact P.
  - vm_compute in P. injection P as <-. vm_compute. discriminate.
  - vm_compute in P. injection P as <-. vm_compute. reflexivity.
  - vm_compute in P. injection P as <-. vm_compute. reflexivity.
  - vm_compute; reflexivity.
Defined.

Lemma hd_insert_desc (x : FetchResult) (acc : list FetchResult) :
  hd_error (insert_desc x acc) = best_step (hd_error acc) x.
Proof.
  destruct acc as [|y r]; [reflexivity|]. cbn [insert_desc hd_error best_step].
  destruct (quality y <? quality x); reflexivity.
Qed.

Lemma hd_sort_fold (l acc : list FetchResult) :
  hd_error (fold_left (fun acc x => insert_desc x acc) l acc) = fold_left best_step l (hd_error acc).
Proof.
  revert acc. induction l as [|x l IH]; intros acc; [reflexivity|].
  cbn [fold_left]. rewrite IH, hd_insert_desc. reflexivity.
Qed.

(** [fold_left best_step] over a non-empty list yields its first element of
    maximal quality. *)
Lemma best_step_first_max (l : list FetchResult) :
  l <> [] ->
  exists i best, nth_error l i = Some best /\ fold_left best_step l None = Some best /\
    (forall j y, nth_error l j = Some y -> quality y <= quality best) /\
    (forall j y, (j < i)%nat -> nth_error l j = Some y -> quality y < quality best).
Proof.
  induction l as [|x l IH] using rev_ind; [congruence|]. intros _.
  rewrite fold_left_app. cbn [fold_left].
  destruct l as [|z l'] eqn:El.
  - exists 0%nat, x. cbn. split; [reflexivity|]. split; [reflexivity|]. split.
    + intros [|[|j]] y H; cbn in H; try discriminate. injection H as <-. lia.
    + intros j y Hj. lia.
  - rewrite <- El in *. destruct IH as (i & b & Hn & Hf & Hmax & Hlt); [subst l; discriminate|].
    rewrite Hf. cbn [best_step].
    assert (Hi : (i < List.length l)%nat) by (apply nth_error_Some; congruence).
    destruct (quality b <? quality x) eqn:Eq.
    + apply Z.ltb_lt in Eq. exists (List.length l), x.
      split; [rewrite nth_error_app2, Nat.sub_diag by lia; reflexivity|].
      split; [reflexivity|]. split.
      * intros j y H. destruct (Nat.lt_ge_cases j (List.length l)) as [Hj|Hj].
        -- rewrite nth_error_app1 in H by exact Hj. specialize (Hmax j y H). lia.
        -- rewrite nth_error_app2 in H by exact Hj.
           destruct (j - List.length l)%nat as [|k]; cbn in H; [injection H as <-; lia|].
           destruct k; discriminate.
      * intros j y Hj H. rewrite nth_error_app1 in H by exact Hj.
        specialize (Hmax j y H). lia.
    + apply Z.ltb_ge in Eq. exists i, b.
      split; [rewrite nth_error_app1 by exact Hi; exact Hn|].
      split; [reflexivity|]. split.
      * intros j y H. destruct (Nat.lt_ge_cases j (List.length l)) as [Hj|Hj].
        -- rewrite nth_error_app1 in H by exact Hj. exact (Hmax j y H).
        -- rewrite nth_error_app2 in H by exact Hj.
           destruct (j - List.length l)%nat as [|k]; cbn in H; [injection H as <-; lia|].
           destruct k; discriminate.
      * intros j y Hj H. rewrite nth_error_app1 in H by lia. exact (Hlt j y Hj H).
Qed.

Section Quality.
Variable Document : Type.
Variable readability : string -> string -> Outcome (Document * option Parsed).
Variable getAttribute : Document -> string -> option string.
Variable document_title : Document -> option string.
Variable extractDateFromDom : Document -> option string.
Variable extractImageFromDom : Document -> option string.
Variable getTextDirection : option string -> string -> Dir.
Variable sanitizeHtml : string -> string.

(** C5: the quality score is the UTF-16 length of [textContent] plus 100
    for a byline, 100 for a publication time and 50 for an image; a
    successful attempt carries an article and that article's score; the
    arbitrator returns, from a non-empty pool of successful results, the
    first result of maximal score (results earlier in attempt order have a
    strictly lower score); and on the specification's examples the
    800-long record beats the 500-long one and, at equal length, the
    record with a byline wins. *)
Theorem quality_and_arbitration :
  (forall a : CachedArticle,
     calculateQuality a =
     js_length (textContent a) + (if truthy (byline a) then 100 else 0)
     + (if truthy (publishedTime a) then 100 else 0) + (if truthy (image a) then 50 else 0)) /\
  (forall url strat jar ev r jar',
     tryFetchAndParse Document readability getAttribute document_title extractDateFromDom
       extractImageFromDom getTextDirection sanitizeHtml url strat jar ev = Ok (r, jar') ->
     success r = true ->
     exists a, article r = Some a /\ quality r = calculateQuality a) /\
  (forall results : list FetchResult,
     filter successful results <> [] ->
     exists i best, nth_error (filter successful results) i = Some best /\
       pick_best results = Some best /\
       (forall j y, nth_error (filter successful results) j = Some y -> quality y <= quality best) /\
       (forall j y, (j < i)%nat -> nth_error (filter successful results) j = Some y ->
                    quality y < quality best)) /\
  pick_best [ok_result (art text500 500 None None); ok_result (art text800 800 None None)] =
    Some (ok_result (art text800 800 None None)) /\
  pick_best [ok_result (art text500 500 None None); ok_result (art text500 500 (Some "A. Writer") None)] =
    Some (ok_result (art text500 500 (Some "A. Writer") None)).
Proof.
  split; [|split; [|split]].
  - intros a. unfold calculateQuality.
    destruct (truthy (byline a)), (truthy (publishedTime a)), (truthy (image a)); lia.
  - intros url strat jar ev r jar'. unfold tryFetchAndParse.
    destruct (tryFetchWithStrategy strat ev) as [[h st | status bl hs]|e]; cbn [bind_out];
      [|intros H; injection H as <- _; discriminate|discriminate].
    destruct (parseHtml _ _ _ _ _ _ _ _ h url) as [a|];
      intros H; injection H as <- _; [|discriminate].
    intros _. exists a. split; reflexivity.
  - intros results Hne. unfold pick_best, sort_desc. rewrite hd_sort_fold. cbn [hd_error].
    exact (best_step_first_max _ Hne).
  - split; vm_compute; reflexivity.
Qed.

End Quality.

Lemma quality_and_arbitration_witness :
  let pool := [ok_result (art text500 500 None None); ok_result (art text800 800 None None)] in
  filter successful pool <> [] /\
  exists best, pick_best pool = Some best /\
    forall j y, nth_error (filter successful pool) j = Some y -> quality y <= quality best.
Proof.
  cbv zeta. split; [discriminate|].
  destruct (proj1 (proj2 (proj2 (quality_and_arbitration unit (reader "") no_attr no_fact
              no_fact no_fact ltr keep_html)))
            [ok_result (art text500 500 None None); ok_result (art text800 800 None None)]
            ltac:(discriminate)) as (i & best & _ & Hp & Hmax & _).
  exists best. split; [exact Hp|exact Hmax].
Defined.

Section Fast.
Variable Document : Type.
Variable readability : string -> string -> Outcome (Document * option Parsed).
Variable getAttribute : Document -> string -> option string.
Variable document_title : Document -> option string.
Variable extractDateFromDom : Document -> option string.
Variable extractImageFromDom : Document -> option string.
Variable getTextDirection : option string -> string -> Dir.
Variable sanitizeHtml : string -> string.
Variable net : nat -> FetchStrategy -> option string -> NetEvent.

(** Attempt [n] of the sequence with a strategy and the jar it starts from. *)
Local Abbreviation T url n s jar :=
  (tryFetchAndParse Document readability getAttribute document_title extractDateFromDom
     extractImageFromDom getTextDirection sanitizeHtml url s jar
     (net n s (buildCookieHeader jar))).

(** C6: for a URL that parses, and when attempt 1 does not succeed with a
    score of exactly 3000, [fetchArticleWithFast] runs attempt 1 with the
    browser identity and no cookie; it returns that article at once iff the
    attempt succeeded with a score above 3000; otherwise it runs attempt 2
    with the googlebot identity, then attempt 3 with the browser identity
    and the jar's cookies iff the jar is non-empty, and arbitrates the
    results; when no result is successful the arbitration fails with the
    last result's error. An attempt that throws ends the sequence with the
    generic direct-fetch error. *)
Theorem fetchArticleWithFast_sequence (url : string) (u : WUrl.URL) :
  WUrl.parse_url url = Ok u ->
  (forall r1 j1, T url 1%nat Browser [] = Ok (r1, j1) -> ~ (success r1 = true /\ quality r1 = 3000)) ->
  (forall results, filter successful results = [] ->
     arbitrate url results = SError ("All fetch strategies failed: " ++ last_error results)) /\
  let failed := SError "Failed to fetch article directly" in
  let third jar rs reqs :=
    if (0 <? List.length jar)%nat then
      match T url 3%nat Browser jar with
      | Throw _ => Ok (failed, mkSeq jar rs (reqs ++ [(Browser, buildCookieHeader jar)])%list)
      | Ok (r3, j3) => Ok (arbitrate url (rs ++ [r3])%list,
                           mkSeq j3 (rs ++ [r3])%list (reqs ++ [(Browser, buildCookieHeader jar)])%list)
      end
    else Ok (arbitrate url rs, mkSeq jar rs reqs) in
  fetchArticleWithFast Document readability getAttribute document_title extractDateFromDom
    extractImageFromDom getTextDirection sanitizeHtml net url =
  match T url 1%nat Browser [] with
  | Throw _ => Ok (failed, mkSeq [] [] [(Browser, None)])
  | Ok (r1, j1) =>
      if success r1 && (3000 <? quality r1) then
        Ok (with_article (article r1) url, mkSeq j1 [r1] [(Browser, None)])
      else
        match T url 2%nat Googlebot j1 with
        | Throw _ => Ok (failed, mkSeq j1 [r1] [(Browser, None); (Googlebot, buildCookieHeader j1)])
        | Ok (r2, j2) => third j2 [r1; r2] [(Browser, None); (Googlebot, buildCookieHeader j1)]
        end
  end.
Proof.
  intros Hu Hq. split.
  { intros results H. unfold arbitrate, pick_best. rewrite H. reflexivity. }
  cbv zeta. unfold fetchArticleWithFast. rewrite Hu. cbn [bind_out].
  unfold catchM, fast_body, bindM, attempt, gets, ret. cbn [cookieJar results requests].
  destruct (T url 1%nat Browser []) as [[r1 j1]|e1] eqn:E1; [|reflexivity].
  cbv beta iota delta [cookieJar results requests]; cbn [app].
  specialize (Hq r1 j1 eq_refl).
  destruct (success r1 && (3000 <? quality r1)) eqn:Eb; [reflexivity|].
  assert (Hg : negb (success r1) || (quality r1 <? 3000) = true).
  { destruct (success r1) eqn:Es; [|reflexivity]. cbn in Eb |- *.
    apply Z.ltb_ge in Eb. apply Z.ltb_lt.
    assert (quality r1 <> 3000) by (intros E; apply Hq; auto). lia. }
  rewrite Hg. cbv beta iota delta [cookieJar results requests]; cbn [app].
  destruct (T url 2%nat Googlebot j1) as [[r2 j2]|e2] eqn:E2; [|reflexivity].
  cbv beta iota delta [cookieJar results requests]; cbn [app].
  destruct (0 <? List.length j2)%nat; [|reflexivity].
  destruct (T url 3%nat Browser j2) as [[r3 j3]|e3]; reflexivity.
Qed.

End Fast.

(** A site answering 403 with a [datadome] cookie: three requests, the
    two after the first carrying the cookie. *)
Lemma fetchArticleWithFast_sequence_witness :
  exists res s,
    fast_with "  Hello world  " (fun _ _ _ => forbidden_with_cookie) "https://ex.com/a" = Ok (res, s) /\
    requests s = [(Browser, None); (Googlebot, Some "datadome=abc"); (Browser, Some "datadome=abc")].
Proof.
  destruct (WUrl.parse_url "https://ex.com/a") as [u|] eqn:P; [|vm_compute in P; discriminate P].
  pose proof (proj2 (fetchArticleWithFast_sequence unit (reader "  Hello world  ") no_attr no_fact
                no_fact no_fact ltr keep_html (fun _ _ _ => forbidden_with_cookie) "https://ex.com/a" u P
                ltac:(intros r1 j1 H; vm_compute in H; injection H as <- _; vm_compute;
                      intros [H _]; discriminate H))) as E.
  cbv zeta in E. unfold fast_with. rewrite E.
  vm_compute. eexists; eexists; split; reflexivity.
Defined.

(** A fetch that rejects with a [TypeError] (no response at all) on
    attempt 1: no further attempt is made and the error is the generic
    direct-fetch error, not the last observed error. *)
Lemma fetchArticleWithFast_throw_counterexample :
  fast_with "  Hello world  " (fun _ _ _ => Reject "TypeError") "https://ex.com/a" =
  Ok (SError "Failed to fetch article directly", mkSeq [] [] [(Browser, None)]).
Proof. vm_compute. reflexivity. Qed.

(** C7: when the headers arrive before the 15 s timeout, a 401, 403 or 429
    is blocked and carries the response headers; any other non-2xx status
    is a non-blocked failure carrying them; a 2xx whose body is not read
    within 10 s is blocked with the synthetic status 408 and the headers;
    and a transport abort before the headers (no response, the 15 s timer,
    or an [AbortError] rejection) is a non-blocked 408 without headers,
    which differs from the body-timeout result. *)
Theorem tryFetchWithStrategy_classification :
  (forall strategy ms status hs body,
     ms < timeoutMs -> status = 401 \/ status = 403 \/ status = 429 ->
     tryFetchWithStrategy strategy (Respond ms status hs body) =
     Ok (AStatus status true (Some (collect_headers hs)))) /\
  (forall strategy ms status hs body,
     ms < timeoutMs -> status <> 401 -> status <> 403 -> status <> 429 ->
     response_ok status = false ->
     tryFetchWithStrategy strategy (Respond ms status hs body) =
     Ok (AStatus status false (Some (collect_headers hs)))) /\
  (forall strategy ms status hs body,
     ms < timeoutMs -> response_ok status = true ->
     (body = BodyStall \/ exists text t, body = BodyDone text t /\ bodyTimeoutMs <= t) ->
     tryFetchWithStrategy strategy (Respond ms status hs body) =
     Ok (AStatus 408 true (Some (collect_headers hs)))) /\
  (forall strategy ev,
     (ev = NoResponse \/ ev = Reject "AbortError" \/
      exists ms status hs body, ev = Respond ms status hs body /\ timeoutMs <= ms) ->
     tryFetchWithStrategy strategy ev = Ok (AStatus 408 false None)) /\
  (forall hs, AStatus 408 true (Some hs) <> AStatus 408 false None).
Proof.
  split; [|split; [|split; [|split]]].
  - intros strategy ms status hs body Hms Hs. cbn [tryFetchWithStrategy].
    replace (timeoutMs <=? ms) with false by (symmetry; apply Z.leb_gt; exact Hms).
    cbv zeta. destruct Hs as [-> | [-> | -> ] ]; reflexivity.
  - intros strategy ms status hs body Hms H1 H3 H9 Hok. cbn [tryFetchWithStrategy].
    replace (timeoutMs <=? ms) with false by (symmetry; apply Z.leb_gt; exact Hms).
    cbv zeta. apply Z.eqb_neq in H1, H3, H9. rewrite H1, H3, H9, Hok. reflexivity.
  - intros strategy ms status hs body Hms Hok Hb. cbn [tryFetchWithStrategy].
    replace (timeoutMs <=? ms) with false by (symmetry; apply Z.leb_gt; exact Hms).
    cbv zeta. unfold response_ok in Hok.
    assert (Hn : (status =? 401) || (status =? 403) || (status =? 429) = false).
    { apply andb_prop in Hok. destruct Hok as [Ha Hb']. apply Z.leb_le in Ha, Hb'.
      destruct (Z.eqb_spec status 401), (Z.eqb_spec status 403), (Z.eqb_spec status 429);
        try lia; reflexivity. }
    rewrite Hn. unfold response_ok. rewrite Hok. cbn [negb].
    destruct Hb as [->|(text & t & -> & Ht)]; [reflexivity|].
    replace (t <? bodyTimeoutMs) with false by (symmetry; apply Z.ltb_ge; exact Ht).
    reflexivity.
  - intros strategy ev [->|[->|(ms & status & hs & body & -> & Hms)]]; try reflexivity.
    cbn [tryFetchWithStrategy]. apply Z.leb_le in Hms. rewrite Hms. reflexivity.
  - intros hs H. discriminate H.
Qed.

(** The tarpit of the specification: headers after 50 ms, a body that
    never completes; and a 403 after 50 ms. *)
Lemma tryFetchWithStrategy_classification_witness :
  tryFetchWithStrategy Browser (Respond 50 200 cookie_headers BodyStall) =
    Ok (AStatus 408 true (Some (collect_headers cookie_headers))) /\
  tryFetchWithStrategy Browser (Respond 50 403 cookie_headers (BodyDone page 100)) =
    Ok (AStatus 403 true (Some (collect_headers cookie_headers))).
Proof.
  split.
  - apply (proj1 (proj2 (proj2 tryFetchWithStrategy_classification))).
    + reflexivity.
    + reflexivity.
    + left; reflexivity.
  - apply (proj1 tryFetchWithStrategy_classification).
    + reflexivity.
    + right; left; reflexivity.
Defined.

Lemma jar_allowed_obj_set (o : Obj) (k v : string) :
  jar_allowed o = true -> allowed_cookie k = true -> jar_allowed (obj_set o k v) = true.
Proof.
  induction o as [|[k' v'] r IH]; intros Ho Hk; cbn [obj_set].
  - apply andb_true_intro. split; [exact Hk|reflexivity].
  - apply andb_prop in Ho. destruct Ho as [Hk' Hr].
    destruct (String.eqb k k'); apply andb_true_intro.
    + split; [exact Hk|exact Hr].
    + split; [exact Hk'|apply IH; assumption].
Qed.

Lemma extractSetCookies_allowed (headers : Obj) : jar_allowed (extractSetCookies headers) = true.
Proof.
  unfold extractSetCookies. destruct (obj_get headers "set-cookie") as [sc|]; [|reflexivity].
  destruct (String.eqb sc ""); [reflexivity|].
  generalize (@nil (string * string)) (eq_refl : jar_allowed [] = true).
  induction (split_cookies sc) as [|c l IH]; intros acc Hacc; cbn [fold_left]; [exact Hacc|].
  apply IH. destruct (match_cookie c) as [[n v]|]; [|exact Hacc]. cbv zeta.
  destruct (allowed_cookie (trim n)) eqn:Ea; [|exact Hacc].
  apply jar_allowed_obj_set; assumption.
Qed.

Lemma fold_obj_set_allowed (l acc : Obj) :
  jar_allowed acc = true -> jar_allowed l = true ->
  jar_allowed (fold_left (fun j '(k, v) => obj_set j k v) l acc) = true.
Proof.
  revert acc. induction l as [|[k v] r IH]; intros acc Hacc Hl; cbn [fold_left]; [exact Hacc|].
  cbn [jar_allowed forallb] in Hl. apply andb_prop in Hl. destruct Hl as [Hk Hr].
  apply IH; [apply jar_allowed_obj_set|]; assumption.
Qed.

Section Jar.
Variable Document : Type.
Variable readability : string -> string -> Outcome (Document * option Parsed).
Variable getAttribute : Document -> string -> option string.
Variable document_title : Document -> option string.
Variable extractDateFromDom : Document -> option string.
Variable extractImageFromDom : Document -> option string.
Variable getTextDirection : option string -> string -> Dir.
Variable sanitizeHtml : string -> string.
Variable net : nat -> FetchStrategy -> option string -> NetEvent.

(** A statement of the sequence keeps the jar allow-listed. *)
Local Abbreviation Pres m :=
  (forall s, jar_allowed (cookieJar s) = true -> jar_allowed (cookieJar (fst (m s))) = true).

Lemma tryFetchAndParse_jar url strategy jar ev r jar' :
  tryFetchAndParse Document readability getAttribute document_title extractDateFromDom
    extractImageFromDom getTextDirection sanitizeHtml url strategy jar ev = Ok (r, jar') ->
  jar_allowed jar = true -> jar_allowed jar' = true.
Proof.
  unfold tryFetchAndParse.
  destruct (tryFetchWithStrategy strategy ev) as [[h st | status bl [hs|]]|e]; cbn [bind_out];
    [| | |discriminate].
  - destruct (parseHtml _ _ _ _ _ _ _ _ h url); intros H; injection H as _ <-; auto.
  - intros H; injection H as _ <-. intros Hj.
    destruct (0 <? List.length (extractSetCookies hs))%nat; [|exact Hj].
    apply fold_obj_set_allowed; [exact Hj|apply extractSetCookies_allowed].
  - intros H; injection H as _ <-. auto.
Qed.

Lemma ret_jar {A} (a : A) : Pres (ret a).
Proof. intros s Hs. exact Hs. Qed.

Lemma gets_jar {A} (f : Seq -> A) : Pres (gets f).
Proof. intros s Hs. exact Hs. Qed.

Lemma bind_jar {A B} (m : M A) (k : A -> M B) :
  Pres m -> (forall a, Pres (k a)) -> Pres (bindM m k).
Proof.
  intros Hm Hk s Hs. unfold bindM. specialize (Hm s Hs).
  destruct (m s) as [s' [a|e]]; cbn [fst] in *; [apply Hk|]; exact Hm.
Qed.

Lemma catch_jar {A} (m : M A) (h : string -> M A) :
  Pres m -> (forall e, Pres (h e)) -> Pres (catchM m h).
Proof.
  intros Hm Hh s Hs. unfold catchM. specialize (Hm s Hs).
  destruct (m s) as [s' [a|e]]; cbn [fst] in *; [|apply Hh]; exact Hm.
Qed.

Lemma attempt_jar n url strategy :
  Pres (attempt Document readability getAttribute document_title extractDateFromDom
          extractImageFromDom getTextDirection sanitizeHtml net n url strategy).
Proof.
  intros s Hs. unfold attempt.
  destruct (tryFetchAndParse _ _ _ _ _ _ _ _ url strategy (cookieJar s) _) as [[r jar]|e] eqn:E;
    cbn [fst cookieJar]; [|exact Hs].
  exact (tryFetchAndParse_jar _ _ _ _ _ _ E Hs).
Qed.

Lemma fast_body_jar url :
  Pres (fast_body Document readability getAttribute document_title extractDateFromDom
          extractImageFromDom getTextDirection sanitizeHtml net url).
Proof.
  unfold fast_body.
  apply bind_jar; [apply attempt_jar|]. intros r.
  destruct (success r && (3000 <? quality r)); [apply ret_jar|].
  apply bind_jar.
  { destruct (negb (success r) || (quality r <? 3000));
      [apply bind_jar; [apply attempt_jar|intros _; apply ret_jar]|apply ret_jar]. }
  intros _. apply bind_jar; [apply gets_jar|]. intros jar.
  apply bind_jar.
  { destruct (0 <? List.length jar)%nat;
      [apply bind_jar; [apply attempt_jar|intros _; apply ret_jar]|apply ret_jar]. }
  intros _. apply bind_jar; [apply gets_jar|]. intros rs; apply ret_jar.
Qed.

(** X1: after any attempt, and at the end of a [fetchArticleWithFast]
    sequence, the cookie jar holds only the allow-listed names
    [datadome], [cf_clearance] and [__cf_bm]. *)
Theorem cookie_jar_allow_listed :
  (forall url strategy jar ev r jar',
     tryFetchAndParse Document readability getAttribute document_title extractDateFromDom
       extractImageFromDom getTextDirection sanitizeHtml url strategy jar ev = Ok (r, jar') ->
     jar_allowed jar = true -> jar_allowed jar' = true) /\
  (forall url res s,
     fetchArticleWithFast Document readability getAttribute document_title extractDateFromDom
       extractImageFromDom getTextDirection sanitizeHtml net url = Ok (res, s) ->
     jar_allowed (cookieJar s) = true).
Proof.
  split; [exact tryFetchAndParse_jar|].
  intros url res s. unfold fetchArticleWithFast.
  destruct (WUrl.parse_url url); cbn [bind_out]; [|discriminate].
  pose proof (catch_jar _ (fun _ => ret (SError "Failed to fetch article directly"))
                (fast_body_jar url) (fun _ => ret_jar _) (mkSeq [] [] []) eq_refl) as J.
  destruct (catchM _ _ (mkSeq [] [] [])) as [s' [r|e]]; cbn [fst] in J; [|discriminate].
  intros H; injection H as _ <-. exact J.
Qed.

End Jar.

Lemma cookie_jar_allow_listed_witness :
  exists res s,
    fast_with "  Hello world  " (fun _ _ _ => forbidden_with_cookie) "https://ex.com/a" = Ok (res, s) /\
    jar_allowed (cookieJar s) = true.
Proof.
  destruct (fast_with "  Hello world  " (fun _ _ _ => forbidden_with_cookie) "https://ex.com/a")
    as [[res s]|e] eqn:E; [|vm_compute in E; discriminate E].
  exists res, s. split; [reflexivity|].
  exact (proj2 (cookie_jar_allow_listed unit (reader "  Hello world  ") no_attr no_fact no_fact
           no_fact ltr keep_html (fun _ _ _ => forbidden_with_cookie)) "https://ex.com/a" res s E).
Defined.

Section Harvest.
Variable Document : Type.
Variable readability : string -> string -> Outcome (Document * option Parsed).
Variable getAttribute : Document -> string -> option string.
Variable document_title : Document -> option string.
Variable extractDateFromDom : Document -> option string.
Variable extractImageFromDom : Document -> option string.
Variable getTextDirection : option string -> string -> Dir.
Variable sanitizeHtml : string -> string.

(** C9: cookies are harvested only from attempts that end in a status
    (blocked or failed, with headers): an attempt whose body was read
    leaves the jar as it was, whatever its [Set-Cookie] header. So a 200
    response setting [datadome] adds nothing to the jar, while a 403 with
    the same header stores it. *)
Theorem cookie_harvest_status_only :
  (forall url strategy jar ev html st r jar',
     tryFetchWithStrategy strategy ev = Ok (AHtml html st) ->
     tryFetchAndParse Document readability getAttribute document_title extractDateFromDom
       extractImageFromDom getTextDirection sanitizeHtml url strategy jar ev = Ok (r, jar') ->
     jar' = jar) /\
  extractSetCookies (collect_headers cookie_headers) = [("datadome", "abc")] /\
  (exists r, try_with "  Hello world  " "https://ex.com/a" Browser [] ok_with_cookie = Ok (r, []) /\
             success r = true) /\
  (exists r, try_with "  Hello world  " "https://ex.com/a" Browser [] forbidden_with_cookie =
             Ok (r, [("datadome", "abc")]) /\ success r = false).
Proof.
  split; [|split; [vm_compute; reflexivity|split]].
  - intros url strategy jar ev html st r jar' Hev. unfold tryFetchAndParse. rewrite Hev.
    cbn [bind_out].
    destruct (parseHtml _ _ _ _ _ _ _ _ html url); intros H; injection H as _ <-; reflexivity.
  - eexists. split; [vm_compute; reflexivity|reflexivity].
  - eexists. split; [vm_compute; reflexivity|reflexivity].
Qed.

End Harvest.

Lemma cookie_harvest_status_only_witness :
  exists r, try_with "  Hello world  " "https://ex.com/a" Browser [("datadome", "x")] ok_with_cookie =
            Ok (r, [("datadome", "x")]).
Proof.
  destruct (try_with "  Hello world  " "https://ex.com/a" Browser [("datadome", "x")] ok_with_cookie)
    as [[r jar']|e] eqn:E; [|vm_compute in E; discriminate E].
  exists r.
  rewrite (proj1 (cookie_harvest_status_only unit (reader "  Hello world  ") no_attr no_fact no_fact
             no_fact ltr keep_html) "https://ex.com/a" Browser [("datadome", "x")] ok_with_cookie
             page Browser r jar' ltac:(vm_compute; reflexivity) E).
  reflexivity.
Defined.

End Claims.

(* ------------------------------------------------------------------ *)
(** ** Lemmas on the text helpers, the ad sanitizer and URL extraction *)

Module TextFacts.
Import JsStr Sanitize Facts CharClasses.

Lemma drop_cons (n : nat) (c : ascii) (r : string) : drop (S n) (String c r) = drop n r.
Proof. reflexivity. Qed.

Lemma substring_full (s : string) : substring 0 (String.length s) s = s.
Proof. induction s as [|c s IH]; simpl; congruence. Qed.

Lemma drop_0 (s : string) : drop 0 s = s.
Proof. unfold drop. rewrite Nat.sub_0_r. apply substring_full. Qed.

Lemma take_cons (n : nat) (c : ascii) (r : string) : take (S n) (String c r) = String c (take n r).
Proof. reflexivity. Qed.

Lemma take_0 (s : string) : take 0 s = "".
Proof. destruct s; reflexivity. Qed.

Lemma drop_nil (n : nat) : drop n "" = "".
Proof. destruct n; reflexivity. Qed.

Lemma take_nil (n : nat) : take n "" = "".
Proof. destruct n; reflexivity. Qed.

Lemma take_drop (n : nat) (s : string) : take n s ++ drop n s = s.
Proof.
  revert n; induction s as [|c s IH]; intros n.
  - rewrite take_nil, drop_nil; reflexivity.
  - destruct n as [|n]; [rewrite take_0, drop_0; reflexivity|].
    rewrite take_cons, drop_cons; simpl; now rewrite IH.
Qed.

Lemma length_drop (n : nat) (s : string) : String.length (drop n s) = (String.length s - n)%nat.
Proof.
  revert n; induction s as [|c s IH]; intros n.
  - now rewrite drop_nil.
  - destruct n as [|n]; [now rewrite drop_0|]. rewrite drop_cons, IH; reflexivity.
Qed.

Lemma length_take (n : nat) (s : string) : String.length (take n s) = Nat.min n (String.length s).
Proof.
  revert n; induction s as [|c s IH]; intros n.
  - rewrite take_nil; simpl; lia.
  - destruct n as [|n]; [rewrite take_0; reflexivity|]. rewrite take_cons; simpl; rewrite IH; reflexivity.
Qed.

Lemma length_append' (a b : string) : String.length (a ++ b) = (String.length a + String.length b)%nat.
Proof. induction a; simpl; congruence. Qed.

Lemma prefix_app (w x b : string) : String.prefix w x = true -> String.prefix w (x ++ b) = true.
Proof.
  revert x; induction w as [|c w IH]; intros x H; [destruct (x ++ b); reflexivity|].
  destruct x as [|d x]; [discriminate|]. simpl in *.
  destruct (ascii_dec c d); [now apply IH|discriminate].
Qed.

Lemma prefix_length (w x : string) : String.prefix w x = true -> (String.length w <= String.length x)%nat.
Proof.
  revert x; induction w as [|c w IH]; intros x H; simpl; [lia|].
  destruct x as [|d x]; [discriminate|]. simpl in *.
  destruct (ascii_dec c d); [apply IH in H; lia|discriminate].
Qed.

Lemma ws_at_zero (s : string) :
  ws_at s = 0%nat <-> forall w, In w ws_seqs -> starts_with s w = false.
Proof.
  unfold ws_at. split.
  - destruct (find _ ws_seqs) as [w|] eqn:E.
    + apply find_some in E as [Hin _]. apply ws_seqs_nonempty in Hin.
      destruct w; [congruence|discriminate].
    + intros _. exact (find_none _ _ E).
  - intros H. erewrite find_none_of; [reflexivity|exact H].
Qed.

Lemma ws_at_pos (s : string) : ws_at s <> 0%nat ->
  exists w, In w ws_seqs /\ starts_with s w = true /\ ws_at s = String.length w.
Proof.
  unfold ws_at. destruct (find _ ws_seqs) as [w|] eqn:E; [|congruence].
  intros _. apply find_some in E as [Hin Hs]. eauto.
Qed.

Lemma ws_at_end_pos (s : string) : ws_at_end s <> 0%nat ->
  exists w, In w ws_seqs /\ ends_with s w = true /\ ws_at_end s = String.length w.
Proof.
  unfold ws_at_end. destruct (find _ ws_seqs) as [w|] eqn:E; [|congruence].
  intros _. apply find_some in E as [Hin Hs]. eauto.
Qed.

Lemma length_rev_str (s : string) : String.length (rev_str s) = String.length s.
Proof. induction s; simpl; [reflexivity|]. rewrite length_append'; simpl; lia. Qed.

Lemma ws_at_le (s : string) : (ws_at s <= String.length s)%nat.
Proof.
  destruct (Nat.eq_dec (ws_at s) 0) as [->|H]; [lia|].
  destruct (ws_at_pos s H) as (w & _ & Hs & ->). now apply prefix_length.
Qed.

Lemma ws_at_end_le (s : string) : (ws_at_end s <= String.length s)%nat.
Proof.
  destruct (Nat.eq_dec (ws_at_end s) 0) as [->|H]; [lia|].
  destruct (ws_at_end_pos s H) as (w & _ & Hs & ->). unfold ends_with in Hs.
  apply prefix_length in Hs. rewrite !length_rev_str in Hs. exact Hs.
Qed.

(** [trim_start_fuel] removes a prefix, [trim_end_fuel] a suffix. *)
Lemma trim_start_suffix (f : nat) (s : string) : exists a, s = a ++ trim_start_fuel f s.
Proof.
  revert s; induction f as [|f IH]; intros s; [exists ""; reflexivity|].
  simpl. destruct (ws_at s) as [|k] eqn:E; [exists ""; reflexivity|].
  destruct (IH (drop (S k) s)) as [a Ha]. exists (take (S k) s ++ a).
  rewrite append_assoc', <- Ha. symmetry. apply take_drop.
Qed.

Lemma trim_end_prefix (f : nat) (s : string) : exists b, s = trim_end_fuel f s ++ b.
Proof.
  revert s; induction f as [|f IH]; intros s; [exists ""; now rewrite append_nil_r|].
  simpl. destruct (ws_at_end s) as [|k] eqn:E; [exists ""; now rewrite append_nil_r|].
  set (n := (String.length s - S k)%nat).
  destruct (IH (take n s)) as [b Hb]. exists (b ++ drop n s).
  rewrite <- append_assoc', <- Hb. symmetry. apply take_drop.
Qed.

Lemma trim_infix (s : string) : exists a b, s = a ++ trim s ++ b.
Proof.
  unfold trim. destruct (trim_start_suffix (String.length s) s) as [a Ha].
  destruct (trim_end_prefix (String.length s) (trim_start_fuel (String.length s) s)) as [b Hb].
  exists a, b. rewrite <- Hb. exact Ha.
Qed.

Lemma trim_start_clean (f : nat) (s : string) : (String.length s <= f)%nat ->
  ws_at (trim_start_fuel f s) = 0%nat.
Proof.
  revert s; induction f as [|f IH]; intros s Hl.
  - destruct s; [reflexivity|simpl in Hl; lia].
  - simpl. destruct (ws_at s) as [|k] eqn:E; [exact E|].
    apply IH. rewrite length_drop. pose proof (ws_at_le s). lia.
Qed.

Lemma trim_end_clean (f : nat) (s : string) : (String.length s <= f)%nat ->
  ws_at_end (trim_end_fuel f s) = 0%nat.
Proof.
  revert s; induction f as [|f IH]; intros s Hl.
  - destruct s; [reflexivity|simpl in Hl; lia].
  - simpl. destruct (ws_at_end s) as [|k] eqn:E; [exact E|].
    apply IH. rewrite length_take. pose proof (ws_at_end_le s). lia.
Qed.

Lemma ws_at_zero_prefix (x b : string) : ws_at (x ++ b) = 0%nat -> ws_at x = 0%nat.
Proof.
  rewrite !ws_at_zero. intros H w Hin.
  specialize (H w Hin). unfold starts_with in *.
  destruct (String.prefix w x) eqn:E; [|reflexivity].
  now rewrite (prefix_app _ _ _ E) in H.
Qed.

(** The result of [trim] starts and ends with no white space. *)
Lemma trim_clean (s : string) : ws_at (trim s) = 0%nat /\ ws_at_end (trim s) = 0%nat.
Proof.
  unfold trim. split.
  - set (t := trim_start_fuel (String.length s) s).
    destruct (trim_end_prefix (String.length s) t) as [b Hb].
    apply (ws_at_zero_prefix _ b). rewrite <- Hb. apply trim_start_clean. lia.
  - apply trim_end_clean.
    destruct (trim_start_suffix (String.length s) s) as [a Ha].
    assert (H := f_equal String.length Ha). rewrite length_append' in H. lia.
Qed.



Lemma nl_run_cons (c : ascii) (r : string) :
  nl_run (String c r) = if Ascii.eqb c LF then S (nl_run r) else 0%nat.
Proof. destruct c as [[] [] [] [] [] [] [] []]; reflexivity. Qed.

Lemma nl_run_drop (s : string) : nl_run (drop (nl_run s) s) = 0%nat.
Proof.
  induction s as [|c r IH]; [reflexivity|].
  rewrite nl_run_cons. destruct (Ascii.eqb c LF) eqn:E.
  - rewrite drop_cons. exact IH.
  - rewrite drop_0, nl_run_cons, E. reflexivity.
Qed.

Lemma nl_run_app_lf (q : string) : (2 <= nl_run (String LF (String LF q)))%nat.
Proof. rewrite !nl_run_cons. simpl. lia. Qed.

(** The LF run at the head of the output of [collapse_fuel] is the input's,
    cut at two. *)
Lemma collapse_nl_run (f : nat) (s : string) : (String.length s <= f)%nat ->
  nl_run (collapse_fuel f s) = Nat.min (nl_run s) 2.
Proof.
  revert s; induction f as [|f IH]; intros s Hl.
  - destruct s; [reflexivity|simpl in Hl; lia].
  - destruct s as [|c r]; [reflexivity|].
    cbn [collapse_fuel].
    destruct (3 <=? nl_run (String c r))%nat eqn:E3.
    + apply Nat.leb_le in E3.
      change (of_bytes [10; 10]) with (String LF (String LF "")). cbn [String.append].
      rewrite !(nl_run_cons LF). simpl Ascii.eqb. cbv iota.
      rewrite IH, nl_run_drop; [change (Nat.min 0 2) with 0%nat; symmetry; apply Nat.min_r; apply (Nat.le_trans _ 3); [repeat constructor|exact E3]|].
      rewrite length_drop. cbn [String.length] in Hl |- *. lia.
    + apply Nat.leb_gt in E3.
      rewrite !nl_run_cons in *. destruct (Ascii.eqb c LF); [|reflexivity].
      rewrite IH; [lia|simpl in Hl; lia].
Qed.

Lemma collapse_no_triple (f : nat) (s p q : string) : (String.length s <= f)%nat ->
  collapse_fuel f s <> p ++ String LF (String LF (String LF q)).
Proof.
  revert s p; induction f as [|f IH]; intros s p Hl Heq.
  - destruct s; [|simpl in Hl; lia].
    destruct p; discriminate.
  - destruct s as [|c r]; [destruct p; discriminate|].
    cbn [collapse_fuel] in Heq.
    destruct (3 <=? nl_run (String c r))%nat eqn:E3.
    + change (of_bytes [10; 10]) with (String LF (String LF "")) in Heq.
      cbn [String.append] in Heq.
      assert (Hlen : (String.length (drop (nl_run (String c r)) (String c r)) <= f)%nat).
      { rewrite length_drop. apply Nat.leb_le in E3. cbn [String.length] in Hl |- *. lia. }
      pose proof (collapse_nl_run f _ Hlen) as Hn. rewrite nl_run_drop in Hn.
      set (C := collapse_fuel f (drop (nl_run (String c r)) (String c r))) in *.
      destruct p as [|x [|y p]]; cbn [String.append] in Heq.
      * assert (HC : C = String LF q) by (now injection Heq).
        rewrite HC, nl_run_cons in Hn. simpl in Hn. lia.
      * assert (HC : C = String LF (String LF q)) by (now injection Heq).
        rewrite HC, nl_run_cons in Hn. simpl in Hn. lia.
      * assert (HC : C = p ++ String LF (String LF (String LF q))) by (now injection Heq).
        exact (IH _ _ Hlen HC).
    + apply Nat.leb_gt in E3.
      destruct p as [|x p]; cbn [String.append] in Heq; injection Heq as Hc Heq.
      * subst c. assert (Hr : (String.length r <= f)%nat) by (simpl in Hl; lia).
        pose proof (collapse_nl_run f r Hr) as Hn. rewrite Heq in Hn.
        pose proof (nl_run_app_lf q) as H2.
        rewrite nl_run_cons in E3. simpl in E3. lia.
      * simpl in Hl. exact (IH r p ltac:(lia) Heq).
Qed.

End TextFacts.

Module HtmlFacts.
Import JsStr Sanitize Html Facts TextFacts.

Lemma byte_inj (c d : ascii) : byte c = byte d -> c = d.
Proof.
  unfold byte. intros H. apply Nat2Z.inj in H.
  rewrite <- (ascii_nat_embedding c), <- (ascii_nat_embedding d), H. reflexivity.
Qed.

Lemma canon_lt (b : Z) : canon false b = 60 -> b = 60.
Proof.
  unfold canon, in_range. destruct ((97 <=? b) && (b <=? 122)) eqn:E; [|auto].
  apply andb_prop in E as [E1 E2]. apply Z.leb_le in E1. lia.
Qed.

Lemma ci_prefix_lt (w s : string) : ci_prefix false (String "<" w) s = true ->
  exists t, s = String "<" t.
Proof.
  destruct s as [|c t]; [discriminate|]. cbn [ci_prefix]. intros H.
  apply andb_prop in H as [H _]. apply Z.eqb_eq in H. symmetry in H.
  apply canon_lt in H. exists t. f_equal. apply byte_inj. exact H.
Qed.

Lemma rmatch_lit_lt (w : string) caps s k :
  (forall t, s <> String "<" t) -> rmatch (RLit (String "<" w)) caps s k = None.
Proof.
  intros Hs. cbn [rmatch]. destruct (ci_prefix false (String "<" w) s) eqn:E; [|reflexivity].
  destruct (ci_prefix_lt _ _ E) as [t Ht]. now destruct (Hs t).
Qed.

Lemma rmatch_seq_lt (rest : rx) caps s k :
  (forall t, s <> String "<" t) -> rmatch (RSeq (RLit "<") rest) caps s k = None.
Proof.
  intros Hs. cbn [rmatch]. destruct (ci_prefix false "<" s) eqn:E; [|reflexivity].
  destruct (ci_prefix_lt _ _ E) as [t Ht]. now destruct (Hs t).
Qed.

(** [replace_fuel] leaves a string without "<" as it is when the regex
    only matches at a "<". *)
Lemma replace_no_lt (f : nat) (m : string -> string -> option nat) (rprev s : string) :
  (forall rp t, (forall u, t <> String "<" u) -> m rp t = None) ->
  any_char (fun c => Ascii.eqb c "<") s = false ->
  replace_fuel f m rprev s = s.
Proof.
  intros Hm. revert rprev s. induction f as [|f IH]; intros rprev s Hs; [reflexivity|].
  destruct s as [|c r]; [reflexivity|]. cbn [any_char] in Hs.
  apply orb_false_iff in Hs as [Hc Hr]. cbn [replace_fuel].
  rewrite Hm.
  - f_equal. now apply IH.
  - intros u Hu. injection Hu as Hu _. subst c. discriminate.
Qed.

Lemma match_at_seq_lt (rest : rx) (t : string) :
  (forall u, t <> String "<" u) -> match_at (RSeq (RLit "<") rest) t = None.
Proof. intros Ht. unfold match_at. now apply rmatch_seq_lt. Qed.

Lemma replace_all_seq_lt (rest : rx) (s : string) :
  any_char (fun c => Ascii.eqb c "<") s = false ->
  replace_all (RSeq (RLit "<") rest) s = s.
Proof.
  intros Hs. unfold replace_all. apply replace_no_lt; [|exact Hs].
  intros _ t Ht. now apply match_at_seq_lt.
Qed.

Lemma replace_all_subseq (r : rx) (s : string) : subseq (replace_all r s) s.
Proof. apply replace_subseq. Qed.

Lemma fold_replace_subseq (l : list string) (s : string) :
  subseq (fold_left (fun acc p => replace_all (RLit p) acc) l s) s.
Proof.
  revert s; induction l as [|p l IH]; intros s; cbn [fold_left]; [apply subseq_refl|].
  eapply subseq_trans; [apply IH|apply replace_all_subseq].
Qed.

Lemma buildHtmlPattern_head : exists rest, buildHtmlPattern = RSeq (RLit "<") rest.
Proof. eexists; reflexivity. Qed.
Lemma buildNestedHtmlPattern_head : exists rest, buildNestedHtmlPattern = RSeq (RLit "<") rest.
Proof. eexists; reflexivity. Qed.
Lemma emptyWrapperPattern_head : exists rest, emptyWrapperPattern = RSeq (RLit "<") rest.
Proof. eexists; reflexivity. Qed.

Lemma escapeRegex_sources :
  forall w, In w (AD_KEYWORDS ++ AD_HTML_PATTERNS) -> escapeRegex w = w.
Proof.
  intros w Hin. vm_compute in Hin.
  repeat (destruct Hin as [<-|Hin]; [vm_compute; reflexivity|]). destruct Hin.
Qed.

End HtmlFacts.

Module UrlTextFacts.
Import JsStr Html UrlText Facts TextFacts HtmlFacts CharClasses.


Lemma all_chars_app (p : ascii -> bool) (x y : string) :
  all_chars p (x ++ y) = all_chars p x && all_chars p y.
Proof. induction x as [|c x IH]; simpl; [reflexivity|]. rewrite IH. apply andb_assoc. Qed.

Lemma take_add (h m : nat) (s : string) : take (h + m) s = take h s ++ take m (drop h s).
Proof.
  revert s; induction h as [|h IH]; intros s.
  - rewrite take_0, drop_0. reflexivity.
  - destruct s as [|c s]; [rewrite drop_nil, !take_nil; reflexivity|].
    simpl (S h + m)%nat. rewrite !take_cons, drop_cons, IH. reflexivity.
Qed.

Lemma byte_range (c : ascii) : 0 <= byte c < 256.
Proof. unfold byte. pose proof (nat_ascii_bounded c). lia. Qed.

Lemma existsb_eqb (b : Z) (l : list Z) : existsb (Z.eqb b) l = true <-> In b l.
Proof.
  rewrite existsb_exists. split.
  - intros [x [Hx E]]. apply Z.eqb_eq in E. now subst.
  - intros H. exists b. split; [exact H|apply Z.eqb_refl].
Qed.

Lemma chr_byte (c : ascii) : chr (byte c) = c.
Proof. unfold chr, byte. rewrite Nat2Z.id. apply ascii_nat_embedding. Qed.

Lemma url_class_ok (c : ascii) (r : string) : url_class c (String c r) = true -> url_ok c = true.
Proof.
  unfold url_class. intros H. apply andb_prop in H as [Hws Hd].
  apply Nat.eqb_eq in Hws. rewrite ws_at_zero in Hws.
  unfold url_ok. destruct (existsb (Z.eqb (byte c)) _) eqn:E; [|reflexivity]. exfalso.
  apply existsb_eqb in E.
  destruct E as [E|[E|[E|[E|[E|[E|[E|[E|[E|[]]]]]]]]]];
    rewrite <- (chr_byte c), <- E in Hws, Hd;
    try (vm_compute in Hd; discriminate);
    match type of E with
    | ?b = _ =>
        assert (Hin : In (String (chr b) "") ws_seqs) by (vm_compute; tauto);
        specialize (Hws _ Hin); destruct r; vm_compute in Hws; discriminate
    end.
Qed.

Lemma canon_cases (af : bool) (b : Z) : canon af b = b \/ canon af b = b - 32 /\
  ((af = false /\ 97 <= b <= 122) \/ (af = true /\ 160 <= b <= 190)).
Proof.
  unfold canon, in_range.
  destruct af.
  - destruct ((160 <=? b) && (b <=? 190) && negb (b =? 183)) eqn:E; [|auto].
    apply andb_prop in E as [E _]. apply andb_prop in E as [E1 E2].
    apply Z.leb_le in E1; apply Z.leb_le in E2. right. split; [reflexivity|]. right; auto.
  - destruct ((97 <=? b) && (b <=? 122)) eqn:E; [|auto].
    apply andb_prop in E as [E1 E2].
    apply Z.leb_le in E1; apply Z.leb_le in E2. right. split; [reflexivity|]. left; auto.
Qed.

(** Case folding never relates an excluded byte to another byte. *)
Lemma canon_url_ok (af : bool) (x y : ascii) :
  canon af (byte x) = canon af (byte y) -> url_ok x = url_ok y.
Proof.
  unfold url_ok. intros H.
  destruct (existsb (Z.eqb (byte x)) _) eqn:Ex, (existsb (Z.eqb (byte y)) _) eqn:Ey;
    try reflexivity; exfalso;
    [apply existsb_eqb in Ex | apply existsb_eqb in Ey];
    simpl in *;
    destruct (canon_cases af (byte x)) as [Hx|[Hx Hrx]];
    destruct (canon_cases af (byte y)) as [Hy|[Hy Hry]]; lia.
Qed.

Lemma ci_prefix_take (af : bool) (w s : string) :
  ci_prefix af w s = true -> all_chars url_ok w = true ->
  all_chars url_ok (take (String.length w) s) = true.
Proof.
  revert af s; induction w as [|k w IH]; intros af s H Hw.
  - rewrite take_0. reflexivity.
  - destruct s as [|c s]; [discriminate|]. cbn [ci_prefix] in H.
    apply andb_prop in H as [H1 H2]. apply Z.eqb_eq in H1.
    cbn [String.length]. rewrite take_cons. cbn [all_chars] in *.
    apply andb_prop in Hw as [Hk Hw].
    rewrite <- (canon_url_ok _ _ _ H1), Hk. simpl. exact (IH _ _ H2 Hw).
Qed.

Lemma ci_prefix_app_l (af : bool) (w1 w2 s : string) :
  ci_prefix af (w1 ++ w2) s = true -> ci_prefix af w1 s = true.
Proof.
  revert af s; induction w1 as [|k w IH]; intros af s H; [reflexivity|].
  destruct s as [|c s]; [discriminate|]. cbn [ci_prefix String.append] in *.
  apply andb_prop in H as [H1 H2]. rewrite H1. simpl. exact (IH _ _ H2).
Qed.

Lemma ci_prefix_app_r (af : bool) (w x y : string) :
  ci_prefix af w x = true -> ci_prefix af w (x ++ y) = true.
Proof.
  revert af x; induction w as [|k w IH]; intros af x H; [reflexivity|].
  destruct x as [|c x]; [discriminate|]. cbn [ci_prefix String.append] in *.
  apply andb_prop in H as [H1 H2]. rewrite H1. simpl. exact (IH _ _ H2).
Qed.

Lemma ci_prefix_take_self (af : bool) (w s : string) :
  ci_prefix af w s = true -> ci_prefix af w (take (String.length w) s) = true.
Proof.
  revert af s; induction w as [|k w IH]; intros af s H; [reflexivity|].
  destruct s as [|c s]; [discriminate|]. cbn [ci_prefix String.length] in *.
  rewrite take_cons. cbn [ci_prefix].
  apply andb_prop in H as [H1 H2]. rewrite H1. simpl. exact (IH _ _ H2).
Qed.

(** The last character taken under a case-insensitive prefix is related to
    the prefix's last character by case folding. *)
Lemma ci_prefix_last (af : bool) (w : string) (k : ascii) (s : string) :
  ci_prefix af (w ++ String k "") s = true ->
  exists x c af', take (String.length w + 1) s = x ++ String c "" /\
                  canon af' (byte k) = canon af' (byte c).
Proof.
  revert af s; induction w as [|k' w IH]; intros af s H.
  - destruct s as [|c s]; [discriminate|]. cbn [ci_prefix String.append] in H.
    apply andb_prop in H as [H1 _]. apply Z.eqb_eq in H1.
    exists "", c, af. split; [change (String.length "" + 1)%nat with 1%nat; rewrite take_cons, take_0; reflexivity|exact H1].
  - destruct s as [|c s]; [discriminate|]. cbn [ci_prefix String.append] in H.
    apply andb_prop in H as [_ H2]. destruct (IH _ _ H2) as (x & c' & af' & Hx & Hc).
    exists (String c x), c', af'. split; [|exact Hc].
    cbn [String.length]. simpl (S (String.length w) + 1)%nat. rewrite take_cons, Hx. reflexivity.
Qed.

Lemma canon_not_punct (af : bool) (k c : ascii) :
  (byte k = 47 \/ byte k = 119) -> canon af (byte k) = canon af (byte c) ->
  is_trailing_punct c = false.
Proof.
  intros Hk H. unfold is_trailing_punct.
  destruct (existsb (Ascii.eqb c) _) eqn:E; [|reflexivity]. exfalso.
  assert (Hb : In (byte c) [46; 44; 59; 33; 63; 41]).
  { simpl in E. repeat (apply orb_true_iff in E as [E|E];
      [apply Ascii.eqb_eq in E; subst c; vm_compute; tauto|]). discriminate. }
  simpl in Hb.
  destruct (canon_cases af (byte k)) as [Hx|[Hx Hrx]];
  destruct (canon_cases af (byte c)) as [Hy|[Hy Hry]]; lia.
Qed.

End UrlTextFacts.

Module UrlTextFacts2.
Import JsStr Html UrlText Facts TextFacts HtmlFacts UrlTextFacts CharClasses.

Lemma find_url_split (s c : string) : find_url s = Some c ->
  exists a s' n, s = a ++ s' /\ match_url s' = Some n /\ c = take n s'.
Proof.
  induction s as [|x r IH]; intros H; [discriminate|].
  cbn [find_url] in H. destruct (match_url (String x r)) as [n|] eqn:E.
  - injection H as <-. exists "", (String x r), n. auto.
  - destruct (IH H) as (a & s' & n & -> & Hm & Hc).
    exists (String x a), s', n. auto.
Qed.

Lemma body_lazy_ok (f : nat) (s : string) (m : nat) : body_lazy f s = Some m ->
  all_chars url_ok (take m s) = true.
Proof.
  revert s m; induction f as [|f IH]; intros s m H; [discriminate|].
  destruct s as [|c r]; [discriminate|]. cbn [body_lazy] in H.
  destruct (url_class c (String c r)) eqn:Ec; [|discriminate].
  pose proof (url_class_ok _ _ Ec) as Hc.
  destruct (lookahead_ok r).
  - injection H as <-. rewrite take_cons, take_0. cbn [all_chars]. now rewrite Hc.
  - destruct (body_lazy f r) as [m'|] eqn:Eb; [|discriminate].
    injection H as <-. rewrite take_cons. cbn [all_chars]. rewrite Hc. exact (IH _ _ Eb).
Qed.

Lemma match_url_shape (s : string) (n : nat) : match_url s = Some n ->
  exists w m, In w ["https://"; "http://"; "www."] /\ ci_prefix false w s = true /\
              n = (String.length w + m)%nat /\
              body_lazy (String.length s) (drop (String.length w) s) = Some m.
Proof.
  unfold match_url, url_head.
  destruct (ci_prefix false "https://" s) eqn:E1;
  [|destruct (ci_prefix false "http://" s) eqn:E2;
    [|destruct (ci_prefix false "www." s) eqn:E3; [|discriminate]]];
  (destruct (body_lazy _ _) as [m|] eqn:Eb; [|discriminate]);
  intros H; injection H as <-; eexists; exists m; repeat split; eauto; simpl; tauto.
Qed.

Lemma drop_while_suffix (p : ascii -> bool) (x : string) : exists y, x = y ++ drop_while p x.
Proof.
  induction x as [|c x IH]; [exists ""; reflexivity|]. cbn [drop_while].
  destruct (p c); [|exists ""; reflexivity].
  destruct IH as [y Hy]. exists (String c y). simpl. now rewrite <- Hy.
Qed.

Lemma drop_while_head (p : ascii -> bool) (x : string) (c : ascii) (y : string) :
  drop_while p x = String c y -> p c = false.
Proof.
  induction x as [|d x IH]; [discriminate|]. cbn [drop_while].
  destruct (p d) eqn:E; [exact IH|]. intros H. injection H as <- _. exact E.
Qed.

Lemma drop_while_app (p : ascii -> bool) (a b : string) :
  drop_while p (a ++ b) =
  match drop_while p a with EmptyString => drop_while p b | d => d ++ b end.
Proof.
  induction a as [|c a IH]; [reflexivity|]. cbn [drop_while String.append].
  destruct (p c); [exact IH|reflexivity].
Qed.

Lemma rev_str_single (c : ascii) (p : string) : rev_str (p ++ String c "") = String c (rev_str p).
Proof. rewrite rev_str_app. reflexivity. Qed.

Lemma string_last (x : string) : x = "" \/ exists p c, x = p ++ String c "".
Proof.
  destruct (rev_str x) as [|c t] eqn:E.
  - left. rewrite <- (rev_str_involutive x), E. reflexivity.
  - right. exists (rev_str t), c.
    rewrite <- (rev_str_involutive x), E. reflexivity.
Qed.

Lemma app_last_inj (x p : string) (c c' : ascii) :
  x ++ String c "" = p ++ String c' "" -> c = c'.
Proof.
  intros H. apply (f_equal rev_str) in H. rewrite !rev_str_single in H. congruence.
Qed.

Lemma strip_prefix (s : string) : exists e, s = strip_trailing_punct s ++ e.
Proof.
  unfold strip_trailing_punct.
  destruct (drop_while_suffix is_trailing_punct (rev_str s)) as [y Hy].
  exists (rev_str y). rewrite <- rev_str_app, <- Hy, rev_str_involutive. reflexivity.
Qed.

Lemma strip_last (s p : string) (c : ascii) :
  strip_trailing_punct s = p ++ String c "" -> is_trailing_punct c = false.
Proof.
  unfold strip_trailing_punct. intros H.
  apply (f_equal rev_str) in H. rewrite rev_str_involutive, rev_str_single in H.
  exact (drop_while_head _ _ _ _ H).
Qed.

Lemma strip_app (x y : string) :
  (forall p c, x = p ++ String c "" -> is_trailing_punct c = false) ->
  strip_trailing_punct (x ++ y) = x ++ strip_trailing_punct y.
Proof.
  intros Hx. unfold strip_trailing_punct.
  rewrite rev_str_app, drop_while_app.
  destruct (drop_while is_trailing_punct (rev_str y)) as [|d e] eqn:E.
  - destruct (string_last x) as [->|(p & c & ->)]; [reflexivity|].
    rewrite rev_str_single. cbn [drop_while]. rewrite (Hx p c eq_refl).
    rewrite <- rev_str_single, rev_str_involutive. cbn [rev_str]. now rewrite append_nil_r.
  - rewrite rev_str_app, rev_str_involutive. reflexivity.
Qed.

Lemma strip_keeps_prefix (w' : string) (k : ascii) (s : string) (N : nat) :
  ci_prefix false (w' ++ String k "") s = true -> (byte k = 47 \/ byte k = 119) ->
  (String.length w' + 1 <= N)%nat ->
  ci_prefix false (w' ++ String k "") (strip_trailing_punct (take N s)) = true.
Proof.
  intros Hci Hk HN.
  set (L := (String.length w' + 1)%nat).
  replace N with (L + (N - L))%nat by lia. rewrite take_add.
  destruct (ci_prefix_last _ _ _ _ Hci) as (x & c & af' & Hx & Hc).
  fold L in Hx. rewrite strip_app.
  - apply ci_prefix_app_r.
    assert (HL : String.length (w' ++ String k "") = L)
      by (unfold L; rewrite length_append'; reflexivity).
    rewrite <- HL. now apply ci_prefix_take_self.
  - intros p c' Hp. rewrite Hx in Hp. apply app_last_inj in Hp. subst c'.
    exact (canon_not_punct _ _ _ Hk Hc).
Qed.

(** The shape of a URL found by [extractFirstUrl]. *)
Lemma extractFirstUrl_shape (t u : string) : extractFirstUrl t = Some u ->
  (exists a b, t = a ++ u ++ b) /\
  (ci_prefix false "https://" u || ci_prefix false "http://" u || ci_prefix false "www" u) = true /\
  all_chars url_ok u = true /\
  (forall p c, u = p ++ String c "" -> is_trailing_punct c = false).
Proof.
  unfold extractFirstUrl. destruct (String.eqb t "") ; [discriminate|].
  destruct (find_url t) as [cand|] eqn:F; [|discriminate]. intros H. injection H as <-.
  destruct (find_url_split _ _ F) as (a & s & n & -> & Hm & ->).
  destruct (match_url_shape _ _ Hm) as (w & m & Hin & Hci & -> & Hb).
  destruct (strip_prefix (take (String.length w + m) s)) as [e He].
  split; [|split; [|split]].
  - exists a, (e ++ drop (String.length w + m) s).
    rewrite <- (append_assoc' (strip_trailing_punct _) e), <- He, take_drop. reflexivity.
  - destruct Hin as [<-|[<-|[<-|[]]]].
    + change "https://" with ("https:/" ++ String "/" "") in Hci |- *.
      rewrite (strip_keeps_prefix _ _ _ _ Hci); [reflexivity|left; reflexivity|simpl; lia].
    + change "http://" with ("http:/" ++ String "/" "") in Hci |- *.
      rewrite (strip_keeps_prefix _ _ _ _ Hci); [|left; reflexivity|simpl; lia].
      destruct (ci_prefix false "https://" _); reflexivity.
    + change "www." with ("www" ++ ".") in Hci. apply ci_prefix_app_l in Hci.
      change "www" with ("ww" ++ String "w" "") in Hci |- *.
      rewrite (strip_keeps_prefix _ _ _ _ Hci); [|right; reflexivity|simpl; lia].
      rewrite !orb_true_r. reflexivity.
  - assert (Hall : all_chars url_ok (take (String.length w + m) s) = true).
    { rewrite take_add, all_chars_app. apply andb_true_intro. split.
      - apply (ci_prefix_take false); [exact Hci|].
        destruct Hin as [<-|[<-|[<-|[]]]]; reflexivity.
      - exact (body_lazy_ok _ _ _ Hb). }
    rewrite He, all_chars_app in Hall. now apply andb_prop in Hall as [Hall _].
  - intros p c Hp. exact (strip_last _ _ _ Hp).
Qed.

End UrlTextFacts2.

Module UrlTextFacts3.
Import JsStr Html UrlText Facts TextFacts HtmlFacts UrlTextFacts UrlTextFacts2 CharClasses.

Lemma canon_graph (af : bool) (k c : ascii) :
  graph_char k = true -> canon af (byte k) = canon af (byte c) -> graph_char c = true.
Proof.
  unfold graph_char, in_range. intros Hk H.
  apply andb_prop in Hk as [Hk1 Hk2]. apply Z.leb_le in Hk1, Hk2.
  destruct (canon_cases af (byte k)) as [Hx|[Hx Hrx]];
  destruct (canon_cases af (byte c)) as [Hy|[Hy Hry]];
  apply andb_true_intro; split; apply Z.leb_le; lia.
Qed.

Lemma ci_prefix_graph (af : bool) (w s : string) :
  ci_prefix af w s = true -> all_chars graph_char w = true ->
  all_chars graph_char (take (String.length w) s) = true.
Proof.
  revert af s; induction w as [|k w IH]; intros af s H Hw.
  - rewrite take_0. reflexivity.
  - destruct s as [|c s]; [discriminate|]. cbn [ci_prefix] in H.
    apply andb_prop in H as [H1 H2]. apply Z.eqb_eq in H1.
    cbn [String.length]. rewrite take_cons. cbn [all_chars] in *.
    apply andb_prop in Hw as [Hk Hw].
    rewrite (canon_graph _ _ _ Hk H1). simpl. exact (IH _ _ H2 Hw).
Qed.

Lemma ws_at_graph (c : ascii) (r : string) : graph_char c = true -> ws_at (String c r) = 0%nat.
Proof.
  intros Hc. apply ws_at_zero. intros w Hin. vm_compute in Hin.
  unfold graph_char, in_range in Hc.
  apply andb_prop in Hc as [H1 H2]. apply Z.leb_le in H1, H2.
  repeat (destruct Hin as [<-|Hin];
    [unfold starts_with; cbn [String.prefix];
     destruct (ascii_dec _ c) as [E|]; [apply (f_equal byte) in E; rewrite <- E in H1, H2; unfold byte in H1, H2; simpl in H1, H2; lia|reflexivity]|]).
  destruct Hin.
Qed.

Lemma take_graph_pos (n : nat) (s a b : string) :
  all_chars graph_char (take n s) = true -> s = a ++ b ->
  (String.length a < n)%nat -> ws_at b = 0%nat.
Proof.
  revert n s; induction a as [|x a IH]; intros n s Hg Hs Hl.
  - cbn [String.append] in Hs. subst s. destruct b as [|c r]; [reflexivity|].
    destruct n as [|n]; [simpl in Hl; lia|]. rewrite take_cons in Hg.
    cbn [all_chars] in Hg. apply andb_prop in Hg as [Hg _]. exact (ws_at_graph _ _ Hg).
  - destruct n as [|n]; [simpl in Hl; lia|]. subst s. cbn [String.append] in Hg.
    rewrite take_cons in Hg. cbn [all_chars] in Hg. apply andb_prop in Hg as [_ Hg].
    apply (IH n _ Hg eq_refl). simpl in Hl. lia.
Qed.

Lemma body_lazy_ws (f : nat) (s : string) (m : nat) : body_lazy f s = Some m ->
  forall a b, s = a ++ b -> (String.length a < m)%nat -> ws_at b = 0%nat.
Proof.
  revert s m; induction f as [|f IH]; intros s m H a b Hs Hl; [discriminate|].
  destruct s as [|c r]; [discriminate|]. cbn [body_lazy] in H.
  destruct (url_class c (String c r)) eqn:Ec; [|discriminate].
  destruct a as [|x a].
  - cbn [String.append] in Hs. subst b. unfold url_class in Ec.
    apply andb_prop in Ec as [Ec _]. now apply Nat.eqb_eq in Ec.
  - cbn [String.append] in Hs. injection Hs as _ Hr.
    destruct (lookahead_ok r).
    + injection H as <-. simpl in Hl. lia.
    + destruct (body_lazy f r) as [m'|] eqn:Eb; [|discriminate].
      injection H as <-. apply (IH _ _ Eb a b Hr). simpl in Hl. lia.
Qed.

Lemma app_split_long (x y a b : string) : x ++ y = a ++ b ->
  (String.length x <= String.length a)%nat -> exists a2, a = x ++ a2 /\ y = a2 ++ b.
Proof.
  revert a; induction x as [|c x IH]; intros a H Hl.
  - exists a. split; [reflexivity|exact H].
  - destruct a as [|d a]; [simpl in Hl; lia|]. cbn [String.append] in H.
    injection H as <- H. destruct (IH a H) as (a2 & -> & ->); [simpl in Hl; lia|].
    exists a2. split; reflexivity.
Qed.

Lemma clean_take (n : nat) (s : string) :
  (forall a b, s = a ++ b -> (String.length a < n)%nat -> ws_at b = 0%nat) ->
  forall a b, take n s = a ++ b -> ws_at b = 0%nat.
Proof.
  intros H a b Ht. destruct b as [|c r]; [reflexivity|].
  apply (ws_at_zero_prefix _ (drop n s)).
  apply (H a). { rewrite <- append_assoc', <- Ht. symmetry. apply take_drop. }
  assert (Hlen := f_equal String.length Ht). rewrite length_take, length_append' in Hlen.
  simpl in Hlen. lia.
Qed.

Lemma index_none_clean (w x : string) : w <> "" ->
  (forall a b, x = a ++ b -> starts_with b w = false) -> String.index 0 w x = None.
Proof.
  intros Hw. induction x as [|c x IH]; intros H.
  - destruct w; [congruence|reflexivity].
  - cbn [String.index]. assert (H0 := H "" _ eq_refl). unfold starts_with in H0. rewrite H0.
    rewrite IH; [reflexivity|]. intros a b Hx. apply (H (String c a)). simpl. congruence.
Qed.

(** A URL found by [extractFirstUrl] holds no white space character. *)
Lemma extractFirstUrl_no_ws (t u : string) : extractFirstUrl t = Some u -> has_ws u = false.
Proof.
  unfold extractFirstUrl. destruct (String.eqb t "") ; [discriminate|].
  destruct (find_url t) as [cand|] eqn:F; [|discriminate]. intros H. injection H as <-.
  destruct (find_url_split _ _ F) as (a0 & s & n & _ & Hm & ->).
  destruct (match_url_shape _ _ Hm) as (w & m & Hin & Hci & -> & Hb).
  destruct (strip_prefix (take (String.length w + m) s)) as [e He].
  assert (Hpos : forall a b, s = a ++ b -> (String.length a < String.length w + m)%nat ->
                 ws_at b = 0%nat).
  { intros a b Hs Hl.
    destruct (Nat.lt_ge_cases (String.length a) (String.length w)) as [Hlt|Hge].
    - apply (take_graph_pos (String.length w) s a b); [|exact Hs|exact Hlt].
      apply (ci_prefix_graph false); [exact Hci|].
      destruct Hin as [<-|[<-|[<-|[]]]]; reflexivity.
    - assert (Hs' : take (String.length w) s ++ drop (String.length w) s = a ++ b)
        by (rewrite take_drop; exact Hs).
      assert (Hlw : String.length (take (String.length w) s) = String.length w).
      { rewrite length_take. apply Nat.min_l.
        destruct Hin as [<-|[<-|[<-|[]]]]; revert Hci; clear; revert s;
        intros s H; apply Nat.nlt_ge; intros Hl;
        destruct s as [|c1 [|c2 [|c3 [|c4 [|c5 [|c6 [|c7 [|c8 s]]]]]]]];
        simpl in Hl; try lia; simpl in H; rewrite ?andb_false_r in H; discriminate. }
      destruct (app_split_long _ _ _ _ Hs') as (a2 & Ha & Hd); [lia|].
      apply (body_lazy_ws _ _ _ Hb a2 b Hd).
      rewrite Ha, length_append' in Hl. lia. }
  assert (Hclean := clean_take _ _ Hpos).
  unfold has_ws. apply Bool.not_true_iff_false. intros Hex.
  apply existsb_exists in Hex as (w' & Hw' & Hi).
  rewrite (index_none_clean w') in Hi; [discriminate|exact (ws_seqs_nonempty _ Hw')|].
  intros a b Hu. apply (ws_at_zero b); [|exact Hw'].
  apply (ws_at_zero_prefix _ e). apply (Hclean a). rewrite He, Hu, append_assoc'. reflexivity.
Qed.

End UrlTextFacts3.

Module ExtraLemmas.
Import JsStr Sanitize Html UrlText Facts TextFacts HtmlFacts CharClasses.

Lemma sanitizeText_no_triple_lf (t p q : string) :
  sanitizeText t <> p ++ of_bytes [10; 10; 10] ++ q.
Proof.
  change (of_bytes [10; 10; 10] ++ q) with (String LF (String LF (String LF q))).
  unfold sanitizeText. destruct (String.eqb t "") eqn:E.
  - apply String.eqb_eq in E. subst t. intros H.
    destruct p; discriminate.
  - cbv zeta.
    set (r := replace_fuel _ _ _ _).
    set (c := collapse_fuel (String.length r) r).
    destruct (trim_infix c) as [a [b Hab]]. intros H.
    apply (collapse_no_triple (String.length r) r (a ++ p) (q ++ b)); [lia|].
    fold c. rewrite Hab, H.
    rewrite !append_assoc'. reflexivity.
Qed.

Lemma lt_patterns : forall p, In p AD_HTML_PATTERNS -> exists w, p = String "<" w.
Proof.
  intros p Hin. vm_compute in Hin.
  repeat (destruct Hin as [<-|Hin]; [eexists; reflexivity|]). destruct Hin.
Qed.

Lemma fold_replace_no_lt (l : list string) (s : string) :
  (forall p, In p l -> exists w, p = String "<" w) ->
  any_char (fun c => Ascii.eqb c "<") s = false ->
  fold_left (fun acc p => replace_all (RLit p) acc) l s = s.
Proof.
  revert s; induction l as [|p l IH]; intros s Hl Hs; [reflexivity|].
  cbn [fold_left].
  assert (E : replace_all (RLit p) s = s).
  { destruct (Hl p (or_introl eq_refl)) as [w ->].
    unfold replace_all. apply replace_no_lt; [|exact Hs].
    intros _ t Ht. unfold match_at. now apply rmatch_lit_lt. }
  rewrite E. apply IH; [|exact Hs]. intros q Hq. apply Hl. now right.
Qed.

Lemma sanitizeHtml_no_lt (html : string) :
  any_char (fun c => Ascii.eqb c "<") html = false -> sanitizeHtml html = html.
Proof.
  intros H. unfold sanitizeHtml. destruct (String.eqb html ""); [reflexivity|].
  rewrite (fold_replace_no_lt _ _ lt_patterns H).
  destruct buildNestedHtmlPattern_head as [r1 ->].
  destruct buildHtmlPattern_head as [r2 ->].
  destruct emptyWrapperPattern_head as [r3 ->].
  rewrite (replace_all_seq_lt r1 html H), (replace_all_seq_lt r2 html H).
  exact (replace_all_seq_lt r3 html H).
Qed.

Lemma sanitizeHtml_subseq (html : string) :
  subseq (sanitizeHtml html) html /\ js_length (sanitizeHtml html) <= js_length html.
Proof.
  assert (H : subseq (sanitizeHtml html) html).
  { unfold sanitizeHtml. destruct (String.eqb html ""); [apply subseq_refl|].
    eapply subseq_trans; [apply replace_all_subseq|].
    eapply subseq_trans; [apply replace_all_subseq|].
    eapply subseq_trans; [apply replace_all_subseq|].
    apply fold_replace_subseq. }
  split; [exact H|]. now apply subseq_js_length.
Qed.

Lemma sanitizeText_clean (t : string) :
  subseq (sanitizeText t) t /\ (js_length (sanitizeText t) <= js_length t)%Z /\
  ws_at (sanitizeText t) = 0%nat /\ ws_at_end (sanitizeText t) = 0%nat.
Proof.
  split; [apply sanitizeText_subseq|]. split; [apply subseq_js_length, sanitizeText_subseq|].
  unfold sanitizeText. destruct (String.eqb t "") eqn:Ht; [|apply trim_clean].
  apply String.eqb_eq in Ht. subst t. split; reflexivity.
Qed.

End ExtraLemmas.

Module UrlLemmas.
Import JsStr UrlTs UrlText Facts UrlFacts TextFacts.

Lemma trim_idem (s : string) : trim (trim s) = trim s.
Proof.
  destruct (trim_clean s) as [H1 H2]. set (t := trim s) in *. clearbody t.
  unfold trim. destruct (String.length t) as [|n] eqn:E.
  - destruct t; [reflexivity|discriminate].
  - cbn [trim_start_fuel]. rewrite H1. cbn [trim_end_fuel]. rewrite H2. reflexivity.
Qed.

Lemma normalizeUrl_trim (u : string) : normalizeUrl (trim u) = normalizeUrl u.
Proof. unfold normalizeUrl. rewrite trim_idem. reflexivity. Qed.

Lemma extractArticleUrl_trim (u : string) : extractArticleUrl (trim u) = extractArticleUrl u.
Proof. unfold extractArticleUrl. rewrite !normalizeUrl_trim. reflexivity. Qed.

Lemma NormalizedUrlSchema_trim (u : string) : NormalizedUrlSchema (trim u) = NormalizedUrlSchema u.
Proof. unfold NormalizedUrlSchema. rewrite trim_idem. reflexivity. Qed.

Lemma break_app (p : ascii -> bool) (r a y z : string) (x : ascii) :
  break p r = (a, String x y) -> break p (a ++ String x z) = (a, String x z).
Proof.
  revert a; induction r as [|c r IH]; intros a H; [discriminate|].
  cbn [break] in H. destruct (p c) eqn:Ep.
  - assert (HC : ("", String c r) = (a, String x y)) by exact H.
    injection HC as <- <- _. cbn [break append]. now rewrite Ep.
  - destruct (break p r) as [a' b] eqn:Eb.
    assert (HC : (String c a', b) = (a, String x y)) by exact H.
    injection HC as <- ->. cbn [break append]. rewrite Ep.
    now rewrite (IH a' eq_refl).
Qed.

Lemma scheme_colon_app (s sch rest z : string) :
  scheme_colon s = Some (sch, rest) -> scheme_colon (sch ++ ":" ++ z) = Some (sch, z).
Proof.
  destruct s as [|c r]; [discriminate|]. cbn [scheme_colon].
  destruct (is_alpha c) eqn:Ea; [|discriminate].
  destruct (break (fun x => negb (WUrl.is_scheme_char x)) r) as [a [|x y]] eqn:Eb; [discriminate|].
  destruct x as [[] [] [] [] [] [] [] []]; try discriminate.
  intros H. assert (HC : Some (String c a, y) = Some (sch, rest)) by exact H.
  injection HC as <- _. cbn [append scheme_colon]. rewrite Ea.
  rewrite (break_app _ _ _ _ z _ Eb). reflexivity.
Qed.

Lemma repair_cases (s : string) :
  repairProtocol s = s \/
  exists sch rest, scheme_colon s = Some (sch, "/" ++ rest) /\ starts_with rest "/" = false /\
                   repairProtocol s = sch ++ "://" ++ rest.
Proof.
  unfold repairProtocol. destruct (scheme_colon s) as [[sch [|x rest]]|] eqn:E; [left; reflexivity| |left; reflexivity].
  destruct x as [[] [] [] [] [] [] [] []]; try (left; reflexivity).
  destruct (starts_with rest "/") eqn:Es; [left; reflexivity|].
  right. exists sch, rest. repeat split; assumption.
Qed.

Lemma repairProtocol_idem (s : string) : repairProtocol (repairProtocol s) = repairProtocol s.
Proof.
  destruct (repair_cases s) as [H|[sch [rest [Hs [Hr H]]]]]; rewrite H; [exact H|].
  change ("://" ++ rest) with (":" ++ ("//" ++ rest)).
  unfold repairProtocol at 1. rewrite (scheme_colon_app _ _ _ _ Hs). simpl.
  destruct rest; reflexivity.
Qed.

Lemma extractArticleUrl_throw_iff (u m : string) :
  extractArticleUrl u = Throw m <-> normalizeUrl u = Throw m.
Proof.
  unfold extractArticleUrl. split.
  - destruct (normalizeUrl u) as [c|e] eqn:E; [|exact (fun h => h)].
    destruct (WUrl.parse_url c); discriminate.
  - intros H. rewrite H. reflexivity.
Qed.

Lemma NormalizedUrlSchema_ok (i c : string) : NormalizedUrlSchema i = Ok c ->
  js_length (trim i) <= MAX_URL_LENGTH /\
  exists x, (x = trim i \/ extractFirstUrl (trim i) = Some x) /\ normalizeUrl x = Ok c.
Proof.
  unfold NormalizedUrlSchema. set (v := trim i). cbv zeta.
  destruct (MAX_URL_LENGTH <? js_length v) eqn:El; [discriminate|].
  apply Z.ltb_ge in El. intros H. split; [exact El|].
  assert (Hft : (match extractFirstUrl v with
                 | Some extracted =>
                     if truthy (Some extracted) then
                       match normalizeUrl extracted with Ok c => Ok c | Throw _ => normalizeUrl v end
                     else normalizeUrl v
                 | None => normalizeUrl v end) = Ok c ->
                exists x, (x = v \/ extractFirstUrl v = Some x) /\ normalizeUrl x = Ok c).
  { destruct (extractFirstUrl v) as [x|] eqn:Ex.
    - destruct (truthy (Some x)).
      + destruct (normalizeUrl x) eqn:En.
        * intros Hc. exists x. split; [now right|]. now rewrite En.
        * intros Hc. exists v. split; [now left|exact Hc].
      + intros Hc. exists v. split; [now left|exact Hc].
    - intros Hc. exists v. split; [now left|exact Hc]. }
  destruct (negb (protocol_test (drop 1 v))); [|exact (Hft H)].
  destruct (isValidUrl v); [|exact (Hft H)].
  destruct (normalizeUrl v) eqn:En; [|exact (Hft H)].
  exists v. split; [now left|]. now rewrite En.
Qed.

Lemma NormalizedUrlSchema_throw (i m : string) : NormalizedUrlSchema i = Throw m ->
  (MAX_URL_LENGTH < js_length (trim i) /\ m = MAX_ERR) \/
  (js_length (trim i) <= MAX_URL_LENGTH /\ normalizeUrl i = Throw m).
Proof.
  rewrite <- normalizeUrl_trim.
  unfold NormalizedUrlSchema. set (v := trim i). cbv zeta.
  destruct (MAX_URL_LENGTH <? js_length v) eqn:El.
  - intros H. left. apply Z.ltb_lt in El. split; [exact El|]. congruence.
  - apply Z.ltb_ge in El. intros H. right. split; [exact El|].
    destruct (normalizeUrl v) as [c|e] eqn:En.
    + exfalso. revert H.
      assert (Hft : (match extractFirstUrl v with
                 | Some extracted =>
                     if truthy (Some extracted) then
                       match normalizeUrl extracted with Ok c => Ok c | Throw _ => Ok c end
                     else Ok c
                 | None => Ok c end) <> Throw m).
      { destruct (extractFirstUrl v) as [x|]; [|congruence].
        destruct (truthy _); [|congruence]. destruct (normalizeUrl x); congruence. }
      destruct (negb (protocol_test (drop 1 v))); [destruct (isValidUrl v)|].
      * intros H. discriminate H.
      * exact Hft.
      * exact Hft.
    + assert (Hft : (match extractFirstUrl v with
                 | Some extracted =>
                     if truthy (Some extracted) then
                       match normalizeUrl extracted with Ok c => Ok c | Throw _ => Throw e end
                     else Throw e
                 | None => Throw e end) = Throw m -> (Throw e : Outcome string) = Throw m).
      { destruct (extractFirstUrl v) as [x|]; [|exact (fun h => h)].
        destruct (truthy _); [|exact (fun h => h)]. destruct (normalizeUrl x); [discriminate|exact (fun h => h)]. }
      destruct (negb (protocol_test (drop 1 v))); [destruct (isValidUrl v)|]; exact (Hft H).
Qed.

Lemma NormalizedUrlSchema_accepts (i c : string) :
  js_length (trim i) <= MAX_URL_LENGTH -> normalizeUrl i = Ok c ->
  exists c', NormalizedUrlSchema i = Ok c'.
Proof.
  intros Hl Hn. destruct (NormalizedUrlSchema i) as [c'|m] eqn:E; [now exists c'|].
  destruct (NormalizedUrlSchema_throw i m E) as [[H _]|[_ H]]; [lia|congruence].
Qed.

End UrlLemmas.

Module LengthFacts.
Import JsStr Facts TextFacts.

Lemma js_length_app (a b : string) : js_length (a ++ b) = js_length a + js_length b.
Proof. induction a as [|c a IH]; simpl; [reflexivity|]. rewrite IH. lia. Qed.

Lemma js_length_nonneg (s : string) : 0 <= js_length s.
Proof. apply (subseq_js_length "" s), subseq_nil_l. Qed.

Lemma take_app_length (a b : string) : take (String.length a) (a ++ b) = a.
Proof.
  induction a as [|c a IH]; [apply take_0|]. cbn [String.length String.append].
  rewrite take_cons, IH. reflexivity.
Qed.

End LengthFacts.

Module SanitizeFacts.
Import JsStr Sanitize Facts TextFacts LengthFacts.

Lemma weight_at (s : string) (i k : nat) (c : ascii) (r : string) :
  drop i s = String c r -> (i < k)%nat -> unit_weight c <= js_length (take k s).
Proof.
  revert i k; induction s as [|d s IH]; intros i k Hd Hl.
  - rewrite drop_nil in Hd. discriminate.
  - destruct k as [|k]; [lia|]. rewrite take_cons. cbn [js_length].
    destruct i as [|i].
    + rewrite drop_0 in Hd. injection Hd as -> _. pose proof (js_length_nonneg (take k s)). lia.
    + rewrite drop_cons in Hd. pose proof (IH i k Hd ltac:(lia)).
      pose proof (unit_weight_nonneg d). lia.
Qed.

Lemma first_some {A B} (f : A -> option B) (l : list A) (b : B) :
  first f l = Some b -> exists x, In x l /\ f x = Some b.
Proof.
  induction l as [|x l IH]; intros H; [discriminate|]. cbn [first] in H.
  destruct (f x) as [b'|] eqn:E.
  - injection H as <-. exists x. split; [left; reflexivity|exact E].
  - destruct (IH H) as (y & Hy & Hf). exists y. split; [right; exact Hy|exact Hf].
Qed.

Lemma AD_KEYWORDS_head : forall kw, In kw AD_KEYWORDS ->
  exists k r, kw = String k r /\ in_range 97 122 (byte k) = true.
Proof.
  assert (H : forallb (fun kw => match kw with String k _ => in_range 97 122 (byte k)
                                              | EmptyString => false end) AD_KEYWORDS = true)
    by (vm_compute; reflexivity).
  intros kw Hin. rewrite forallb_forall in H. specialize (H kw Hin).
  destruct kw as [|k r]; [discriminate|]. exists k, r. auto.
Qed.

Lemma weight_ascii_letter (c : ascii) : 65 <= byte c <= 122 -> unit_weight c = 1.
Proof.
  intros H. unfold unit_weight.
  destruct ((128 <=? byte c) && (byte c <? 192)) eqn:E.
  - apply andb_prop in E as [E _]. apply Z.leb_le in E. lia.
  - destruct (240 <=? byte c) eqn:E2; [apply Z.leb_le in E2; lia|reflexivity].
Qed.

(** A line removed by [line_match] holds a keyword letter, which counts one
    UTF-16 unit. *)
Lemma line_match_weight (rprev s : string) (k : nat) : line_match rprev s = Some k ->
  1 <= js_length (take k s).
Proof.
  unfold line_match. destruct (negb (at_line_start rprev)); [discriminate|].
  intros H. apply first_some in H as (i & _ & H).
  apply first_some in H as (kw & Hkw & H).
  destruct (kw_prefix false kw (drop i s)) eqn:Ekw; [|discriminate].
  apply first_some in H as (j & _ & H).
  destruct (at_line_end _); [|discriminate]. injection H as <-.
  destruct (AD_KEYWORDS_head kw Hkw) as (kc & kr & -> & Hk).
  destruct (drop i s) as [|c r] eqn:Ed; [discriminate|].
  cbn [kw_prefix] in Ekw. apply andb_prop in Ekw as [Ekw _].
  unfold in_range in Hk. apply andb_prop in Hk as [Hk1 Hk2]. apply Z.leb_le in Hk1, Hk2.
  assert (Hc : 65 <= byte c <= 122).
  { apply orb_prop in Ekw as [E|E].
    - apply Z.eqb_eq in E. lia.
    - apply andb_prop in E as [_ E]. apply Z.eqb_eq in E. lia. }
  rewrite <- (weight_ascii_letter c Hc).
  apply (weight_at s i _ c r Ed). cbn [String.length]. lia.
Qed.

Lemma replace_strict (fuel : nat) (rprev s : string) :
  replace_fuel fuel line_match rprev s = s \/
  js_length (replace_fuel fuel line_match rprev s) < js_length s.
Proof.
  revert rprev s. induction fuel as [|f IH]; intros rprev s; [left; reflexivity|].
  destruct s as [|c r]; [left; reflexivity|]. cbn [replace_fuel].
  destruct (line_match rprev (String c r)) as [[|k]|] eqn:Em.
  - destruct (IH (String c rprev) r) as [-> | Hlt]; [left; reflexivity|right; simpl; lia].
  - right. pose proof (line_match_weight _ _ _ Em) as Hw.
    pose proof (subseq_js_length _ _ (replace_subseq line_match f
      (rev_str (take (S k) (String c r)) ++ rprev) (drop (S k) (String c r)))) as Hr.
    rewrite <- (take_drop (S k) (String c r)) at 3. rewrite js_length_app. lia.
  - destruct (IH (String c rprev) r) as [-> | Hlt]; [left; reflexivity|right; simpl; lia].
Qed.

Lemma nl_run_pos (s : string) : (1 <= nl_run s)%nat -> exists s3, s = String "010" s3.
Proof.
  destruct s as [|c s3]; simpl; [lia|].
  destruct c as [[] [] [] [] [] [] [] []]; simpl; try lia. intros _. exists s3. reflexivity.
Qed.

Lemma collapse_strict (fuel : nat) (s : string) :
  collapse_fuel fuel s = s \/ js_length (collapse_fuel fuel s) < js_length s.
Proof.
  revert s. induction fuel as [|f IH]; intros s; [left; reflexivity|].
  destruct s as [|c r]; [left; reflexivity|]. cbn [collapse_fuel].
  destruct (3 <=? nl_run (String c r))%nat eqn:E.
  - right. apply Nat.leb_le in E. destruct (nl_run_shape _ E) as (s2 & Hs & Hn).
    rewrite Hn, Hs. rewrite Hn in E.
    destruct (nl_run_pos s2 ltac:(lia)) as [s3 ->].
    cbn [nl_run]. rewrite !drop_cons.
    pose proof (subseq_js_length _ _ (collapse_subseq f (drop (nl_run s3) s3))).
    pose proof (subseq_js_length _ _ (drop_subseq (nl_run s3) s3)).
    change (of_bytes [10; 10]%Z) with (String "010" (String "010" "")).
    cbn [String.append js_length]. change (unit_weight "010") with 1. lia.
  - destruct (IH r) as [-> | Hlt]; [left; reflexivity|right; simpl; lia].
Qed.

Lemma ws_seqs_head : forall w, In w ws_seqs ->
  exists b w', w = String b w' /\ unit_weight b = 1.
Proof.
  assert (H : forallb (fun w => match w with String b _ => unit_weight b =? 1
                                           | EmptyString => false end) ws_seqs = true)
    by (vm_compute; reflexivity).
  intros w Hin. rewrite forallb_forall in H. specialize (H w Hin).
  destruct w as [|b w']; [discriminate|]. exists b, w'. split; [reflexivity|]. now apply Z.eqb_eq.
Qed.

Lemma ws_seqs_weight : forall w, In w ws_seqs -> 1 <= js_length w.
Proof.
  intros w Hin. destruct (ws_seqs_head w Hin) as (b & w' & -> & Hb).
  cbn [js_length]. pose proof (js_length_nonneg w'). lia.
Qed.

Lemma trim_start_strict (f : nat) (s : string) :
  trim_start_fuel f s = s \/ js_length (trim_start_fuel f s) < js_length s.
Proof.
  revert s; induction f as [|f IH]; intros s; [left; reflexivity|].
  cbn [trim_start_fuel]. destruct (ws_at s) as [|k] eqn:E; [left; reflexivity|].
  right. destruct (ws_at_pos s ltac:(congruence)) as (w & Hin & Hs & _).
  destruct (ws_seqs_head w Hin) as (b & w' & -> & Hb).
  destruct s as [|c s']; [discriminate|]. unfold starts_with in Hs. cbn [String.prefix] in Hs.
  destruct (ascii_dec b c) as [<-|]; [|discriminate].
  rewrite drop_cons.
  pose proof (subseq_js_length _ _ (drop_subseq k s')).
  assert (js_length (trim_start_fuel f (drop k s')) <= js_length (drop k s'))
    by (destruct (IH (drop k s')) as [-> | ?]; lia).
  cbn [js_length]. lia.
Qed.

Lemma trim_end_strict (f : nat) (s : string) :
  trim_end_fuel f s = s \/ js_length (trim_end_fuel f s) < js_length s.
Proof.
  revert s; induction f as [|f IH]; intros s; [left; reflexivity|].
  cbn [trim_end_fuel]. destruct (ws_at_end s) as [|k] eqn:E; [left; reflexivity|].
  right. destruct (ws_at_end_pos s ltac:(congruence)) as (w & Hin & Hs & Hk).
  unfold ends_with in Hs. destruct (prefix_app_inv _ _ Hs) as [b Hb].
  assert (Hsb : s = rev_str b ++ w).
  { rewrite <- (rev_str_involutive s), Hb, rev_str_app, rev_str_involutive. reflexivity. }
  rewrite E in Hk. rewrite Hk. assert (Hl : (String.length s - String.length w)%nat = String.length (rev_str b))
    by (rewrite Hsb, length_append'; lia).
  rewrite Hl. rewrite Hsb at 1. rewrite take_app_length.
  assert (js_length (trim_end_fuel f (rev_str b)) <= js_length (rev_str b))
    by (destruct (IH (rev_str b)) as [-> | ?]; lia).
  pose proof (ws_seqs_weight w Hin).
  rewrite Hsb, js_length_app. lia.
Qed.

Lemma trim_strict (s : string) : trim s = s \/ js_length (trim s) < js_length s.
Proof.
  unfold trim.
  destruct (trim_start_strict (String.length s) s) as [Ha|Ha];
  destruct (trim_end_strict (String.length s) (trim_start_fuel (String.length s) s)) as [Hb|Hb].
  - left. rewrite Hb. exact Ha.
  - right. rewrite Ha in Hb |- *. exact Hb.
  - right. rewrite Hb. exact Ha.
  - right. lia.
Qed.

Lemma shrink_trans (a b c : string) :
  b = a \/ js_length b < js_length a -> c = b \/ js_length c < js_length b ->
  c = a \/ js_length c < js_length a.
Proof. intros [-> | H1] [-> | H2]; auto; right; lia. Qed.

(** [sanitizeText] either leaves the text as it is or makes it shorter. *)
Lemma sanitizeText_strict (t : string) :
  sanitizeText t = t \/ js_length (sanitizeText t) < js_length t.
Proof.
  unfold sanitizeText. destruct (String.eqb t ""); [left; reflexivity|]. cbv zeta.
  eapply shrink_trans; [|apply trim_strict].
  eapply shrink_trans; [apply replace_strict|apply collapse_strict].
Qed.

Lemma sanitizeText_same_length (t : string) :
  js_length (sanitizeText t) = js_length t -> sanitizeText t = t.
Proof. intros H. destruct (sanitizeText_strict t) as [E|E]; [exact E|lia]. Qed.

Lemma sanitizeText_length_cmp (raw : string) :
  js_length (sanitizeText raw) <= js_length raw /\
  (js_length (sanitizeText raw) = js_length raw <-> sanitizeText raw = raw).
Proof.
  split; [apply sanitizeText_js_length|].
  split; [apply sanitizeText_same_length|intros ->; reflexivity].
Qed.

End SanitizeFacts.

Module PathFacts.
Import JsStr Facts TextFacts CharClasses WUrl.

Lemma all_chars_app' (p : ascii -> bool) (x y : string) :
  all_chars p (x ++ y) = all_chars p x && all_chars p y.
Proof. induction x as [|c x IH]; simpl; [reflexivity|]. rewrite IH. apply andb_assoc. Qed.

Lemma all_chars_impl (p q : ascii -> bool) (s : string) :
  (forall c, p c = true -> q c = true) -> all_chars p s = true -> all_chars q s = true.
Proof.
  intros H. induction s as [|c s IH]; simpl; [reflexivity|].
  intros Hs. apply andb_prop in Hs as [H1 H2]. rewrite (H c H1). exact (IH H2).
Qed.

Lemma all_chars_drop (p : ascii -> bool) (n : nat) (s : string) :
  all_chars p s = true -> all_chars p (drop n s) = true.
Proof.
  revert n; induction s as [|c s IH]; intros n H.
  - now rewrite drop_nil.
  - destruct n as [|n]; [now rewrite drop_0|]. rewrite drop_cons.
    simpl in H. apply andb_prop in H as [_ H]. exact (IH n H).
Qed.

Lemma pct_clean (c : ascii) :
  all_chars (fun x => negb (path_set (byte x)) && negb (Ascii.eqb x "/") && negb (Ascii.eqb x "\"))
    (pct (byte c)) = true.
Proof. destruct c as [[] [] [] [] [] [] [] []]; vm_compute; reflexivity. Qed.

Lemma encode_fixed (set : Z -> bool) (s : string) :
  all_chars (fun c => negb (set (byte c))) s = true -> encode set s = s.
Proof.
  induction s as [|c s IH]; intros H; [reflexivity|]. simpl in H.
  apply andb_prop in H as [H1 H2]. apply negb_true_iff in H1.
  cbn [encode]. rewrite H1, (IH H2). reflexivity.
Qed.

(** What [encode path_set] outputs: no character of the set, and no
    slash or backslash that was not in its input. *)
Lemma encode_clean (q : ascii -> bool) (s : string) :
  (forall c, negb (Ascii.eqb c "/") && negb (Ascii.eqb c "\") = true -> q c = true) ->
  all_chars q s = true ->
  all_chars (fun c => negb (path_set (byte c)) && q c) (encode path_set s) = true.
Proof.
  intros Hq. induction s as [|c s IH]; intros H; [reflexivity|]. simpl in H.
  apply andb_prop in H as [H1 H2]. cbn [encode]. rewrite all_chars_app', (IH H2), andb_true_r.
  destruct (path_set (byte c)) eqn:E.
  - apply (all_chars_impl _ _ _ ) with (2 := pct_clean c).
    intros x Hx. apply andb_prop in Hx as [Hx Hx3]. apply andb_prop in Hx as [Hx1 Hx2].
    rewrite Hx1. apply Hq. now rewrite Hx2, Hx3.
  - cbn [all_chars]. rewrite E, H1. reflexivity.
Qed.

Lemma split_char_elems (p : ascii -> bool) (d : ascii) (s x : string) :
  all_chars p s = true -> In x (split_char d s) ->
  all_chars (fun c => p c && negb (Ascii.eqb c d)) x = true.
Proof.
  revert x; induction s as [|c s IH]; intros x Hs Hin.
  - destruct Hin as [<-|[]]. reflexivity.
  - simpl in Hs. apply andb_prop in Hs as [Hc Hs]. cbn [split_char] in Hin.
    destruct (Ascii.eqb c d) eqn:Ecd.
    + destruct Hin as [<-|Hin]; [reflexivity|exact (IH x Hs Hin)].
    + destruct (split_char d s) as [|y t] eqn:E.
      * destruct Hin as [<-|[]]. simpl. now rewrite Hc, Ecd.
      * destruct Hin as [<-|Hin].
        -- simpl. rewrite Hc, Ecd. apply (IH y Hs). now left.
        -- apply (IH x Hs). now right.
Qed.

Lemma split_char_nonempty (d : ascii) (s : string) : split_char d s <> [].
Proof.
  destruct s as [|c s]; [discriminate|]. cbn [split_char].
  destruct (Ascii.eqb c d); [discriminate|]. destruct (split_char d s); discriminate.
Qed.

Lemma split_char_no_sep (d : ascii) (x : string) :
  all_chars (fun c => negb (Ascii.eqb c d)) x = true -> split_char d x = [x].
Proof.
  induction x as [|c x IH]; intros H; [reflexivity|]. simpl in H.
  apply andb_prop in H as [H1 H2]. apply negb_true_iff in H1.
  cbn [split_char]. rewrite H1, (IH H2). reflexivity.
Qed.

Lemma split_char_sep (d : ascii) (x z : string) :
  all_chars (fun c => negb (Ascii.eqb c d)) x = true ->
  split_char d (x ++ String d z) = x :: split_char d z.
Proof.
  induction x as [|c x IH]; intros H.
  - cbn [String.append split_char]. now rewrite Ascii.eqb_refl.
  - simpl in H. apply andb_prop in H as [H1 H2]. apply negb_true_iff in H1.
    cbn [String.append split_char]. rewrite H1, (IH H2). reflexivity.
Qed.

Lemma split_join (d : ascii) (l : list string) : l <> [] ->
  Forall (fun x => all_chars (fun c => negb (Ascii.eqb c d)) x = true) l ->
  split_char d (join (String d "") l) = l.
Proof.
  induction l as [|x l IH]; intros Hne H; [congruence|].
  inversion H as [|? ? Hx Hl]; subst.
  destruct l as [|y l].
  - cbn [join]. exact (split_char_no_sep d x Hx).
  - change (join (String d "") (x :: y :: l)) with (x ++ String d "" ++ join (String d "") (y :: l)).
    cbn [String.append]. rewrite (split_char_sep d x _ Hx).
    rewrite IH; [reflexivity|discriminate|exact Hl].
Qed.

Lemma all_chars_join (p : ascii -> bool) (sep : string) (l : list string) :
  all_chars p sep = true -> Forall (fun x => all_chars p x = true) l ->
  all_chars p (join sep l) = true.
Proof.
  intros Hs. induction l as [|x l IH]; intros H; [reflexivity|].
  inversion H as [|? ? Hx Hl]; subst.
  destruct l as [|y l]; [exact Hx|].
  change (join sep (x :: y :: l)) with (x ++ sep ++ join sep (y :: l)).
  rewrite !all_chars_app', Hx, Hs, (IH Hl). reflexivity.
Qed.

Lemma resolve_nonempty (segs acc : list string) : segs <> [] -> resolve segs acc <> [].
Proof.
  revert acc; induction segs as [|seg rest IH]; intros acc Hne; [congruence|].
  cbn [resolve]. destruct rest as [|r rest'].
  - destruct (double_dot seg); [|destruct (single_dot seg)]; cbn [resolve];
      intros H; apply (f_equal (@List.length string)) in H; rewrite length_rev in H;
      discriminate H.
  - destruct (double_dot seg); [|destruct (single_dot seg)]; apply IH; discriminate.
Qed.

Lemma resolve_elems (segs acc : list string) (x : string) : In x (resolve segs acc) ->
  (In x segs /\ dot_seg x = false) \/ x = "" \/ In x acc.
Proof.
  revert acc; induction segs as [|seg rest IH]; intros acc Hin.
  - cbn [resolve] in Hin. apply in_rev in Hin. auto.
  - cbn [resolve] in Hin.
    destruct (double_dot seg) eqn:Ed.
    + destruct (IH _ Hin) as [[H1 H2]|[H|H]].
      * left. split; [right; exact H1|exact H2].
      * auto.
      * destruct rest; [destruct H as [<-|H]; [auto|]|];
          destruct acc as [|a acc]; try contradiction; right; right; right; exact H.
    + destruct (single_dot seg) eqn:Es.
      * destruct (IH _ Hin) as [[H1 H2]|[H|H]].
        -- left. split; [right; exact H1|exact H2].
        -- auto.
        -- destruct rest; [destruct H as [<-|H]; [auto|]|]; auto.
      * destruct (IH _ Hin) as [[H1 H2]|[H|H]].
        -- left. split; [right; exact H1|exact H2].
        -- auto.
        -- destruct H as [<-|H]; [|auto]. left. split; [left; reflexivity|].
           unfold dot_seg. now rewrite Es, Ed.
Qed.

Lemma resolve_id (l acc : list string) :
  Forall (fun x => dot_seg x = false) l -> resolve l acc = (List.rev acc ++ l)%list.
Proof.
  revert acc; induction l as [|x l IH]; intros acc H.
  - cbn [resolve]. now rewrite app_nil_r.
  - inversion H as [|? ? Hx Hl]; subst. unfold dot_seg in Hx.
    apply orb_false_iff in Hx as [Hs Hd]. cbn [resolve]. rewrite Hd, Hs, (IH _ Hl).
    cbn [List.rev]. rewrite <- app_assoc. reflexivity.
Qed.

Lemma b2s_clean (s : string) : all_chars (fun c => negb (Ascii.eqb c "\")) (backslash_to_slash s) = true.
Proof.
  induction s as [|c s IH]; [reflexivity|]. cbn [backslash_to_slash all_chars].
  rewrite IH, andb_true_r. destruct (Ascii.eqb c "\") eqn:E; [reflexivity|]. now rewrite E.
Qed.

Lemma b2s_id (s : string) : all_chars (fun c => negb (Ascii.eqb c "\")) s = true ->
  backslash_to_slash s = s.
Proof.
  induction s as [|c s IH]; intros H; [reflexivity|]. simpl in H.
  apply andb_prop in H as [H1 H2]. apply negb_true_iff in H1.
  cbn [backslash_to_slash]. rewrite H1, (IH H2). reflexivity.
Qed.

Lemma parse_path_shape (sp : bool) (x : string) :
  (negb sp && String.eqb (if sp then backslash_to_slash x else x) "" = true /\
   parse_path sp x = "") \/
  exists R, parse_path sp x = "/" ++ join "/" R /\ R <> [] /\
    Forall (fun y => all_chars (seg_char sp) y = true /\ dot_seg y = false) R.
Proof.
  unfold parse_path.
  set (p := if sp then backslash_to_slash x else x).
  destruct (negb sp && String.eqb p "") eqn:E; [left; split; reflexivity|right].
  set (body := if starts_with p "/" then drop 1 p else p).
  assert (Hb : all_chars (fun c => negb (sp && Ascii.eqb c "\")) body = true).
  { assert (Hp : all_chars (fun c => negb (sp && Ascii.eqb c "\")) p = true).
    { unfold p. destruct sp.
      - exact (b2s_clean x).
      - clear. induction x; [reflexivity|]. simpl. exact IHx. }
    unfold body. destruct (starts_with p "/"); [apply all_chars_drop|]; exact Hp. }
  eexists. split; [reflexivity|]. split.
  - apply resolve_nonempty. intros H. apply map_eq_nil in H. exact (split_char_nonempty _ _ H).
  - apply Forall_forall. intros y Hy.
    destruct (resolve_elems _ _ _ Hy) as [[H1 H2]|[->|[]]]; [|split; reflexivity].
    split; [|exact H2].
    apply in_map_iff in H1 as (z & <- & Hz).
    pose proof (split_char_elems _ "/" _ _ Hb Hz) as Hzc.
    apply (all_chars_impl (fun c => negb (path_set (byte c)) &&
             ((fun c => negb (sp && Ascii.eqb c "\") && negb (Ascii.eqb c "/")) c))).
    { intros c Hc. unfold seg_char. now rewrite andb_assoc in Hc. }
    apply encode_clean; [|exact Hzc].
    intros c Hc. apply andb_prop in Hc as [Hc1 Hc2]. rewrite Hc1, andb_true_r.
    apply negb_true_iff in Hc2. rewrite Hc2, andb_false_r. reflexivity.
Qed.

(** Parsing a serialized path again gives it back. *)
Lemma parse_path_idem (sp : bool) (x : string) :
  parse_path sp (parse_path sp x) = parse_path sp x.
Proof.
  destruct (parse_path_shape sp x) as [[E ->]|(R & -> & Hne & HR)].
  - destruct sp; [discriminate|]. reflexivity.
  - assert (Hseg : Forall (fun y => all_chars (seg_char sp) y = true) R)
      by (eapply Forall_impl; [|exact HR]; intros y [H _]; exact H).
    unfold parse_path at 1.
    assert (Hp : (if sp then backslash_to_slash ("/" ++ join "/" R) else "/" ++ join "/" R)
                 = "/" ++ join "/" R).
    { destruct sp; [|reflexivity]. apply b2s_id.
      change ("/" ++ join "/" R) with (String "/" (join "/" R)). cbn [all_chars].
      apply all_chars_join; [reflexivity|].
      eapply Forall_impl; [|exact Hseg]. intros y Hy.
      apply (all_chars_impl (seg_char true)); [|exact Hy].
      intros c Hc. unfold seg_char in Hc. apply andb_prop in Hc as [Hc _].
      apply andb_prop in Hc as [_ Hc]. exact Hc. }
    rewrite Hp.
    assert (Hs : starts_with ("/" ++ join "/" R) "/" = true)
      by (unfold starts_with; cbn [String.append String.prefix];
          destruct (ascii_dec "/" "/"); [destruct (join "/" R); reflexivity|congruence]). rewrite Hs.
    change (drop 1 ("/" ++ join "/" R)) with (drop 0 (join "/" R)). rewrite drop_0.
    assert (Hn : negb sp && String.eqb ("/" ++ join "/" R) "" = false)
      by (rewrite andb_comm; reflexivity). rewrite Hn.
    rewrite (split_join "/" R Hne).
    + rewrite map_ext_in with (g := fun y => y).
      * rewrite map_id, resolve_id; [reflexivity|].
        eapply Forall_impl; [|exact HR]. intros y [_ H]. exact H.
      * intros y Hy. apply encode_fixed. rewrite Forall_forall in Hseg.
        apply (all_chars_impl (seg_char sp)); [|exact (Hseg y Hy)].
        intros c Hc. unfold seg_char in Hc. now apply andb_prop in Hc as [Hc _]; apply andb_prop in Hc as [Hc _].
    + eapply Forall_impl; [|exact Hseg]. intros y Hy.
      apply (all_chars_impl (seg_char sp)); [|exact Hy].
      intros c Hc. unfold seg_char in Hc. now apply andb_prop in Hc as [_ Hc].
Qed.


(** A URL whose path is opaque had no "/" after its scheme. *)
Lemma parse_url_opaque (c : string) (o : URL) : parse_url c = Ok o -> opaque o = true ->
  exists sch rest, parse_scheme (remove_tabnl (strip_c0 c)) = Some (sch, rest) /\
                   starts_with (fst (cut "?" (fst (cut "#" rest)))) "/" = false.
Proof.
  unfold parse_url. destruct (parse_scheme _) as [[sch rest]|]; [|discriminate].
  destruct (cut "#" rest) as [bf fr] eqn:E1. destruct (cut "?" bf) as [bq q] eqn:E2.
  cbv zeta. destruct (special sch || starts_with bq "//").
  - intros H Ho. exfalso.
    (repeat match type of H with
     | context [match ?x with _ => _ end] => destruct x; try discriminate H
     end); injection H as <-; discriminate Ho.
  - destruct (starts_with bq "/") eqn:E3.
    + intros H Ho. injection H as <-. discriminate Ho.
    + intros _ _. exists sch, rest. split; [reflexivity|]. rewrite E1; cbn [fst]; rewrite E2; exact E3.
Qed.

(** The path of a URL whose path is not opaque is a parsed path. *)
Lemma parse_url_path (c : string) (o : URL) : parse_url c = Ok o -> opaque o = false ->
  exists x, path o = parse_path (special (scheme o)) x.
Proof.
  unfold parse_url. destruct (parse_scheme _) as [[sch rest]|]; [|discriminate].
  destruct (cut "#" rest) as [bf fr]. destruct (cut "?" bf) as [bq q].
  cbv zeta. remember (special sch) as sp eqn:Esp. destruct (sp || starts_with bq "//").
  - intros H _.
    (repeat match type of H with
     | context [match ?x with _ => _ end] => destruct x; try discriminate H
     end); injection H as <-; cbn [scheme path]; rewrite <- Esp; eexists; reflexivity.
  - destruct (starts_with bq "/").
    + intros H _. injection H as <-. cbn [scheme path]. rewrite <- Esp. eexists. reflexivity.
    + intros H Ho. injection H as <-. discriminate Ho.
Qed.

End PathFacts.

Module KeyFacts.
Import JsStr Facts TextFacts UrlTs UrlTextFacts2 UrlLemmas PathFacts.

Lemma break_spec (p : ascii -> bool) (s a b : string) : break p s = (a, b) ->
  s = a ++ b /\ all_chars (fun c => negb (p c)) a = true.
Proof.
  revert a b; induction s as [|c s IH]; intros a b H.
  - cbn [break] in H. injection H as <- <-. split; reflexivity.
  - cbn [break] in H. destruct (p c) eqn:Ep.
    + injection H as <- <-. split; reflexivity.
    + destruct (break p s) as [a' b'] eqn:Eb. injection H as <- <-.
      destruct (IH a' b' eq_refl) as [-> Ha]. split; [reflexivity|]. simpl. now rewrite Ep, Ha.
Qed.

Lemma strip_lead_app (A B : string) (b : ascii) : 32 < byte b ->
  exists z, WUrl.strip_lead (A ++ String b B) = z ++ String b B.
Proof.
  intros Hb. induction A as [|c A IH].
  - exists "". cbn [String.append WUrl.strip_lead].
    replace (byte b <=? 32) with false by (symmetry; apply Z.leb_gt; lia). reflexivity.
  - cbn [String.append WUrl.strip_lead]. destruct (byte c <=? 32).
    + exact IH.
    + exists (String c A). reflexivity.
Qed.

Lemma remove_tabnl_app (x y : string) :
  WUrl.remove_tabnl (x ++ y) = WUrl.remove_tabnl x ++ WUrl.remove_tabnl y.
Proof.
  induction x as [|c x IH]; [reflexivity|]. cbn [String.append WUrl.remove_tabnl].
  destruct (existsb _ _); rewrite IH; reflexivity.
Qed.

Lemma remove_tabnl_id (s : string) : all_chars (fun c => 14 <=? byte c) s = true ->
  WUrl.remove_tabnl s = s.
Proof.
  induction s as [|c s IH]; intros H; [reflexivity|]. simpl in H.
  apply andb_prop in H as [H1 H2]. apply Z.leb_le in H1. cbn [WUrl.remove_tabnl].
  replace (existsb (Z.eqb (byte c)) [9; 10; 13]) with false.
  - rewrite (IH H2). reflexivity.
  - symmetry. cbn [existsb]. rewrite !(proj2 (Z.eqb_neq _ _)) by lia. reflexivity.
Qed.

Lemma scheme_char_byte (c : ascii) : WUrl.is_scheme_char c = true -> 43 <= byte c.
Proof.
  unfold WUrl.is_scheme_char, is_alnum, is_alpha, is_digit, in_range. intros H.
  apply orb_prop in H as [H|H].
  - repeat (apply orb_prop in H as [H|H]); apply andb_prop in H as [H _]; apply Z.leb_le in H; lia.
  - cbn [existsb] in H. rewrite orb_false_r in H.
    repeat (apply orb_prop in H as [H|H]); apply Ascii.eqb_eq in H; subst c; vm_compute; discriminate.
Qed.

Lemma alpha_byte (c : ascii) : is_alpha c = true -> 65 <= byte c.
Proof.
  unfold is_alpha, in_range. intros H.
  apply orb_prop in H as [H|H]; apply andb_prop in H as [H _]; apply Z.leb_le in H; lia.
Qed.

Lemma cut_cons_ne (d x : ascii) (r : string) : Ascii.eqb d x = false ->
  cut d (String x r) = (String x (fst (cut d r)), snd (cut d r)).
Proof.
  intros H. unfold cut. cbn [break]. rewrite H.
  destruct (break (Ascii.eqb d) r) as [a [|y b]]; reflexivity.
Qed.

Lemma starts_slash (t : string) : starts_with (String "/" t) "/" = true.
Proof.
  unfold starts_with. cbn [String.prefix].
  destruct (ascii_dec "/" "/"); [destruct t; reflexivity|congruence].
Qed.

(** A string that [PROTOCOL_REGEX] accepts has a path that is not opaque
    when [new URL] parses it. *)
Lemma protocol_not_opaque (c : string) (o : WUrl.URL) :
  PROTOCOL_REGEX_test c = true -> WUrl.parse_url c = Ok o -> WUrl.opaque o = false.
Proof.
  intros Hp Hu. destruct (WUrl.opaque o) eqn:Ho; [exfalso|reflexivity].
  destruct (parse_url_opaque c o Hu Ho) as (sch' & rest' & Hs & Hsl). clear Hu Ho.
  unfold PROTOCOL_REGEX_test, scheme_colon in Hp.
  destruct c as [|a r]; [discriminate|].
  destruct (is_alpha a) eqn:Ea; [|discriminate].
  destruct (break (fun x => negb (WUrl.is_scheme_char x)) r) as [sch [|x rest]] eqn:Eb;
    [discriminate|].
  destruct x as [[] [] [] [] [] [] [] []]; try discriminate.
  destruct (prefix_app_inv _ _ Hp) as [r2 ->]. clear Hp.
  destruct (break_spec _ _ _ _ Eb) as [Hr Hsch].
  set (X := String a (sch ++ ":/")).
  assert (Hc : String a r = (X ++ "/") ++ r2).
  { rewrite Hr. unfold X. cbn [String.append]. rewrite !append_assoc'. reflexivity. }
  (* strip_c0 *)
  assert (HX : all_chars (fun c => 14 <=? byte c) (X ++ "/") = true).
  { unfold X. cbn [String.append]. rewrite append_assoc'. cbn [String.append all_chars]. rewrite all_chars_app'.
    pose proof (alpha_byte a Ea).
    apply andb_true_intro; split; [apply Z.leb_le; lia|].
    apply andb_true_intro; split; [|reflexivity].
    apply (all_chars_impl _ _ _ ) with (2 := Hsch).
    intros y Hy. apply negb_true_iff, negb_false_iff in Hy. apply scheme_char_byte in Hy.
    apply Z.leb_le. lia. }
  assert (Hstrip : exists Y, WUrl.strip_c0 (String a r) = (X ++ "/") ++ Y).
  { unfold WUrl.strip_c0. cbn [WUrl.strip_lead].
    pose proof (alpha_byte a Ea). replace (byte a <=? 32) with false by (symmetry; apply Z.leb_gt; lia).
    rewrite Hc, rev_str_app. rewrite (rev_str_single "/" X).
    destruct (strip_lead_app (rev_str r2) (rev_str X) "/" ltac:(vm_compute; reflexivity)) as [z Hz].
    rewrite Hz. exists (rev_str z).
    rewrite <- (rev_str_single "/" X), rev_str_app, rev_str_involutive. reflexivity. }
  destruct Hstrip as [Y HY]. rewrite HY, remove_tabnl_app, (remove_tabnl_id _ HX) in Hs.
  unfold X in Hs. cbn [String.append] in Hs. rewrite !append_assoc' in Hs.
  cbn [String.append WUrl.parse_scheme] in Hs. rewrite Ea in Hs.
  rewrite (break_app _ _ _ _ (String "/" (String "/" (WUrl.remove_tabnl Y))) _ Eb) in Hs.
  injection Hs as _ <-. cbn [String.append] in Hsl.
  rewrite (cut_cons_ne "#" "/" _ eq_refl) in Hsl. cbn [fst] in Hsl.
  rewrite (cut_cons_ne "?" "/" _ eq_refl) in Hsl. cbn [fst] in Hsl.
  rewrite starts_slash in Hsl. discriminate Hsl.
Qed.

End KeyFacts.


Module KeyClaims.
Import JsStr Facts TextFacts UrlTs UrlFacts LengthFacts PathFacts KeyFacts.

Lemma delete_params_app (u : WUrl.URL) :
  WUrl.delete_params APP_QUERY_PARAMS u =
  WUrl.mkURL (WUrl.scheme u) (WUrl.username u) (WUrl.password u) (WUrl.host u) (WUrl.port u)
    (WUrl.opaque u) (WUrl.path u)
    (let q := WUrl.urlencoded_serialize
                (kept_params (match WUrl.query u with Some q => q | None => "" end)) in
     if String.eqb q "" then None else Some q)
    (WUrl.fragment u).
Proof. reflexivity. Qed.

Lemma ends_slash (t : string) : ends_with (t ++ "/") "/" = true.
Proof. unfold ends_with. rewrite rev_str_app. exact (starts_slash (rev_str t)). Qed.

Lemma parse_path_js_length (sp : bool) (x : string) :
  WUrl.parse_path sp x <> "" -> 1 <= js_length (WUrl.parse_path sp x).
Proof.
  destruct (parse_path_shape sp x) as [[_ ->]|(R & -> & _)]; [congruence|].
  intros _. cbn [String.append js_length]. pose proof (js_length_nonneg (join "/" R)).
  change (unit_weight "/") with 1. lia.
Qed.

(** C4: take two inputs that [normalizeUrl] accepts, and the URLs [new URL]
    parses from their normalized forms. If the two URLs agree on every
    component but the path and the query, keep the same parameters once
    [source], [view] and [sidebar] are removed, and either have the same
    path or one path is the other plus one "/" (the shorter path being
    non-empty and not itself ending in "/"), then [extractArticleUrl]
    gives both the same key. The key of an input is the [href] of a URL
    with the parsed URL's other components and the kept parameters as its
    query. The specification's examples hold. *)
Theorem extractArticleUrl_same_key (u1 u2 c1 c2 : string) (o1 o2 : WUrl.URL) :
  (normalizeUrl u1 = Ok c1 -> normalizeUrl u2 = Ok c2 ->
   WUrl.parse_url c1 = Ok o1 -> WUrl.parse_url c2 = Ok o2 ->
   with_path_query o1 "" "" = with_path_query o2 "" "" ->
   kept_params (match WUrl.query o1 with Some q => q | None => "" end) =
   kept_params (match WUrl.query o2 with Some q => q | None => "" end) ->
   (WUrl.path o1 = WUrl.path o2 \/
    (WUrl.path o1 = WUrl.path o2 ++ "/" /\ WUrl.path o2 <> "" /\
     ends_with (WUrl.path o2) "/" = false)) ->
   extractArticleUrl u1 = extractArticleUrl u2) /\
  (normalizeUrl u1 = Ok c1 -> WUrl.parse_url c1 = Ok o1 ->
   exists o, extractArticleUrl u1 = Ok (WUrl.href o) /\
     with_path_query o "" "" = with_path_query o1 "" "" /\
     WUrl.query o =
       (let q := WUrl.urlencoded_serialize
                   (kept_params (match WUrl.query o1 with Some q => q | None => "" end)) in
        if String.eqb q "" then None else Some q)) /\
  extractArticleUrl "https://ex.com/a/" = Ok "https://ex.com/a" /\
  extractArticleUrl "https://ex.com/a" = Ok "https://ex.com/a" /\
  extractArticleUrl "https://ex.com/a?x=1&source=s" = Ok "https://ex.com/a?x=1" /\
  extractArticleUrl "https://ex.com/a?x=1" = Ok "https://ex.com/a?x=1".
Proof.
  split; [|split; [|repeat split; vm_compute; reflexivity]].
  - intros H1 H2 P1 P2 Hf Hk Hp.
    pose proof (protocol_not_opaque c1 o1 (proj1 (normalizeUrl_ok_inv _ _ H1)) P1) as Op1.
    pose proof (protocol_not_opaque c2 o2 (proj1 (normalizeUrl_ok_inv _ _ H2)) P2) as Op2.
    destruct (parse_url_path c2 o2 P2 Op2) as [x2 Hx2].
    unfold extractArticleUrl. rewrite H1, H2, P1, P2, !delete_params_app.
    set (Q1 := let q := WUrl.urlencoded_serialize
                 (kept_params (match WUrl.query o1 with Some q => q | None => "" end)) in
               if String.eqb q "" then None else Some q).
    set (Q2 := let q := WUrl.urlencoded_serialize
                 (kept_params (match WUrl.query o2 with Some q => q | None => "" end)) in
               if String.eqb q "" then None else Some q).
    assert (HQ : Q1 = Q2) by (unfold Q1, Q2; rewrite Hk; reflexivity).
    clearbody Q1 Q2. subst Q2.
    destruct o1 as [s1 us1 pw1 h1 pt1 op1 pa1 q1 f1], o2 as [s2 us2 pw2 h2 pt2 op2 pa2 q2 f2].
    cbn [WUrl.opaque WUrl.path WUrl.scheme] in Op1, Op2, Hx2, Hp. subst op1 op2.
    unfold with_path_query in Hf. cbn in Hf. injection Hf as <- <- <- <- <- <-.
    cbn [WUrl.scheme WUrl.username WUrl.password WUrl.host WUrl.port WUrl.opaque WUrl.path
         WUrl.fragment].
    destruct Hp as [<-|(-> & Hne & Hend)]; [reflexivity|].
    rewrite Hend, andb_false_r, ends_slash, andb_true_r.
    assert (Hlt : 1 < js_length (pa2 ++ "/")).
    { rewrite js_length_app. rewrite Hx2 in Hne |- *. pose proof (parse_path_js_length _ _ Hne).
      change (js_length "/") with 1. lia. }
    apply Z.ltb_lt in Hlt. rewrite Hlt.
    rewrite length_append'. cbn [String.length].
    replace (String.length pa2 + 1 - 1)%nat with (String.length pa2) by lia.
    rewrite take_app_length. unfold WUrl.set_pathname. cbn [WUrl.opaque WUrl.scheme
      WUrl.username WUrl.password WUrl.host WUrl.port WUrl.query WUrl.fragment].
    assert (Hid : WUrl.parse_path (WUrl.special s1) pa2 = pa2)
      by (rewrite Hx2; apply parse_path_idem).
    rewrite Hid. reflexivity.
  - intros H1 P1.
    pose proof (protocol_not_opaque c1 o1 (proj1 (normalizeUrl_ok_inv _ _ H1)) P1) as Op1.
    unfold extractArticleUrl. rewrite H1, P1, delete_params_app. cbv zeta.
    destruct o1 as [s1 us1 pw1 h1 pt1 op1 pa1 q1 f1].
    cbn [WUrl.opaque] in Op1. subst op1. cbn [WUrl.path].
    destruct (_ && _).
    + eexists. split; [reflexivity|]. split; reflexivity.
    + eexists. split; [reflexivity|]. split; reflexivity.
Qed.

Lemma extractArticleUrl_same_key_witness :
  extractArticleUrl "https://ex.com/a/?x=1&source=s" = extractArticleUrl "https://ex.com/a?x=1".
Proof.
  destruct (WUrl.parse_url "https://ex.com/a/?x=1&source=s") as [o1|] eqn:P1;
    [|vm_compute in P1; discriminate P1].
  destruct (WUrl.parse_url "https://ex.com/a?x=1") as [o2|] eqn:P2;
    [|vm_compute in P2; discriminate P2].
  apply (proj1 (extractArticleUrl_same_key "https://ex.com/a/?x=1&source=s"
           "https://ex.com/a?x=1" "https://ex.com/a/?x=1&source=s" "https://ex.com/a?x=1"
           o1 o2)).
  - vm_compute; reflexivity.
  - vm_compute; reflexivity.
  - exact P1.
  - exact P2.
  - vm_compute in P1, P2. injection P1 as <-. injection P2 as <-. reflexivity.
  - vm_compute in P1, P2. injection P1 as <-. injection P2 as <-. vm_compute. reflexivity.
  - vm_compute in P1, P2. injection P1 as <-. injection P2 as <-. right.
    split; [reflexivity|]. split; [discriminate|reflexivity].
Defined.

(** Only one trailing slash is removed: two URLs that differ only in a
    trailing slash of the non-root path "/a/" get different keys. *)
Lemma extractArticleUrl_double_slash_counterexample :
  extractArticleUrl "https://ex.com/a//" = Ok "https://ex.com/a/" /\
  extractArticleUrl "https://ex.com/a/" = Ok "https://ex.com/a" /\
  extractArticleUrl "https://ex.com/a//" <> extractArticleUrl "https://ex.com/a/".
Proof.
  split; [vm_compute; reflexivity|]. split; [vm_compute; reflexivity|].
  intro H. vm_compute in H. discriminate H.
Qed.

End KeyClaims.

Module RecordClaims.
Import JsStr UrlTs Cache Articles Fetch Examples SanitizeFacts.

Section Records.
Variable Document : Type.
Variable readability : string -> string -> Outcome (Document * option Parsed).
Variable getAttribute : Document -> string -> option string.
Variable document_title : Document -> option string.
Variable extractDateFromDom : Document -> option string.
Variable extractImageFromDom : Document -> option string.
Variable getTextDirection : option string -> string -> Dir.
Variable sanitizeHtml : string -> string.

Local Ltac split_matches :=
  repeat match goal with
  | H : context [match ?x with _ => _ end] |- _ => destruct x eqn:?
  end.

Lemma nonempty_some (o : option string) (s : string) : nonempty o = Some s -> o = Some s.
Proof.
  destruct o as [x|]; [|discriminate]. cbn [nonempty].
  destruct (String.eqb x ""); [discriminate|]. congruence.
Qed.

(** C8: every record built by the direct-fetch parse, the Wayback parse
    and the Diffbot adapter takes its text [raw] from the extractor
    (Readability's [textContent] or Diffbot's [text]); its [length] is the
    UTF-16 length of [raw] and its [textContent] is [sanitizeText raw]. So
    [textContent] is never longer than [length], and is exactly as long
    only when it is [raw] itself. *)
Theorem constructed_records_length :
  (forall html url a,
     parseHtmlToArticle Document readability getAttribute document_title extractDateFromDom
       extractImageFromDom getTextDirection sanitizeHtml html url = Some a ->
     exists dom p raw,
       readability html url = Ok (dom, Some p) /\ p_textContent p = Some raw /\
       length a = js_length raw /\ textContent a = Sanitize.sanitizeText raw /\
       js_length (textContent a) <= length a /\
       (js_length (textContent a) = length a <-> textContent a = raw)) /\
  (forall waybackUrl originalUrl resp a cacheURL,
     fetchArticleWithWayback Document readability getAttribute document_title extractDateFromDom
       extractImageFromDom getTextDirection sanitizeHtml waybackUrl originalUrl resp =
     SArticle a cacheURL ->
     exists status html dom p raw,
       resp = WResponse status html /\
       readability html originalUrl = Ok (dom, Some p) /\ p_textContent p = Some raw /\
       length a = js_length raw /\ textContent a = Sanitize.sanitizeText raw /\
       js_length (textContent a) <= length a /\
       (js_length (textContent a) = length a <-> textContent a = raw)) /\
  (forall urlWithSource diffbotResult a cacheURL,
     fetchArticleWithDiffbotWrapper getTextDirection sanitizeHtml urlWithSource diffbotResult =
     SArticle a cacheURL ->
     exists d raw,
       diffbotResult = inl d /\ d_text d = Some raw /\
       length a = js_length raw /\ textContent a = Sanitize.sanitizeText raw /\
       js_length (textContent a) <= length a /\
       (js_length (textContent a) = length a <-> textContent a = raw)).
Proof.
  split; [|split].
  - intros html url a H. unfold parseHtmlToArticle in H. split_matches; try discriminate.
    injection H as <-. do 3 eexists.
    split; [reflexivity|]. split; [apply nonempty_some; eassumption|].
    unfold candidate_of. cbn [length textContent].
    split; [reflexivity|]. split; [reflexivity|]. apply sanitizeText_length_cmp.
  - intros w o resp a cu H. unfold fetchArticleWithWayback in H. split_matches; try discriminate.
    injection H as <- _. do 5 eexists.
    split; [reflexivity|]. split; [eassumption|]. split; [apply nonempty_some; eassumption|].
    unfold candidate_of. cbn [length textContent].
    split; [reflexivity|]. split; [reflexivity|]. apply sanitizeText_length_cmp.
  - intros uws d a cu H. unfold fetchArticleWithDiffbotWrapper in H. split_matches; try discriminate.
    injection H as <- _. do 2 eexists.
    split; [reflexivity|]. split; [apply nonempty_some; eassumption|]. cbn [length textContent].
    split; [reflexivity|]. split; [reflexivity|]. apply sanitizeText_length_cmp.
Qed.

End Records.

Lemma constructed_records_length_witness :
  exists a, parse_with "  Hello world  " page "https://ex.com/a" = Some a /\
  length a = js_length "  Hello world  " /\
  textContent a = Sanitize.sanitizeText "  Hello world  ".
Proof.
  destruct (parse_with "  Hello world  " page "https://ex.com/a") as [a|] eqn:E;
    [|vm_compute in E; discriminate E].
  destruct (proj1 (constructed_records_length unit (reader "  Hello world  ") no_attr no_fact
              no_fact no_fact ltr keep_html) page "https://ex.com/a" a E)
    as (dom & p & raw & Hr & Hp & Hl & Ht & _).
  injection Hr as _ <-. injection Hp as <-.
  exists a. split; [reflexivity|]. split; assumption.
Defined.

(** Readability's text "  Hello world  " (15 units) is stored trimmed (11
    units) while [length] stays 15. *)
Lemma parseHtmlToArticle_length_counterexample :
  exists a, parse_with "  Hello world  " page "https://ex.com/a" = Some a /\
            length a = 15 /\ js_length (textContent a) = 11.
Proof.
  destruct (parse_with "  Hello world  " page "https://ex.com/a") as [a|] eqn:E;
    [|vm_compute in E; discriminate E].
  exists a. split; [reflexivity|]. vm_compute in E. injection E as <-. split; reflexivity.
Qed.

End RecordClaims.

Module RouteLemmas.
Import JsStr UrlTs Cache Articles Fetch Route TextFacts UrlLemmas.

Lemma with_article_url (x : option CachedArticle) (url : string) a c :
  with_article x url = SArticle a c -> c = url.
Proof. destruct x; simpl; congruence. Qed.

Lemma arbitrate_url (url : string) l a c : arbitrate url l = SArticle a c -> c = url.
Proof. unfold arbitrate. destruct (pick_best l); [apply with_article_url|discriminate]. Qed.

Lemma obj_get_set_eq (o : Obj) (k v : string) : obj_get (obj_set o k v) k = Some v.
Proof.
  induction o as [|[k' v'] r IH]; cbn [obj_set obj_get].
  - now rewrite String.eqb_refl.
  - destruct (String.eqb k k') eqn:E; cbn [obj_get].
    + now rewrite String.eqb_refl.
    + now rewrite E.
Qed.

Lemma obj_get_set_neq (o : Obj) (k k2 v : string) : k2 <> k ->
  obj_get (obj_set o k v) k2 = obj_get o k2.
Proof.
  intros Hne. apply String.eqb_neq in Hne.
  induction o as [|[k' v'] r IH]; cbn [obj_set obj_get].
  - now rewrite Hne.
  - destruct (String.eqb k k') eqn:E; cbn [obj_get].
    + apply String.eqb_eq in E. subst k'. now rewrite Hne.
    + now rewrite IH.
Qed.

Lemma join_nonempty (sep x : string) (l : list string) : x <> "" -> join sep (x :: l) <> "".
Proof.
  intros Hx. destruct l as [|y l]; cbn [join]; [exact Hx|].
  destruct x; [contradiction|discriminate].
Qed.

Lemma buildCookieHeader_truthy (jar : Obj) (h : string) :
  buildCookieHeader jar = Some h -> truthy (Some h) = true.
Proof.
  unfold buildCookieHeader. destruct jar as [|[n v] r]; [discriminate|].
  intros H. injection H as <-. unfold truthy. apply negb_true_iff, String.eqb_neq.
  destruct (map _ r); destruct n; discriminate.
Qed.

Lemma buildFetchHeaders_cookie (url : string) (strategy : FetchStrategy) (jar : option Obj) (pick : nat) :
  obj_get (buildFetchHeaders url strategy jar pick) "Cookie" =
  match jar with Some j => buildCookieHeader j | None => None end.
Proof.
  unfold buildFetchHeaders.
  destruct jar as [j|]; [destruct (buildCookieHeader j) as [h|] eqn:E|];
    destruct strategy; try reflexivity;
    rewrite (buildCookieHeader_truthy _ _ E); apply obj_get_set_eq.
Qed.

Lemma buildFetchHeaders_user_agent (url : string) (strategy : FetchStrategy) (jar : option Obj) (pick : nat) :
  (pick < List.length (match strategy with
                       | Browser => BROWSER_USER_AGENTS
                       | Googlebot => GOOGLEBOT_USER_AGENTS end))%nat ->
  exists ua, obj_get (buildFetchHeaders url strategy jar pick) "User-Agent" = Some ua /\
    In ua (match strategy with
           | Browser => BROWSER_USER_AGENTS
           | Googlebot => GOOGLEBOT_USER_AGENTS end).
Proof.
  intros Hp. unfold buildFetchHeaders.
  eexists; split; [|apply nth_In; exact Hp].
  destruct jar as [j|]; [destruct (buildCookieHeader j) as [h|] eqn:E|];
    destruct strategy; try reflexivity;
    rewrite (buildCookieHeader_truthy _ _ E), obj_get_set_neq by discriminate; reflexivity.
Qed.

Lemma obj_set_keys (o : Obj) (k v k' : string) :
  In k' (map fst (obj_set o k v)) <-> k' = k \/ In k' (map fst o).
Proof.
  induction o as [|[k0 v0] r IH]; cbn [obj_set map fst].
  - simpl. intuition.
  - destruct (String.eqb k k0) eqn:E; cbn [map fst In].
    + apply String.eqb_eq in E. subst k0. intuition.
    + rewrite IH. intuition.
Qed.

Lemma obj_set_nodup (o : Obj) (k v : string) :
  NoDup (map fst o) -> NoDup (map fst (obj_set o k v)).
Proof.
  induction o as [|[k0 v0] r IH]; cbn [obj_set map fst]; intros Hn.
  - constructor; [intros []|constructor].
  - inversion Hn as [|x l Hx Hr]; subst.
    destruct (String.eqb k k0) eqn:E; cbn [map fst].
    + apply String.eqb_eq in E. subst k0. constructor; assumption.
    + constructor; [|now apply IH].
      rewrite obj_set_keys. intros [H|H]; [|contradiction].
      subst k0. rewrite String.eqb_refl in E. discriminate.
Qed.

Lemma obj_set_forall (Q : string * string -> Prop) (o : Obj) (k v : string) :
  Forall Q o -> Q (k, v) -> Forall Q (obj_set o k v).
Proof.
  induction o as [|[k0 v0] r IH]; cbn [obj_set]; intros Ho Hq.
  - constructor; [exact Hq|constructor].
  - inversion Ho; subst. destruct (String.eqb k k0).
    + constructor; assumption.
    + constructor; [assumption|now apply IH].
Qed.

Lemma any_char_app (p : ascii -> bool) (a b : string) :
  any_char p (a ++ b) = any_char p a || any_char p b.
Proof. induction a as [|c a IH]; cbn; [reflexivity|]. rewrite IH. apply orb_assoc. Qed.

Lemma break_fst_none (p : ascii -> bool) (s : string) : any_char p (fst (break p s)) = false.
Proof.
  induction s as [|c s IH]; cbn [break]; [reflexivity|].
  destruct (p c) eqn:E; [reflexivity|].
  destruct (break p s) as [a b]. cbn in *. rewrite E. exact IH.
Qed.

Lemma cut_fst_none (c : ascii) (s : string) : any_char (Ascii.eqb c) (fst (cut c s)) = false.
Proof.
  unfold cut. pose proof (break_fst_none (Ascii.eqb c) s) as H.
  destruct (break (Ascii.eqb c) s) as [a [|x y]]; exact H.
Qed.

Lemma trim_any_char (p : ascii -> bool) (s : string) :
  any_char p s = false -> any_char p (trim s) = false.
Proof.
  destruct (trim_infix s) as [a [b Hab]]. intros H. rewrite Hab, !any_char_app in H. apply orb_false_iff in H as [_ H]. apply orb_false_iff in H as [H _]. exact H.
Qed.

Lemma extractSetCookies_wf (headers : Obj) :
  NoDup (map fst (extractSetCookies headers)) /\
  Forall (fun '(n, v) => allowed_cookie n = true /\ any_char (Ascii.eqb ";") v = false /\ trim v = v)
    (extractSetCookies headers).
Proof.
  unfold extractSetCookies. destruct (obj_get headers "set-cookie") as [sc|];
    [|split; constructor].
  destruct (String.eqb sc ""); [split; constructor|].
  assert (Hinit : NoDup (map fst (@nil (string * string))) /\
    Forall (fun '(n, v) => allowed_cookie n = true /\ any_char (Ascii.eqb ";") v = false /\ trim v = v)
      (@nil (string * string))) by (split; constructor).
  revert Hinit. generalize (@nil (string * string)) as acc.
  induction (split_cookies sc) as [|cookie l IH]; intros acc [Hn Hf]; cbn [fold_left]; [split; assumption|].
  apply IH.
  destruct (match_cookie cookie) as [[n v]|] eqn:Em; [|split; assumption].
  destruct (allowed_cookie (trim n)) eqn:Ea; [|split; assumption].
  split; [now apply obj_set_nodup|].
  apply obj_set_forall; [exact Hf|].
  split; [exact Ea|]. split; [|apply trim_idem].
  apply trim_any_char. unfold match_cookie in Em.
  destruct (cut "=" cookie) as [pre [post|]]; [|discriminate].
  destruct (String.eqb pre ""); [discriminate|].
  injection Em as _ <-. apply cut_fst_none.
Qed.

Section Url.
Variable Document : Type.
Variable readability : string -> string -> Outcome (Document * option Parsed).
Variable getAttribute : Document -> string -> option string.
Variable document_title : Document -> option string.
Variable extractDateFromDom : Document -> option string.
Variable extractImageFromDom : Document -> option string.
Variable getTextDirection : option string -> string -> Dir.
Variable sanitizeHtml : string -> string.
Variable net : nat -> FetchStrategy -> option string -> NetEvent.

Lemma fast_body_url (url : string) s s' a c :
  fast_body Document readability getAttribute document_title extractDateFromDom
    extractImageFromDom getTextDirection sanitizeHtml net url s = (s', Ok (SArticle a c)) ->
  c = url.
Proof.
  unfold fast_body, bindM, ret, gets, attempt.
  repeat match goal with
         | |- context [match ?x with _ => _ end] => destruct x
         end; intros H; try discriminate;
  injection H as _ H; first [exact (with_article_url _ _ _ _ H) | exact (arbitrate_url _ _ _ _ H)].
Qed.

End Url.
Section Handler.
Variable Document : Type.
Variable readability : string -> string -> Outcome (Document * option Parsed).
Variable getAttribute : Document -> string -> option string.
Variable document_title : Document -> option string.
Variable extractDateFromDom : Document -> option string.
Variable extractImageFromDom : Document -> option string.
Variable getTextDirection : option string -> string -> Dir.
Variable sanitizeHtml : string -> string.
Variable net : nat -> FetchStrategy -> option string -> NetEvent.
Variable diffbot : string -> string -> DiffbotRaw + string.
Variable wayback : string -> WaybackResponse.
Variable ArticleRequestSchema_safeParse : option string -> option string -> string + (string * string).
Variable ArticleResponseSchema_parse : ArticleResponse -> Outcome ArticleResponse.
Variable ErrorResponseSchema_parse : ErrorResponse -> Outcome ErrorResponse.
Variable fromError_text : CachedArticle -> string.

Local Abbreviation fetchArticle_ :=
  (fetchArticle Document readability getAttribute document_title extractDateFromDom
     extractImageFromDom getTextDirection sanitizeHtml net diffbot wayback).
Local Abbreviation GET_ :=
  (GET Document readability getAttribute document_title extractDateFromDom
     extractImageFromDom getTextDirection sanitizeHtml net diffbot wayback
     ArticleRequestSchema_safeParse ArticleResponseSchema_parse ErrorResponseSchema_parse
     fromError_text).

Lemma fetchArticle_url (u src : string) (o : option string) a c :
  fetchArticle_ u src o = Ok (SArticle a c) -> c = u.
Proof.
  unfold fetchArticle.
  destruct (String.eqb src "fetch-fast").
  - unfold fetchArticleWithFast, catchM.
    destruct (WUrl.parse_url u); [|discriminate]. cbn beta iota.
    destruct (fast_body _ _ _ _ _ _ _ _ _ u _) as [s' [r|e]] eqn:Eb; cbn beta iota.
    + intros H. cbn in H. assert (HC : r = SArticle a c) by congruence. subst r.
      exact (fast_body_url _ _ _ _ _ _ _ _ _ _ _ _ _ _ Eb).
    + discriminate.
  - destruct (String.eqb src "fetch-slow").
    + unfold fetchArticleWithDiffbotWrapper. intros H.
      repeat match type of H with context [match ?x with _ => _ end] => destruct x end;
        congruence.
    + destruct (String.eqb src "wayback"); [|discriminate].
      unfold fetchArticleWithWayback. intros H.
      repeat match type of H with context [match ?x with _ => _ end] => destruct x end;
        congruence.
Qed.

Ltac split_matches :=
  repeat match goal with
         | |- context [match ?x with _ => _ end] =>
             lazymatch x with
             | context [match _ with _ => _ end] => fail
             | _ => let E := fresh "E" in destruct x eqn:E
             end
         end.

Lemma GET_store (url source : option string) (st : Store) :
  snd (GET_ url source st) = st \/
  exists u src n a c,
    ArticleRequestSchema_safeParse url source = inr (u, src) /\
    extractArticleUrl u = Ok n /\
    fetchArticle_ (getUrlWithSource src u) src (Some u) = Ok (SArticle a c) /\
    snd (GET_ url source st) = snd (saveOrReturnLongerArticle (src ++ ":" ++ n) a st).
Proof.
  unfold GET, error_json, unexpected. cbv zeta.
  split_matches; try (left; reflexivity);
  right; do 5 eexists; (split; [reflexivity|]); (split; [eassumption|]);
  (split; [eassumption|]); match goal with H : saveOrReturnLongerArticle _ _ _ = _ |- _ => rewrite H end;
  reflexivity.
Qed.


Lemma GET_status (url source : option string) (st : Store) :
  match fst (GET_ url source st) with
  | Json status body =>
      (status = 200 /\ exists r, body = BArticle r) \/
      ((status = 400 \/ status = 500) /\ exists e, body = BError e)
  | Unhandled => True
  end.
Proof.
  set (P := fun r => match r with
                     | Json status body =>
                         (status = 200 /\ exists r, body = BArticle r) \/
                         ((status = 400 \/ status = 500) /\ exists e, body = BError e)
                     | Unhandled => True
                     end).
  change (P (fst (GET_ url source st))).
  unfold GET, error_json, unexpected. cbv zeta.
  split_matches; cbn [fst]; unfold P;
  first [ left; split; [reflexivity|eexists; reflexivity]
        | right; split; [first [left; reflexivity|right; reflexivity]|eexists; reflexivity]
        | exact I ].
Qed.

Lemma GET_success (url source : option string) (st : Store) (R : ArticleResponse) :
  (forall r r', ArticleResponseSchema_parse r = Ok r' -> r' = r) ->
  fst (GET_ url source st) = Json 200 (BArticle R) ->
  exists u src, ArticleRequestSchema_safeParse url source = inr (u, src) /\
    ar_source R = src /\ ar_cacheURL R = getUrlWithSource src u.
Proof.
  intros Hid. unfold GET, error_json, unexpected. cbv zeta.
  split_matches; cbn [fst]; intros H; try discriminate.
  all: injection H as <-.
  all: match goal with Hp : ArticleResponseSchema_parse _ = Ok ?r |- _ => apply Hid in Hp; subst r end.
  all: do 2 eexists; split; [reflexivity|]; cbn [ar_source ar_cacheURL]; split; [reflexivity|].
  all: try reflexivity.
  all: match goal with Hf : fetchArticle _ _ _ _ _ _ _ _ _ _ _ _ _ _ = Ok (SArticle _ _) |- _ =>
         exact (fetchArticle_url _ _ _ _ _ Hf) end.
Qed.

Lemma GET_cache_hit (url source : option string) (st : Store) (u src n : string) (o : WUrl.URL)
    (a : CachedArticle) (R : ArticleResponse) :
  ArticleRequestSchema_safeParse url source = inr (u, src) ->
  src <> "jina.ai" ->
  WUrl.parse_url u = Ok o ->
  extractArticleUrl u = Ok n ->
  articles st (src ++ ":" ++ n) = Some (CArticle a) ->
  servable a = true ->
  ArticleResponseSchema_parse
    (mkArticleResponse src (getUrlWithSource src u) (response_article getTextDirection true a)) = Ok R ->
  GET_ url source st = (Json 200 (BArticle R), st).
Proof.
  intros Hp Hj Hu He Hs Hv Hr. unfold GET. rewrite Hp.
  apply String.eqb_neq in Hj. rewrite Hj, Hu, He. cbv zeta. rewrite Hs, Hv, Hr. reflexivity.
Qed.

End Handler.

End RouteLemmas.

Module CacheLemmas.
Import JsStr Cache Articles Fetch.

Lemma saveOrReturnLongerArticle_store (key : string) (a : CachedArticle) (st : Store) :
  (forall k, articles (snd (saveOrReturnLongerArticle key a st)) k =
             if String.eqb k key && schema_ok a
             then Some (CArticle (fst (saveOrReturnLongerArticle key a st)))
             else articles st k) /\
  (forall k, String.eqb k ("meta:" ++ key) = false ->
             metas (snd (saveOrReturnLongerArticle key a st)) k = metas st k).
Proof.
  unfold saveOrReturnLongerArticle.
  destruct (schema_ok a) eqn:Ea; cbn [negb].
  2: { split; intros k; [now rewrite andb_false_r|reflexivity]. }
  assert (Hsave : (forall k, articles (saveToCache key a st) k =
                    if String.eqb k key && true then Some (CArticle a) else articles st k) /\
                  (forall k, String.eqb k ("meta:" ++ key) = false ->
                    metas (saveToCache key a st) k = metas st k)).
  { split; intros k; cbn [saveToCache articles metas]; unfold upd; rewrite ?andb_true_r;
      [reflexivity|intros ->; reflexivity]. }
  destruct (articles st key) as [[existing|]|] eqn:Ek; cbn [fst snd]; try exact Hsave.
  destruct (negb (schema_ok existing)); cbn [fst snd]; [exact Hsave|].
  destruct (negb (truthy (htmlContent existing)) && truthy (htmlContent a)); cbn [fst snd]; [exact Hsave|].
  destruct (_ <? _); cbn [fst snd]; [exact Hsave|].
  split; [|reflexivity]. intros k. rewrite andb_true_r.
  destruct (String.eqb k key) eqn:E; [|reflexivity].
  apply String.eqb_eq in E. subst k. exact Ek.
Qed.

Section Parse.
Variable Document : Type.
Variable readability : string -> string -> Outcome (Document * option Parsed).
Variable getAttribute : Document -> string -> option string.
Variable document_title : Document -> option string.
Variable extractDateFromDom : Document -> option string.
Variable extractImageFromDom : Document -> option string.
Variable getTextDirection : option string -> string -> Dir.
Variable sanitizeHtml : string -> string.

Lemma parseHtmlToArticle_some (html url : string) (a : CachedArticle) :
  parseHtmlToArticle Document readability getAttribute document_title extractDateFromDom
    extractImageFromDom getTextDirection sanitizeHtml html url = Some a ->
  100 <= js_length html /\ htmlContent a = Some html /\ schema_ok a = true.
Proof.
  unfold parseHtmlToArticle.
  destruct (String.eqb html "" || (js_length html <? 100)) eqn:E; [discriminate|].
  apply orb_false_iff in E as [_ E]. apply Z.ltb_ge in E.
  destruct (readability html url) as [[dom [p|]]|]; try discriminate.
  destruct (nonempty (p_content p)), (nonempty (p_textContent p)); try discriminate.
  match goal with |- (if schema_ok ?c then _ else _) = _ -> _ => destruct (schema_ok c) eqn:Es end;
    [|discriminate].
  intros H. injection H as <-. repeat split; [exact E|exact Es].
Qed.

Lemma tryFetchAndParse_result (url : string) (strat : FetchStrategy) (jar : Obj) (ev : NetEvent)
    (r : FetchResult) (jar' : Obj) :
  tryFetchAndParse Document readability getAttribute document_title extractDateFromDom
    extractImageFromDom getTextDirection sanitizeHtml url strat jar ev = Ok (r, jar') ->
  strategy r = strat /\
  match article r with
  | Some a =>
      success r = true /\ quality r = calculateQuality a /\ error r = None /\
      exists h, html r = Some h /\
        parseHtml Document readability getAttribute document_title extractDateFromDom
          extractImageFromDom getTextDirection sanitizeHtml h url = Some a
  | None => success r = false /\ quality r = 0 /\ error r <> None
  end.
Proof.
  unfold tryFetchAndParse. destruct (tryFetchWithStrategy strat ev) as [res|e]; [|discriminate].
  destruct res as [h s|status blocked hs]; cbn beta iota zeta.
  - cbn [bind_out].
    destruct (parseHtml Document readability getAttribute document_title extractDateFromDom
      extractImageFromDom getTextDirection sanitizeHtml h url) as [a|] eqn:Ep;
      intros H; injection H as <- _; cbn; repeat split; try discriminate; eauto.
  - cbn [bind_out]. intros H. injection H as <- _. cbn. repeat split; discriminate.
Qed.

End Parse.
End CacheLemmas.


Module TextExtras.
Import JsStr Sanitize Html UrlText UrlTs Facts UrlFacts TextFacts CharClasses
  UrlTextFacts2 UrlTextFacts3 ExtraLemmas UrlLemmas.

(** X2: the text [sanitizeText] returns never contains three line feeds in a row. *)
Theorem sanitizeText_no_three_newlines (t p q : string) :
  sanitizeText t <> p ++ of_bytes [10; 10; 10] ++ q.
Proof. apply sanitizeText_no_triple_lf. Qed.

Lemma sanitizeText_no_three_newlines_witness :
  sanitizeText ("a" ++ of_bytes [10; 10; 10; 10] ++ "b") = "a" ++ of_bytes [10; 10] ++ "b" /\
  sanitizeText ("a" ++ of_bytes [10; 10; 10; 10] ++ "b") <> "a" ++ of_bytes [10; 10; 10] ++ "b".
Proof. split; [vm_compute; reflexivity|apply sanitizeText_no_three_newlines]. Defined.

(** X3: [sanitizeText] only deletes characters (its result is a subsequence of
    its input, so no longer), and the result neither starts nor ends with
    whitespace. *)
Theorem sanitizeText_subsequence_trimmed (t : string) :
  subseq (sanitizeText t) t /\ js_length (sanitizeText t) <= js_length t /\
  ws_at (sanitizeText t) = 0%nat /\ ws_at_end (sanitizeText t) = 0%nat.
Proof. apply sanitizeText_clean. Qed.

(** X4: [sanitizeHtml] only deletes characters: its result is a subsequence
    of its input, so it is never longer. *)
Theorem sanitizeHtml_subsequence (html : string) :
  subseq (sanitizeHtml html) html /\ js_length (sanitizeHtml html) <= js_length html.
Proof. apply sanitizeHtml_subseq. Qed.

(** X5: [sanitizeHtml] returns HTML without a [<] character unchanged: every
    pattern it removes starts with [<]. *)
Theorem sanitizeHtml_without_tags (html : string) :
  any_char (fun c => Ascii.eqb c "<") html = false -> sanitizeHtml html = html.
Proof. apply sanitizeHtml_no_lt. Qed.

Lemma sanitizeHtml_without_tags_witness :
  any_char (fun c => Ascii.eqb c "<") "Sponsored content" = false /\
  sanitizeHtml "Sponsored content" = "Sponsored content".
Proof. split; [reflexivity|apply sanitizeHtml_without_tags; reflexivity]. Defined.

(** X6: a URL found by [extractFirstUrl] is a substring of the text, starts
    with [https://], [http://] or [www] (any case), holds none of the
    characters that end a URL in the text (no ASCII white space, quote, <
    or >, and no white space character of [\s] at all, non-ASCII ones
    included), and does not end in trailing punctuation. *)
Theorem extractFirstUrl_result (t u : string) : extractFirstUrl t = Some u ->
  (exists a b, t = a ++ u ++ b) /\
  (ci_prefix false "https://" u || ci_prefix false "http://" u || ci_prefix false "www" u) = true /\
  all_chars url_ok u = true /\ has_ws u = false /\
  (forall p c, u = p ++ String c "" -> is_trailing_punct c = false).
Proof.
  intros H. destruct (extractFirstUrl_shape t u H) as (H1 & H2 & H3 & H4).
  exact (conj H1 (conj H2 (conj H3 (conj (extractFirstUrl_no_ws t u H) H4)))).
Qed.

Lemma extractFirstUrl_result_witness :
  extractFirstUrl "see https://ex.com/a." = Some "https://ex.com/a" /\
  (exists a b, "see https://ex.com/a." = a ++ "https://ex.com/a" ++ b).
Proof.
  assert (H : extractFirstUrl "see https://ex.com/a." = Some "https://ex.com/a")
    by (vm_compute; reflexivity).
  split; [exact H|exact (proj1 (extractFirstUrl_result _ _ H))].
Defined.

(** X7: when [NormalizedUrlSchema] accepts an input, the trimmed input is at
    most [MAX_URL_LENGTH] long and the result is [normalizeUrl] of either the
    trimmed input or the first URL found in it. *)
Theorem NormalizedUrlSchema_success (i c : string) : NormalizedUrlSchema i = Ok c ->
  js_length (trim i) <= MAX_URL_LENGTH /\
  exists x, (x = trim i \/ extractFirstUrl (trim i) = Some x) /\ normalizeUrl x = Ok c.
Proof. apply NormalizedUrlSchema_ok. Qed.

Lemma NormalizedUrlSchema_success_witness :
  NormalizedUrlSchema " see https://ex.com/a. " = Ok "https://ex.com/a" /\
  js_length (trim " see https://ex.com/a. ") <= MAX_URL_LENGTH.
Proof.
  assert (H : NormalizedUrlSchema " see https://ex.com/a. " = Ok "https://ex.com/a")
    by (vm_compute; reflexivity).
  split; [exact H|exact (proj1 (NormalizedUrlSchema_success _ _ H))].
Defined.

(** X8: [NormalizedUrlSchema] rejects an input either because the trimmed
    input is longer than [MAX_URL_LENGTH] (with the length message) or with
    the error [normalizeUrl] gives for the input itself. *)
Theorem NormalizedUrlSchema_failure (i m : string) : NormalizedUrlSchema i = Throw m ->
  (MAX_URL_LENGTH < js_length (trim i) /\ m = MAX_ERR) \/
  (js_length (trim i) <= MAX_URL_LENGTH /\ normalizeUrl i = Throw m).
Proof. apply NormalizedUrlSchema_throw. Qed.

Lemma NormalizedUrlSchema_failure_witness :
  NormalizedUrlSchema " " = Throw "Please enter a URL." /\
  ((MAX_URL_LENGTH < js_length (trim " ") /\ "Please enter a URL." = MAX_ERR) \/
   (js_length (trim " ") <= MAX_URL_LENGTH /\ normalizeUrl " " = Throw "Please enter a URL.")).
Proof.
  assert (H : NormalizedUrlSchema " " = Throw "Please enter a URL.") by (vm_compute; reflexivity).
  split; [exact H|exact (NormalizedUrlSchema_failure _ _ H)].
Defined.

(** X9: every input of at most [MAX_URL_LENGTH] characters (after trimming)
    that [normalizeUrl] accepts is accepted by [NormalizedUrlSchema]. *)
Theorem NormalizedUrlSchema_complete (i c : string) :
  js_length (trim i) <= MAX_URL_LENGTH -> normalizeUrl i = Ok c ->
  exists c', NormalizedUrlSchema i = Ok c'.
Proof. apply NormalizedUrlSchema_accepts. Qed.

Lemma NormalizedUrlSchema_complete_witness : exists c', NormalizedUrlSchema "ex.com" = Ok c'.
Proof.
  apply (NormalizedUrlSchema_complete "ex.com" "https://ex.com");
    [apply Z.leb_le; vm_compute; reflexivity|vm_compute; reflexivity].
Defined.

(** X10: surrounding whitespace never changes the outcome of [normalizeUrl],
    [extractArticleUrl] or [NormalizedUrlSchema]. *)
Theorem url_functions_ignore_surrounding_whitespace (u : string) :
  normalizeUrl (trim u) = normalizeUrl u /\
  extractArticleUrl (trim u) = extractArticleUrl u /\
  NormalizedUrlSchema (trim u) = NormalizedUrlSchema u.
Proof.
  split; [apply normalizeUrl_trim|split; [apply extractArticleUrl_trim|apply NormalizedUrlSchema_trim]].
Qed.

(** X11: [repairProtocol] is idempotent: a repaired scheme separator is
    never repaired again. *)
Theorem repairProtocol_idempotent (s : string) :
  repairProtocol (repairProtocol s) = repairProtocol s.
Proof. apply repairProtocol_idem. Qed.

(** X12: a URL [normalizeUrl] returns starts with a protocol, is non-empty,
    has no whitespace, passes [isURL] and does not have a private host. *)
Theorem normalizeUrl_result_valid (u c : string) : normalizeUrl u = Ok c ->
  PROTOCOL_REGEX_test c = true /\ Validator.isURL c = true /\
  has_ws c = false /\ c <> "" /\
  match WUrl.parse_url c with Ok o => isPrivateIP (WUrl.hostname o) | Throw _ => false end = false.
Proof.
  intros H. destruct (normalizeUrl_ok_inv u c H) as [Hp [Hv Hpriv]].
  destruct (isURL_no_ws c Hv) as [Hws Hne]. repeat split; assumption.
Qed.

Lemma normalizeUrl_result_valid_witness :
  normalizeUrl " ex.com " = Ok "https://ex.com" /\ PROTOCOL_REGEX_test "https://ex.com" = true.
Proof.
  assert (H : normalizeUrl " ex.com " = Ok "https://ex.com") by (vm_compute; reflexivity).
  split; [exact H|exact (proj1 (normalizeUrl_result_valid _ _ H))].
Defined.

(** X13: [extractArticleUrl] fails exactly when [normalizeUrl] fails, with
    the same message. *)
Theorem extractArticleUrl_fails_iff (u m : string) :
  extractArticleUrl u = Throw m <-> normalizeUrl u = Throw m.
Proof. apply extractArticleUrl_throw_iff. Qed.

End TextExtras.

Module RouteExtras.
Import JsStr UrlTs Cache Articles Fetch Route Examples RouteExamples RouteLemmas CacheLemmas.

(** X14: the cookies [extractSetCookies] returns have distinct names, each
    allow-listed, and values that are trimmed and hold no [;]. *)
Theorem extractSetCookies_well_formed (headers : Obj) :
  NoDup (map fst (extractSetCookies headers)) /\
  Forall (fun '(n, v) => allowed_cookie n = true /\ any_char (Ascii.eqb ";") v = false /\ trim v = v)
    (extractSetCookies headers).
Proof. apply extractSetCookies_wf. Qed.

(** X15: the [Cookie] header [buildFetchHeaders] sends is exactly the one
    [buildCookieHeader] builds from the jar, and absent without a jar. *)
Theorem buildFetchHeaders_cookie_header (url : string) (strategy : FetchStrategy)
    (jar : option Obj) (pick : nat) :
  obj_get (buildFetchHeaders url strategy jar pick) "Cookie" =
  match jar with Some j => buildCookieHeader j | None => None end.
Proof. apply buildFetchHeaders_cookie. Qed.

(** X16: [buildFetchHeaders] always sends a [User-Agent] taken from the list
    of the strategy (browser or Googlebot), when the pick is in range. *)
Theorem buildFetchHeaders_user_agent_in_list (url : string) (strategy : FetchStrategy)
    (jar : option Obj) (pick : nat) :
  (pick < List.length (match strategy with
                       | Browser => BROWSER_USER_AGENTS
                       | Googlebot => GOOGLEBOT_USER_AGENTS end))%nat ->
  exists ua, obj_get (buildFetchHeaders url strategy jar pick) "User-Agent" = Some ua /\
    In ua (match strategy with
           | Browser => BROWSER_USER_AGENTS
           | Googlebot => GOOGLEBOT_USER_AGENTS end).
Proof. apply buildFetchHeaders_user_agent. Qed.

Lemma buildFetchHeaders_user_agent_in_list_witness :
  exists ua, obj_get (buildFetchHeaders "https://ex.com/a" Googlebot None 1) "User-Agent" = Some ua /\
    In ua GOOGLEBOT_USER_AGENTS.
Proof. apply (buildFetchHeaders_user_agent_in_list _ Googlebot). cbn. lia. Defined.

(** X17: [saveOrReturnLongerArticle] changes the article entry only under
    its key, and only when the article passes the schema; the entry then
    holds the article it returns. Of the metadata, at most the [meta:] entry
    of the key changes. *)
Theorem saveOrReturnLongerArticle_effect (key : string) (a : CachedArticle) (st : Store) :
  (forall k, articles (snd (saveOrReturnLongerArticle key a st)) k =
             if String.eqb k key && schema_ok a
             then Some (CArticle (fst (saveOrReturnLongerArticle key a st)))
             else articles st k) /\
  (forall k, String.eqb k ("meta:" ++ key) = false ->
             metas (snd (saveOrReturnLongerArticle key a st)) k = metas st k).
Proof. apply saveOrReturnLongerArticle_store. Qed.

Section Parse.
Variable Document : Type.
Variable readability : string -> string -> Outcome (Document * option Parsed).
Variable getAttribute : Document -> string -> option string.
Variable document_title : Document -> option string.
Variable extractDateFromDom : Document -> option string.
Variable extractImageFromDom : Document -> option string.
Variable getTextDirection : option string -> string -> Dir.
Variable sanitizeHtml : string -> string.

(** X18: an article from [parseHtmlToArticle] comes from HTML of at least
    100 characters, keeps that HTML as its [htmlContent], and passes the
    article schema. *)
Theorem parseHtmlToArticle_result (html url : string) (a : CachedArticle) :
  parseHtmlToArticle Document readability getAttribute document_title extractDateFromDom
    extractImageFromDom getTextDirection sanitizeHtml html url = Some a ->
  100 <= js_length html /\ htmlContent a = Some html /\ schema_ok a = true.
Proof. apply parseHtmlToArticle_some. Qed.

(** X19: a result of [tryFetchAndParse] records the strategy it was asked
    for; it has an article exactly when it is a success, and then its
    quality is [calculateQuality] of the article, it has no error and its
    HTML parses to that article; otherwise quality is 0 and an error is set. *)
Theorem tryFetchAndParse_result_consistent (url : string) (strat : FetchStrategy) (jar : Obj)
    (ev : NetEvent) (r : FetchResult) (jar' : Obj) :
  tryFetchAndParse Document readability getAttribute document_title extractDateFromDom
    extractImageFromDom getTextDirection sanitizeHtml url strat jar ev = Ok (r, jar') ->
  strategy r = strat /\
  match article r with
  | Some a =>
      success r = true /\ quality r = calculateQuality a /\ error r = None /\
      exists h, html r = Some h /\
        parseHtml Document readability getAttribute document_title extractDateFromDom
          extractImageFromDom getTextDirection sanitizeHtml h url = Some a
  | None => success r = false /\ quality r = 0 /\ error r <> None
  end.
Proof. apply tryFetchAndParse_result. Qed.

End Parse.

Lemma parseHtmlToArticle_result_witness :
  exists a, parse_with text500 page "https://ex.com/a" = Some a /\ htmlContent a = Some page.
Proof.
  destruct (parse_with text500 page "https://ex.com/a") as [a|] eqn:E;
    [|vm_compute in E; discriminate E].
  exists a. split; [reflexivity|exact (proj1 (proj2 (parseHtmlToArticle_result _ _ _ _ _ _ _ _ _ _ _ E)))].
Defined.

Lemma tryFetchAndParse_result_consistent_witness :
  exists r jar', try_with text500 "https://ex.com/a" Googlebot [] ok_with_cookie = Ok (r, jar') /\
    strategy r = Googlebot.
Proof.
  destruct (try_with text500 "https://ex.com/a" Googlebot [] ok_with_cookie) as [[r jar']|m] eqn:E;
    [|vm_compute in E; discriminate E].
  exists r, jar'. split; [reflexivity|].
  exact (proj1 (tryFetchAndParse_result_consistent _ _ _ _ _ _ _ _ _ _ _ _ _ _ E)).
Defined.

Section Handler.
Variable Document : Type.
Variable readability : string -> string -> Outcome (Document * option Parsed).
Variable getAttribute : Document -> string -> option string.
Variable document_title : Document -> option string.
Variable extractDateFromDom : Document -> option string.
Variable extractImageFromDom : Document -> option string.
Variable getTextDirection : option string -> string -> Dir.
Variable sanitizeHtml : string -> string.
Variable net : nat -> FetchStrategy -> option string -> NetEvent.
Variable diffbot : string -> string -> DiffbotRaw + string.
Variable wayback : string -> WaybackResponse.
Variable ArticleRequestSchema_safeParse : option string -> option string -> string + (string * string).
Variable ArticleResponseSchema_parse : ArticleResponse -> Outcome ArticleResponse.
Variable ErrorResponseSchema_parse : ErrorResponse -> Outcome ErrorResponse.
Variable fromError_text : CachedArticle -> string.

(** X20: an article that [fetchArticle] returns, from any source, carries
    the URL it was fetched from as its cache URL. *)
Theorem fetchArticle_cacheURL (u src : string) (o : option string) a c :
  (fetchArticle Document readability getAttribute document_title extractDateFromDom
    extractImageFromDom getTextDirection sanitizeHtml net diffbot wayback
    u src o) = Ok (SArticle a c) -> c = u.
Proof. apply fetchArticle_url. Qed.

(** X21: [GET] leaves the cache as it was, unless the request was valid, its
    URL normalised to [n] and [fetchArticle] returned an article; then the
    cache is the one [saveOrReturnLongerArticle] leaves under [source:n]. *)
Theorem GET_cache_effect (url source : option string) (st : Store) :
  snd ((GET Document readability getAttribute document_title extractDateFromDom
    extractImageFromDom getTextDirection sanitizeHtml net diffbot wayback
    ArticleRequestSchema_safeParse ArticleResponseSchema_parse ErrorResponseSchema_parse
    fromError_text
    url source st)) = st \/
  exists u src n a c,
    ArticleRequestSchema_safeParse url source = inr (u, src) /\
    extractArticleUrl u = Ok n /\
    (fetchArticle Document readability getAttribute document_title extractDateFromDom
    extractImageFromDom getTextDirection sanitizeHtml net diffbot wayback
    (getUrlWithSource src u) src (Some u)) = Ok (SArticle a c) /\
    snd ((GET Document readability getAttribute document_title extractDateFromDom
    extractImageFromDom getTextDirection sanitizeHtml net diffbot wayback
    ArticleRequestSchema_safeParse ArticleResponseSchema_parse ErrorResponseSchema_parse
    fromError_text
    url source st)) = snd (saveOrReturnLongerArticle (src ++ ":" ++ n) a st).
Proof. apply GET_store. Qed.

(** X22: every JSON response of [GET] is a 200 with an article, or a 400 or
    500 with an error body. *)
Theorem GET_status_body (url source : option string) (st : Store) :
  match fst ((GET Document readability getAttribute document_title extractDateFromDom
    extractImageFromDom getTextDirection sanitizeHtml net diffbot wayback
    ArticleRequestSchema_safeParse ArticleResponseSchema_parse ErrorResponseSchema_parse
    fromError_text
    url source st)) with
  | Json status body =>
      (status = 200 /\ exists r, body = BArticle r) \/
      ((status = 400 \/ status = 500) /\ exists e, body = BError e)
  | Unhandled => True
  end.
Proof. apply GET_status. Qed.

(** X23: when the response schema passes responses through unchanged, a
    200 response of [GET] names the requested source and, as cache URL, the
    requested URL ([getUrlWithSource]: behind the Wayback prefix for
    [wayback]). *)
Theorem GET_success_source (url source : option string) (st : Store) (R : ArticleResponse) :
  (forall r r', ArticleResponseSchema_parse r = Ok r' -> r' = r) ->
  fst ((GET Document readability getAttribute document_title extractDateFromDom
    extractImageFromDom getTextDirection sanitizeHtml net diffbot wayback
    ArticleRequestSchema_safeParse ArticleResponseSchema_parse ErrorResponseSchema_parse
    fromError_text
    url source st)) = Json 200 (BArticle R) ->
  exists u src, ArticleRequestSchema_safeParse url source = inr (u, src) /\
    ar_source R = src /\ ar_cacheURL R = getUrlWithSource src u.
Proof. apply GET_success. Qed.

(** X24: for a valid request for a source other than [jina.ai] whose URL
    parses and normalises to [n], a cached article under [source:n] that
    passes the schema, is longer than 900 and has HTML is served as a 200
    response without fetching, and the cache is left unchanged. *)
Theorem GET_serves_cache_hit (url source : option string) (st : Store) (u src n : string)
    (a : CachedArticle) (R : ArticleResponse) :
  ArticleRequestSchema_safeParse url source = inr (u, src) ->
  src <> "jina.ai" ->
  (exists o, WUrl.parse_url u = Ok o) ->
  extractArticleUrl u = Ok n ->
  articles st (src ++ ":" ++ n) = Some (CArticle a) ->
  servable a = true ->
  ArticleResponseSchema_parse
    (mkArticleResponse src (getUrlWithSource src u) (response_article getTextDirection true a)) = Ok R ->
  (GET Document readability getAttribute document_title extractDateFromDom
    extractImageFromDom getTextDirection sanitizeHtml net diffbot wayback
    ArticleRequestSchema_safeParse ArticleResponseSchema_parse ErrorResponseSchema_parse
    fromError_text
    url source st) = (Json 200 (BArticle R), st).
Proof. intros Hp Hj [o Hu]. eapply GET_cache_hit; eassumption. Qed.

End Handler.

Lemma fetchArticle_cacheURL_witness :
  exists a, fetch_with "https://web.archive.org/web/2/https://ex.com/a" "wayback" (Some "https://ex.com/a")
    = Ok (SArticle a "https://web.archive.org/web/2/https://ex.com/a").
Proof.
  destruct (fetch_with "https://web.archive.org/web/2/https://ex.com/a" "wayback" (Some "https://ex.com/a"))
    as [[a c|m]|m] eqn:E; try (vm_compute in E; discriminate E).
  exists a. rewrite (fetchArticle_cacheURL _ _ _ _ _ _ _ _ _ _ _ _ _ _ _ _ E). reflexivity.
Defined.

Lemma GET_success_source_witness :
  fst (get_with (Some "https://ex.com/a") (Some "fetch-fast") hit_store) = Json 200 (BArticle hit_response) /\
  exists u src, request_ok (Some "https://ex.com/a") (Some "fetch-fast") = inr (u, src) /\
    ar_source hit_response = src /\ ar_cacheURL hit_response = getUrlWithSource src u.
Proof.
  assert (H : fst (get_with (Some "https://ex.com/a") (Some "fetch-fast") hit_store)
              = Json 200 (BArticle hit_response)) by (vm_compute; reflexivity).
  split; [exact H|].
  refine (GET_success_source _ _ _ _ _ _ _ _ _ _ _ _ _ _ _ _ _ _ _ _ H).
  intros r r' Hr. injection Hr as ->. reflexivity.
Defined.

Lemma GET_serves_cache_hit_witness :
  get_with (Some "https://ex.com/a") (Some "fetch-fast") hit_store = (Json 200 (BArticle hit_response), hit_store).
Proof.
  apply (GET_serves_cache_hit unit (reader long_text) no_attr no_fact no_fact no_fact ltr keep_html
    no_net no_diffbot wayback_page request_ok accept_response accept_error no_error_text
    (Some "https://ex.com/a") (Some "fetch-fast") hit_store "https://ex.com/a" "fetch-fast"
    "https://ex.com/a" cached hit_response).
  - reflexivity.
  - discriminate.
  - destruct (WUrl.parse_url "https://ex.com/a") as [o|e] eqn:E;
      [exists o; reflexivity|vm_compute in E; discriminate E].
  - vm_compute; reflexivity.
  - vm_compute; reflexivity.
  - vm_compute; reflexivity.
  - vm_compute; reflexivity.
Defined.

End RouteExtras.
